(** * rsc.io/mailgun: the mg package and the two commands, embedded in Rocq

    Go strings are byte strings; they are modelled by [string], whose
    characters are the 256 values of [ascii].  A Go [int] index is a [Z].
    The header of a parsed message ([mail.Header], a Go map from field name
    to the list of its values) is a [gmap string (list string)]. *)

From Stdlib Require Import ZArith Ascii String List Lia Bool DecimalString.
From stdpp Require Import base gmap strings list sorting.

Local Open Scope Z_scope.

(** ** The parts of Go's [strings] and [bytes] packages that the code calls *)

Module GoStr.

Definition DQUOTE : ascii := "034"%char.
Definition TAB : ascii := "009"%char.
Definition LF : ascii := "010"%char.
Definition CR : ascii := "013"%char.
Definition SP : ascii := " "%char.

Definition nl : string := String LF "".

Definition len (s : string) : Z := Z.of_nat (String.length s).

(** [s[lo:hi]]; Go panics unless [0 <= lo <= hi <= len s].  The code
    slices at an index that it has just found in the string, which is
    within these bounds ([ParseAddress_slice_bounds], [IndexByte_bounds]). *)
Definition slice (s : string) (lo hi : Z) : string :=
  String.substring (Z.to_nat lo) (Z.to_nat (hi - lo)) s.

(** [bytes.IndexByte]: index of the first [c], or -1. *)
Fixpoint IndexByte (s : string) (c : ascii) : Z :=
  match s with
  | EmptyString => -1
  | String a r =>
      if Ascii.eqb a c then 0
      else let i := IndexByte r c in if i <? 0 then -1 else i + 1
  end.

(** [strings.LastIndex] with a one-byte separator. *)
Fixpoint LastIndexByte (s : string) (c : ascii) : Z :=
  match s with
  | EmptyString => -1
  | String a r =>
      let i := LastIndexByte r c in
      if 0 <=? i then i + 1 else if Ascii.eqb a c then 0 else -1
  end.

Fixpoint hasByte (s : string) (c : ascii) : bool :=
  match s with
  | EmptyString => false
  | String a r => Ascii.eqb a c || hasByte r c
  end.

(** [strings.ContainsAny] for a set [chars] of ASCII characters: a byte of
    a multi-byte rune is never below 128, so the search is byte-wise. *)
Fixpoint ContainsAny (s chars : string) : bool :=
  match s with
  | EmptyString => false
  | String a r => hasByte chars a || ContainsAny r chars
  end.

(** [strings.HasPrefix]: [len(s) >= len(prefix) && s[:len(prefix)] == prefix]. *)
Definition HasPrefix (s p : string) : bool :=
  (len p <=? len s) && String.eqb (slice s 0 (len p)) p.

(** [strings.HasSuffix]:
    [len(s) >= len(suffix) && s[len(s)-len(suffix):] == suffix]. *)
Definition HasSuffix (s suf : string) : bool :=
  (len suf <=? len s) && String.eqb (slice s (len s - len suf) (len s)) suf.

(** [strings.Contains]. *)
Fixpoint Contains (s sub : string) : bool :=
  String.prefix sub s ||
  match s with
  | EmptyString => false
  | String _ r => Contains r sub
  end.

Definition TrimSuffix (s suf : string) : string :=
  if HasSuffix s suf then slice s 0 (len s - len suf) else s.

(** White space of [unicode.IsSpace] below 128 ... *)
Definition asciiSpace (c : ascii) : bool :=
  match c with
  | "009" | "010" | "011" | "012" | "013" | " " => true
  | _ => false
  end%char.

(** ... and the UTF-8 encodings of the others: U+0085 and U+00A0 (two
    bytes), U+1680, U+2000..U+200A, U+2028, U+2029, U+202F, U+205F and
    U+3000 (three bytes). *)
Definition space2 (a b : ascii) : bool :=
  match nat_of_ascii a, nat_of_ascii b with
  | 194%nat, 133%nat | 194%nat, 160%nat => true
  | _, _ => false
  end.

Definition space3 (a b c : ascii) : bool :=
  let x := Z.of_nat (nat_of_ascii a) in
  let y := Z.of_nat (nat_of_ascii b) in
  let z := Z.of_nat (nat_of_ascii c) in
  ((x =? 225) && (y =? 154) && (z =? 128)) ||
  ((x =? 226) && (y =? 128) &&
     (((128 <=? z) && (z <=? 138)) || (z =? 168) || (z =? 169) || (z =? 175))) ||
  ((x =? 226) && (y =? 129) && (z =? 159)) ||
  ((x =? 227) && (y =? 128) && (z =? 128)).

(** [strings.TrimLeftFunc s unicode.IsSpace]: runes are decoded from the
    left; a byte sequence that is not the encoding of a white space rune
    stops the scan (an invalid byte decodes to U+FFFD). *)
Fixpoint trimLeftSpace (s : string) : string :=
  match s with
  | String a r1 =>
      if asciiSpace a then trimLeftSpace r1
      else match r1 with
           | String b r2 =>
               if space2 a b then trimLeftSpace r2
               else match r2 with
                    | String c r3 => if space3 a b c then trimLeftSpace r3 else s
                    | EmptyString => s
                    end
           | EmptyString => s
           end
  | EmptyString => s
  end.

(** The same from the right ([strings.TrimRightFunc]), on the reversed
    string: the last rune is white space exactly when the string ends
    with one of the encodings above. *)
Fixpoint trimRevSpace (s : string) : string :=
  match s with
  | String a r1 =>
      if asciiSpace a then trimRevSpace r1
      else match r1 with
           | String b r2 =>
               if space2 b a then trimRevSpace r2
               else match r2 with
                    | String c r3 => if space3 c b a then trimRevSpace r3 else s
                    | EmptyString => s
                    end
           | EmptyString => s
           end
  | EmptyString => s
  end.

Definition trimRightSpace (s : string) : string :=
  String.rev (trimRevSpace (String.rev s)).

(** [strings.TrimSpace]. *)
Definition TrimSpace (s : string) : string := trimRightSpace (trimLeftSpace s).

(** [strings.Join]. *)
Fixpoint Join (elems : list string) (sep : string) : string :=
  match elems with
  | [] => ""
  | [x] => x
  | x :: rest => String.append x (String.append sep (Join rest sep))
  end.

(** The [%d] of [fmt]. *)
Definition itoa (n : Z) : string := NilZero.string_of_int (Z.to_int n).

Definition lowerByte (c : ascii) : ascii :=
  let n := nat_of_ascii c in
  if ((65 <=? n) && (n <=? 90))%nat then ascii_of_nat (n + 32) else c.

(** [strings.ToLower] on the ASCII letters.  The code only compares the
    result with the words subject, to, cc and bcc, and no rune outside
    ASCII has one of their letters as its lower case, so on that
    comparison this agrees with the Unicode-aware library function. *)
Fixpoint ToLower (s : string) : string :=
  match s with
  | EmptyString => EmptyString
  | String a r => String (lowerByte a) (ToLower r)
  end.

End GoStr.

(** ** Results and the process *)

(** A Go [(value, error)] pair: the error is kept as its message. *)
Inductive result (A : Type) : Type :=
  | Ok (a : A)
  | Err (e : string).
Arguments Ok {A} a.
Arguments Err {A} e.

(** ** net/mail *)

Module mail.

(** [mail.Address]; [Addr] is the Go field [Address]. *)
Record Address : Type := mkAddress { Name : string; Addr : string }.

Abbreviation Header := (gmap string (list string)).

(** [mail.Message] once its body has been read to the end. *)
Record Message : Type := mkMessage { Header_ : Header; Body : string }.

(** The parsers and the printer of net/mail are outside the repository;
    the code is verified for any behaviour of them. *)
Class Lib : Type := {
  ParseAddress : string -> result Address;
  ParseAddressList : string -> result (list Address);
  ReadMessage : string -> result Message;
  String_ : Address -> string
}.

(** [Header.Get] on a key that is already canonical: the first value. *)
Definition Get (h : Header) (key : string) : string :=
  match h !! key with
  | Some (v :: _) => v
  | _ => ""
  end.

(** [Header.AddressList]. *)
Definition AddressList `{Lib} (h : Header) (key : string) : result (list Address) :=
  let hdr := Get h key in
  if String.eqb hdr "" then Err "mail: header not in message"
  else ParseAddressList hdr.

End mail.

(** ** encoding/json: [Unmarshal] into the two-string struct of [runPost]

    The response of the service is decoded by the library.  Its scanner
    (scanner.go) is a state machine stepped once per byte, kept here state
    by state; the decoder stores the members named message and id. *)

Module json.
Import GoStr.

Inductive parseState : Set := parseObjectKey | parseObjectValue | parseArrayValue.

Inductive state : Set :=
  | stateBeginValueOrEmpty | stateBeginValue | stateBeginStringOrEmpty
  | stateBeginString | stateEndValue | stateEndTop
  | stateInString | stateInStringEsc | stateInStringEscU | stateInStringEscU1
  | stateInStringEscU12 | stateInStringEscU123
  | stateNeg | state1 | state0 | stateDot | stateDot0 | stateE | stateESign | stateE0
  | stateT | stateTr | stateTru | stateF | stateFa | stateFal | stateFals
  | stateN | stateNu | stateNul.

Inductive op : Set :=
  | scanContinue | scanBeginLiteral | scanBeginObject | scanObjectKey
  | scanObjectValue | scanEndObject | scanBeginArray | scanArrayValue
  | scanEndArray | scanSkipSpace | scanEnd.

(** The scanner: the step function to call next, the stack of open
    containers (innermost first), and whether the top-level value has
    ended. *)
Record scanner : Set := mkScanner { step : state; parseStack : list parseState; endTop : bool }.

(** [s.error(c, context)]: the offending byte and what the scanner was
    looking for. *)
Definition stepResult : Set := (ascii * string) + (scanner * op).

Definition error (c : ascii) (context : string) : stepResult := inl (c, context).
Definition goto (s : scanner) (st : state) (o : op) : stepResult :=
  inr (mkScanner st (parseStack s) (endTop s), o).

Definition maxNestingDepth : Z := 10000.

Definition isSpace (c : ascii) : bool :=
  Ascii.eqb c SP || Ascii.eqb c TAB || Ascii.eqb c CR || Ascii.eqb c LF.

Definition between (lo hi c : ascii) : bool :=
  (nat_of_ascii lo <=? nat_of_ascii c)%nat && (nat_of_ascii c <=? nat_of_ascii hi)%nat.

Definition isHex (c : ascii) : bool :=
  between "0" "9" c || between "a" "f" c || between "A" "F" c.

Definition pushParseState (s : scanner) (c : ascii) (st : state)
    (newParseState : parseState) (successState : op) : stepResult :=
  let stack := newParseState :: parseStack s in
  if Z.of_nat (length stack) <=? maxNestingDepth
  then inr (mkScanner st stack (endTop s), successState)
  else error c "exceeded max depth".

Definition popParseState (s : scanner) : scanner :=
  match tl (parseStack s) with
  | [] => mkScanner stateEndTop [] true
  | rest => mkScanner stateEndValue rest (endTop s)
  end.

Definition stateEndTop_ (s : scanner) (c : ascii) : stepResult :=
  if negb (isSpace c) then error c "after top-level value" else inr (s, scanEnd).

Definition stateEndValue_ (s : scanner) (c : ascii) : stepResult :=
  match parseStack s with
  | [] => stateEndTop_ (mkScanner stateEndTop [] true) c
  | ps :: rest =>
      if isSpace c then goto s stateEndValue scanSkipSpace
      else match ps with
           | parseObjectKey =>
               if Ascii.eqb c ":" then
                 inr (mkScanner stateBeginValue (parseObjectValue :: rest) (endTop s),
                      scanObjectKey)
               else error c "after object key"
           | parseObjectValue =>
               if Ascii.eqb c "," then
                 inr (mkScanner stateBeginString (parseObjectKey :: rest) (endTop s),
                      scanObjectValue)
               else if Ascii.eqb c "}" then inr (popParseState s, scanEndObject)
               else error c "after object key:value pair"
           | parseArrayValue =>
               if Ascii.eqb c "," then goto s stateBeginValue scanArrayValue
               else if Ascii.eqb c "]" then inr (popParseState s, scanEndArray)
               else error c "after array element"
           end
  end.

Definition stateBeginValue_ (s : scanner) (c : ascii) : stepResult :=
  if isSpace c then inr (s, scanSkipSpace)
  else if Ascii.eqb c "{" then
    pushParseState s c stateBeginStringOrEmpty parseObjectKey scanBeginObject
  else if Ascii.eqb c "[" then
    pushParseState s c stateBeginValueOrEmpty parseArrayValue scanBeginArray
  else if Ascii.eqb c DQUOTE then goto s stateInString scanBeginLiteral
  else if Ascii.eqb c "-" then goto s stateNeg scanBeginLiteral
  else if Ascii.eqb c "0" then goto s state0 scanBeginLiteral
  else if Ascii.eqb c "t" then goto s stateT scanBeginLiteral
  else if Ascii.eqb c "f" then goto s stateF scanBeginLiteral
  else if Ascii.eqb c "n" then goto s stateN scanBeginLiteral
  else if between "1" "9" c then goto s state1 scanBeginLiteral
  else error c "looking for beginning of value".

Definition stateBeginValueOrEmpty_ (s : scanner) (c : ascii) : stepResult :=
  if isSpace c then inr (s, scanSkipSpace)
  else if Ascii.eqb c "]" then stateEndValue_ s c
  else stateBeginValue_ s c.

Definition stateBeginString_ (s : scanner) (c : ascii) : stepResult :=
  if isSpace c then inr (s, scanSkipSpace)
  else if Ascii.eqb c DQUOTE then goto s stateInString scanBeginLiteral
  else error c "looking for beginning of object key string".

Definition stateBeginStringOrEmpty_ (s : scanner) (c : ascii) : stepResult :=
  if isSpace c then inr (s, scanSkipSpace)
  else if Ascii.eqb c "}" then
    stateEndValue_ (mkScanner (step s) (parseObjectValue :: tl (parseStack s)) (endTop s)) c
  else stateBeginString_ s c.

Definition stateInString_ (s : scanner) (c : ascii) : stepResult :=
  if Ascii.eqb c DQUOTE then goto s stateEndValue scanContinue
  else if Ascii.eqb c "\" then goto s stateInStringEsc scanContinue
  else if (nat_of_ascii c <? 32)%nat then error c "in string literal"
  else inr (s, scanContinue).

Definition stateInStringEsc_ (s : scanner) (c : ascii) : stepResult :=
  if Ascii.eqb c "b" || Ascii.eqb c "f" || Ascii.eqb c "n" || Ascii.eqb c "r"
     || Ascii.eqb c "t" || Ascii.eqb c "\" || Ascii.eqb c "/" || Ascii.eqb c DQUOTE
  then goto s stateInString scanContinue
  else if Ascii.eqb c "u" then goto s stateInStringEscU scanContinue
  else error c "in string escape code".

Definition hexThen (next : state) (s : scanner) (c : ascii) : stepResult :=
  if isHex c then goto s next scanContinue
  else error c "in \u hexadecimal character escape".

Definition stateNeg_ (s : scanner) (c : ascii) : stepResult :=
  if Ascii.eqb c "0" then goto s state0 scanContinue
  else if between "1" "9" c then goto s state1 scanContinue
  else error c "in numeric literal".

Definition state0_ (s : scanner) (c : ascii) : stepResult :=
  if Ascii.eqb c "." then goto s stateDot scanContinue
  else if Ascii.eqb c "e" || Ascii.eqb c "E" then goto s stateE scanContinue
  else stateEndValue_ s c.

Definition state1_ (s : scanner) (c : ascii) : stepResult :=
  if between "0" "9" c then goto s state1 scanContinue else state0_ s c.

Definition stateDot_ (s : scanner) (c : ascii) : stepResult :=
  if between "0" "9" c then goto s stateDot0 scanContinue
  else error c "after decimal point in numeric literal".

Definition stateDot0_ (s : scanner) (c : ascii) : stepResult :=
  if between "0" "9" c then inr (s, scanContinue)
  else if Ascii.eqb c "e" || Ascii.eqb c "E" then goto s stateE scanContinue
  else stateEndValue_ s c.

Definition stateESign_ (s : scanner) (c : ascii) : stepResult :=
  if between "0" "9" c then goto s stateE0 scanContinue
  else error c "in exponent of numeric literal".

Definition stateE_ (s : scanner) (c : ascii) : stepResult :=
  if Ascii.eqb c "+" || Ascii.eqb c "-" then goto s stateESign scanContinue
  else stateESign_ s c.

Definition stateE0_ (s : scanner) (c : ascii) : stepResult :=
  if between "0" "9" c then inr (s, scanContinue) else stateEndValue_ s c.

(** The states inside the words true, false and null. *)
Definition expect (want : ascii) (next : state) (context : string)
    (s : scanner) (c : ascii) : stepResult :=
  if Ascii.eqb c want then goto s next scanContinue else error c context.

(** [scan.step(scan, c)]. *)
Definition step_ (s : scanner) (c : ascii) : stepResult :=
  match step s with
  | stateBeginValueOrEmpty => stateBeginValueOrEmpty_ s c
  | stateBeginValue => stateBeginValue_ s c
  | stateBeginStringOrEmpty => stateBeginStringOrEmpty_ s c
  | stateBeginString => stateBeginString_ s c
  | stateEndValue => stateEndValue_ s c
  | stateEndTop => stateEndTop_ s c
  | stateInString => stateInString_ s c
  | stateInStringEsc => stateInStringEsc_ s c
  | stateInStringEscU => hexThen stateInStringEscU1 s c
  | stateInStringEscU1 => hexThen stateInStringEscU12 s c
  | stateInStringEscU12 => hexThen stateInStringEscU123 s c
  | stateInStringEscU123 => hexThen stateInString s c
  | stateNeg => stateNeg_ s c
  | state1 => state1_ s c
  | state0 => state0_ s c
  | stateDot => stateDot_ s c
  | stateDot0 => stateDot0_ s c
  | stateE => stateE_ s c
  | stateESign => stateESign_ s c
  | stateE0 => stateE0_ s c
  | stateT => expect "r" stateTr "in literal true (expecting 'r')" s c
  | stateTr => expect "u" stateTru "in literal true (expecting 'u')" s c
  | stateTru => expect "e" stateEndValue "in literal true (expecting 'e')" s c
  | stateF => expect "a" stateFa "in literal false (expecting 'a')" s c
  | stateFa => expect "l" stateFal "in literal false (expecting 'l')" s c
  | stateFal => expect "s" stateFals "in literal false (expecting 's')" s c
  | stateFals => expect "e" stateEndValue "in literal false (expecting 'e')" s c
  | stateN => expect "u" stateNu "in literal null (expecting 'u')" s c
  | stateNu => expect "l" stateNul "in literal null (expecting 'l')" s c
  | stateNul => expect "l" stateEndValue "in literal null (expecting 'l')" s c
  end.

(** [scan.reset()]. *)
Definition reset : scanner := mkScanner stateBeginValue [] false.

(** *** decode.go: the value that the bytes spell *)

#[local] Unset Elimination Schemes.
Inductive value : Type :=
  | Null
  | Bool (b : bool)
  | Number (literal : string)
  | Str (s : string)
  | Array (items : list value)
  | Object (members : list (string * value)).
#[local] Set Elimination Schemes.

(** [utf8.EncodeRune]. *)
Definition byte (n : Z) : ascii := ascii_of_nat (Z.to_nat n).

Definition EncodeRune (r : Z) : string :=
  if r <? 128 then String (byte r) ""
  else if r <? 2048 then
    String (byte (192 + r / 64)) (String (byte (128 + r mod 64)) "")
  else if ((55296 <=? r) && (r <? 57344)) || (1114111 <? r) then
    String (byte 239) (String (byte 191) (String (byte 189) ""))
  else if r <? 65536 then
    String (byte (224 + r / 4096))
      (String (byte (128 + (r / 64) mod 64)) (String (byte (128 + r mod 64)) ""))
  else
    String (byte (240 + r / 262144))
      (String (byte (128 + (r / 4096) mod 64))
         (String (byte (128 + (r / 64) mod 64)) (String (byte (128 + r mod 64)) ""))).

(** Width of the well-formed UTF-8 sequence at the head of [s], as
    [utf8.DecodeRune] accepts it; 0 when the first byte starts none. *)
Definition cont (lo hi : Z) (c : ascii) : bool :=
  let n := Z.of_nat (nat_of_ascii c) in (lo <=? n) && (n <=? hi).

Definition runeWidth (s : string) : nat :=
  match s with
  | String a (String b r) =>
      let x := Z.of_nat (nat_of_ascii a) in
      if (194 <=? x) && (x <=? 223) then (if cont 128 191 b then 2 else 0)%nat
      else
        let lo := if x =? 224 then 160 else if x =? 240 then 144 else 128 in
        let hi := if x =? 237 then 159 else if x =? 244 then 143 else 191 in
        if (224 <=? x) && (x <=? 239) then
          match r with
          | String c _ => (if cont lo hi b && cont 128 191 c then 3 else 0)%nat
          | _ => 0%nat
          end
        else if (240 <=? x) && (x <=? 244) then
          match r with
          | String c (String d _) =>
              (if cont lo hi b && cont 128 191 c && cont 128 191 d then 4 else 0)%nat
          | _ => 0%nat
          end
        else 0%nat
  | _ => 0%nat
  end.

Definition hexVal (c : ascii) : Z :=
  let n := Z.of_nat (nat_of_ascii c) in
  if between "0" "9" c then n - 48
  else if between "a" "f" c then n - 97 + 10
  else if between "A" "F" c then n - 65 + 10
  else -1.

(** [getu4]: the code unit of a [\uXXXX] at the head of [s], or -1. *)
Definition getu4 (s : string) : Z :=
  match s with
  | String "\" (String "u" (String a (String b (String c (String d _))))) =>
      if isHex a && isHex b && isHex c && isHex d
      then ((hexVal a * 16 + hexVal b) * 16 + hexVal c) * 16 + hexVal d
      else -1
  | _ => -1
  end.

Fixpoint drop (n : nat) (s : string) : string :=
  match n, s with
  | S n', String _ r => drop n' r
  | _, _ => s
  end.

Definition take (n : nat) (s : string) : string := String.substring 0 n s.

(** What a [\uXXXX] at the head of [s] contributes and what is left of
    [s] after it: a high surrogate followed by an escaped low surrogate
    gives the rune they encode together, any other surrogate gives
    U+FFFD. *)
Definition unicodeEscape (s : string) : string * string :=
  let rr := getu4 s in
  let s1 := drop 6 s in
  if (55296 <=? rr) && (rr <? 57344) then
    let rr1 := getu4 s1 in
    if (rr <? 56320) && (56320 <=? rr1) && (rr1 <? 57344) then
      (EncodeRune ((rr - 55296) * 1024 + (rr1 - 56320) + 65536), drop 6 s1)
    else (EncodeRune 65533, s1)
  else (EncodeRune rr, s1).

Definition simpleEscape (e : ascii) : ascii :=
  if Ascii.eqb e "b" then "008"%char
  else if Ascii.eqb e "f" then "012"%char
  else if Ascii.eqb e "n" then LF
  else if Ascii.eqb e "r" then CR
  else if Ascii.eqb e "t" then TAB
  else e.

(** [unquote] on the text between the quotes of a literal that the
    scanner has accepted.  Every round consumes at least one byte, so
    [String.length s] rounds are enough ([unquote_go_fuel]). *)
Fixpoint unquote_go (fuel : nat) (s : string) : string :=
  match fuel, s with
  | S fuel', String c r =>
      if Ascii.eqb c "\" then
        match r with
        | String e r' =>
            if Ascii.eqb e "u" then
              fst (unicodeEscape s) +:+ unquote_go fuel' (snd (unicodeEscape s))
            else String (simpleEscape e) (unquote_go fuel' r')
        | EmptyString => EmptyString
        end
      else if (nat_of_ascii c <? 128)%nat then String c (unquote_go fuel' r)
      else
        match runeWidth s with
        | O => EncodeRune 65533 +:+ unquote_go fuel' r
        | S w => take (S w) s +:+ unquote_go fuel' (drop w r)
        end
  | _, _ => EmptyString
  end.

Definition unquote (s : string) : string := unquote_go (String.length s) s.

(** A finished literal, read back from its text as [literalStore] does:
    by its first byte. *)
Definition literalValue (item : string) : value :=
  match item with
  | String c r =>
      if Ascii.eqb c DQUOTE then Str (unquote (take (String.length r - 1) r))
      else if Ascii.eqb c "n" then Null
      else if Ascii.eqb c "t" then Bool true
      else if Ascii.eqb c "f" then Bool false
      else Number item
  | EmptyString => Null
  end.

(** A container that is still open: an array with the items read so far,
    or an object with its members and the key whose value is awaited
    (both lists newest first). *)
Inductive frame : Type :=
  | FArray (items : list value)
  | FObject (members : list (string * value)) (key : option string).

(** The decoder over the scanner: the literal being read (newest byte
    first), the open containers, and the top-level value once complete. *)
Record decodeState : Type := mkDecode {
  scan : scanner;
  literal : option string;
  frames : list frame;
  top : option value
}.

Definition put (v : value) (d : decodeState) : decodeState :=
  match frames d with
  | [] => mkDecode (scan d) (literal d) [] (Some v)
  | FArray items :: fs => mkDecode (scan d) (literal d) (FArray (v :: items) :: fs) (top d)
  | FObject ms (Some k) :: fs =>
      mkDecode (scan d) (literal d) (FObject ((k, v) :: ms) None :: fs) (top d)
  | FObject ms None :: fs =>
      let k := match v with Str k => k | _ => "" end in
      mkDecode (scan d) (literal d) (FObject ms (Some k) :: fs) (top d)
  end.

Definition finishLiteral (d : decodeState) : decodeState :=
  match literal d with
  | Some item => put (literalValue (String.rev item)) (mkDecode (scan d) None (frames d) (top d))
  | None => d
  end.

Definition close (d : decodeState) : decodeState :=
  match frames d with
  | FArray items :: fs => put (Array (rev items)) (mkDecode (scan d) (literal d) fs (top d))
  | FObject ms _ :: fs => put (Object (rev ms)) (mkDecode (scan d) (literal d) fs (top d))
  | [] => d
  end.

Definition open (f : frame) (d : decodeState) : decodeState :=
  mkDecode (scan d) (literal d) (f :: frames d) (top d).

Definition withScan (s : scanner) (d : decodeState) : decodeState :=
  mkDecode s (literal d) (frames d) (top d).

(** One byte: step the scanner, then act on what it reports. *)
Definition feed (d : decodeState) (c : ascii) : (ascii * string) + decodeState :=
  match step_ (scan d) c with
  | inl e => inl e
  | inr (s, o) =>
      let d := withScan s d in
      inr match o with
          | scanContinue =>
              mkDecode s (Some (String c (default "" (literal d)))) (frames d) (top d)
          | scanBeginLiteral => mkDecode s (Some (String c "")) (frames d) (top d)
          | scanBeginObject => open (FObject [] None) (finishLiteral d)
          | scanBeginArray => open (FArray []) (finishLiteral d)
          | scanEndObject | scanEndArray => close (finishLiteral d)
          | scanObjectKey | scanObjectValue | scanArrayValue | scanSkipSpace | scanEnd =>
              finishLiteral d
          end
  end.

Inductive Error : Type :=
  | SyntaxError (c : option ascii) (context : string) (offset : Z)
  | UnmarshalTypeError (jsonValue : string) (field : string).

(** [checkValid] and the reading of the value, byte by byte; [scan.eof()]
    steps once more with a space so that a number at the very end is
    closed. *)
Fixpoint feedAll (d : decodeState) (data : string) (offset : Z) : Error + decodeState :=
  match data with
  | EmptyString => inr d
  | String c rest =>
      match feed d c with
      | inl (c', context) => inl (SyntaxError (Some c') context (offset + 1))
      | inr d' => feedAll d' rest (offset + 1)
      end
  end.

Definition parse (data : string) : Error + value :=
  match feedAll (mkDecode reset None [] None) data 0 with
  | inl e => inl e
  | inr d =>
      let eof := SyntaxError None "unexpected end of JSON input" (len data) in
      if endTop (scan d) then
        match top d with Some v => inr v | None => inl eof end
      else
        match feed d SP with
        | inr d' =>
            if endTop (scan d') then
              match top d' with Some v => inr v | None => inl eof end
            else inl eof
        | inl (c, context) => inl (SyntaxError (Some c) context (len data))
        end
  end.

(** *** The target of [runPost]: a struct of two strings *)

Record mailResp : Type := mkMailResp { Message : string; ID : string }.

Inductive field : Set := fMessage | fID.

Definition upperByte (c : ascii) : ascii :=
  if between "a" "z" c then ascii_of_nat (nat_of_ascii c - 32) else c.

(** The case-insensitive match of a member name against a field name
    written in ASCII: letters match in either case, and the name's s and
    k also match U+017F (long s) and U+212A (Kelvin sign). *)
Fixpoint equalFold (name key : string) : bool :=
  match name with
  | EmptyString => String.eqb key ""
  | String sb name' =>
      match key with
      | EmptyString => false
      | String tb key' =>
          if (nat_of_ascii tb <? 128)%nat then
            (Ascii.eqb sb tb ||
               (between "A" "Z" (upperByte sb) && Ascii.eqb (upperByte sb) (upperByte tb)))
            && equalFold name' key'
          else if Ascii.eqb (upperByte sb) "S" then
            String.eqb (take 2 key) (String (byte 197) (String (byte 191) ""))
            && equalFold name' (drop 2 key)
          else if Ascii.eqb (upperByte sb) "K" then
            String.eqb (take 3 key) (String (byte 226) (String (byte 132) (String (byte 170) "")))
            && equalFold name' (drop 3 key)
          else false
      end
  end.

(** The field a member is stored in: the one with exactly that name, or
    else the first whose name matches case-insensitively. *)
Definition fieldFor (key : string) : option field :=
  if String.eqb key "message" then Some fMessage
  else if String.eqb key "id" then Some fID
  else if equalFold "message" key then Some fMessage
  else if equalFold "id" key then Some fID
  else None.

Definition fieldName (f : field) : string :=
  match f with fMessage => "Message" | fID => "ID" end.

Definition kindName (v : value) : string :=
  match v with
  | Null => "null" | Bool _ => "bool" | Number _ => "number"
  | Str _ => "string" | Array _ => "array" | Object _ => "object"
  end.

(** A member value into a string field: a string is stored, null leaves
    the field alone, anything else is a type error (kept if it is the
    first) and decoding goes on. *)
Definition storeMember (acc : mailResp * option Error) (m : string * value)
    : mailResp * option Error :=
  let '(r, e) := acc in
  match fieldFor (fst m) with
  | None => acc
  | Some f =>
      match snd m with
      | Str s =>
          (match f with
           | fMessage => mkMailResp s (ID r)
           | fID => mkMailResp (Message r) s
           end, e)
      | Null => acc
      | v =>
          (r, match e with
              | Some _ => e
              | None => Some (UnmarshalTypeError (kindName v) (fieldName f))
              end)
      end
  end.

(** [json.Unmarshal(data, &mailResp)] on a zero [mailResp]. *)
Definition Unmarshal (data : string) : Error + mailResp :=
  match parse data with
  | inl e => inl e
  | inr Null => inr (mkMailResp "" "")
  | inr (Object ms) =>
      match fold_left storeMember ms (mkMailResp "" "", None) with
      | (_, Some e) => inl e
      | (r, None) => inr r
      end
  | inr v => inl (UnmarshalTypeError (kindName v) "")
  end.

End json.

(** ** net/http, mime/multipart and the rest of the outside world *)

Module http.

Record Request : Type := mkRequest {
  Method : string;
  URL : string;
  ContentType : string;
  AuthUser : string;
  AuthPassword : string;
  ReqBody : string
}.

(** A response: [RespBody] is what [ioutil.ReadAll] returns from its
    body, and [BodyErr] the error that ended the reading, if any. *)
Record Response : Type := mkResponse {
  StatusCode : Z;
  Status : string;
  RespBody : string;
  BodyErr : option string
}.

End http.

Module multipart.

(** What is written to a [multipart.Writer]: [WriteField], or
    [CreateFormFile] followed by the copy of the file into it. *)
Inductive Part : Type :=
  | Field (fieldname value : string)
  | FormFile (fieldname filename content : string).

End multipart.

(** What [os.Open] and the [io.Copy] out of the file give. *)
Inductive fileRead : Type :=
  | OpenFailed (e : string)
  | CopyFailed (e : string)
  | Contents (data : string).

(** Everything the program asks of its surroundings and of library code
    whose result depends on them.  [multipart_chunks] is the sequence of
    byte slices that the reads of the pipe return for the parts written:
    the multipart encoding, cut wherever the reader's buffer cuts it. *)
Class Sys : Type := {
  filepath_Base : string -> string;
  os_Open : string -> fileRead;
  strconv_Quote : string -> string;
  http_NewRequest_error : string -> option string;
  http_Do : http.Request -> result http.Response;
  httputil_DumpRequest : http.Request -> string;
  httputil_DumpResponse : http.Response -> string;
  multipart_FormDataContentType : string;
  multipart_chunks : list multipart.Part -> list string;
  json_Error : json.Error -> string;
  json_Compact : string -> string
}.

(** ** The process

    A run leaves a trace of what it wrote and sent, and ends by returning,
    by [os.Exit], or by a run-time panic. *)

Inductive logRecord : Type :=
  | LogDie (user : string) (args : list string) (err : string)
  | LogText (user : string) (args : list string) (text : string)
  | LogSent (user : string) (args : list string) (from : mail.Address)
      (to : list mail.Address) (length : Z) (resp : string).

Inductive event : Type :=
  | Stderr (text : string)
  | LogPrintf (r : logRecord)
  | HttpDo (req : http.Request)
  | Finished.

Inductive outcome (A : Type) : Type :=
  | Ret (a : A)
  | Exit (code : Z)
  | Panic (what : string).
Arguments Ret {A} a.
Arguments Exit {A} code.
Arguments Panic {A} what.

Definition Proc (A : Type) : Type := list event * outcome A.

Definition ret {A} (a : A) : Proc A := ([], Ret a).

Definition bind {A B} (m : Proc A) (f : A -> Proc B) : Proc B :=
  match m with
  | (t, Ret a) => let '(t', o) := f a in (t ++ t', o)
  | (t, Exit code) => (t, Exit code)
  | (t, Panic what) => (t, Panic what)
  end.

Definition emit (e : event) : Proc unit := ([e], Ret tt).

Declare Scope proc_scope.
Delimit Scope proc_scope with proc.
Notation "'let*' x := m 'in' k" := (bind m (fun x => k))
  (at level 10, x pattern, m at level 100, k at level 200) : proc_scope.
Notation "m >> k" := (bind m (fun _ => k))
  (at level 100, k at level 200, right associativity) : proc_scope.
Local Open Scope proc_scope.

Definition sconcat (l : list string) : string := fold_right String.append "" l.

(** ** Package mg *)

Module mg.
Import GoStr.

(** The package variables, set once at start-up, and [os.Args]:
    [Prog] is [os.Args[0]] and [Argv] the rest. *)
Record Config : Type := mkConfig {
  IsTTY : bool;
  Domain : string;
  APIKey : string;
  User : string;
  Verbose : bool;
  DebugHTTP : bool;
  DisableMail : bool;
  Prog : string;
  Argv : list string
}.

Definition Args (cfg : Config) : list string := Prog cfg :: Argv cfg.

(** [Die]: log the error, print it, [os.Exit(2)]. *)
Definition Die `{Sys} {A} (cfg : Config) (err : string) : Proc A :=
  ([LogPrintf (LogDie (User cfg) (Args cfg) err);
    Stderr (filepath_Base (Prog cfg) +:+ ": " +:+ err +:+ nl)],
   Exit 2).

Definition Logf (cfg : Config) (text : string) : Proc unit :=
  emit (LogPrintf (LogText (User cfg) (Args cfg) text)).

(** The characters that make [ParseAddress] leave its first branch:
    angle brackets, parentheses, the double quote, space, tab, CR, LF. *)
Definition specials : string :=
  "<>()" +:+ String DQUOTE (String SP (String TAB (String CR (String LF "")))).

Definition ParseAddress `{mail.Lib} (addr : string) : result mail.Address :=
  if negb (ContainsAny addr specials) then
    Ok (mail.mkAddress "" addr)
  else
    if HasSuffix addr ">" && negb (HasPrefix addr (String DQUOTE "")) then
      let i := LastIndexByte addr "<"%char in
      if 0 <=? i then
        Ok (mail.mkAddress (TrimSpace (slice addr 0 i)) (slice addr i (len addr - 1)))
      else mail.ParseAddress addr
    else mail.ParseAddress addr.

(** [AddrListFlag.Set]: append the parsed address. *)
Definition AddrListFlag_Set `{mail.Lib} (x : list mail.Address) (addr : string)
  : result (list mail.Address) :=
  match ParseAddress addr with
  | Err e => Err e
  | Ok a => Ok (x ++ [a])
  end.

(** [FixLocalAddr] updates the address in place; here it returns the
    updated record.  [Domain] is the package variable set by [parseKey]. *)
Definition FixLocalAddr (domain : string) (a : mail.Address) : mail.Address :=
  if negb (Contains (mail.Addr a) "@") then
    mail.mkAddress (mail.Name a) (mail.Addr a +:+ "@" +:+ domain)
  else a.

Definition FixLocalAddrs (domain : string) (l : list mail.Address) : list mail.Address :=
  map (FixLocalAddr domain) l.

(** A structured message to be sent. *)
Record Message : Type := mkMessage {
  From : mail.Address;
  To : list mail.Address;
  CC : list mail.Address;
  BCC : list mail.Address;
  Subject : string;
  Body : string;
  Attachments : list string
}.

(** [check]. *)
Definition check `{Sys} (cfg : Config) (err : option string) : Proc unit :=
  match err with
  | Some e => Die cfg ("creating mailgun API request: " +:+ e)
  | None => ret tt
  end.

(** *** The read end of the pipe and the counting reader

    [runPost] holds the pipe twice: as [body] and as [cr.r].  The state
    is one record, the bytes not yet read ([r], one element per read)
    and the count; a read through [cr] counts, a read of [body] does
    not, and both take from the same pipe. *)
Record countingReader : Type := mkCountingReader { total : Z; r : list string }.

(** [c.total += int64(n)] wraps around like any Go [int64]. *)
Definition wrap64 (z : Z) : Z := (z + 2 ^ 63) mod 2 ^ 64 - 2 ^ 63.

(** The [Read] method of the counting reader; [None] is [io.EOF]. *)
Definition countingReader_Read (c : countingReader) : option string * countingReader :=
  match r c with
  | [] => (None, c)
  | b :: rest => (Some b, mkCountingReader (wrap64 (total c + len b)) rest)
  end.

(** A read of [body] itself. *)
Definition body_Read (c : countingReader) : option string * countingReader :=
  match r c with
  | [] => (None, c)
  | b :: rest => (Some b, mkCountingReader (total c) rest)
  end.

(** Reading to the end with either of them; [n] bounds the number of
    reads and is taken as the number of pending slices plus the last,
    empty read. *)
Fixpoint readToEOF (read : countingReader -> option string * countingReader)
    (n : nat) (c : countingReader) : string * countingReader :=
  match n with
  | O => ("", c)
  | S n' =>
      match read c with
      | (None, c') => ("", c')
      | (Some b, c') => let '(data, c'') := readToEOF read n' c' in (b +:+ data, c'')
      end
  end.

(** The reads that [http.Client.Do] and [httputil.DumpRequest] make of
    [req.Body], which is [cr]. *)
Definition readRequestBody (c : countingReader) : string * countingReader :=
  readToEOF countingReader_Read (S (length (r c))) c.

(** [io.Copy(ioutil.Discard, body)]. *)
Definition copyDiscardBody (c : countingReader) : countingReader :=
  snd (readToEOF body_Read (S (length (r c))) c).

(** The count once every slice of [body] has gone through the counting
    reader. *)
Definition countAll (body : list string) : Z :=
  fold_left (fun t b => wrap64 (t + len b)) body 0.

(** *** runPost

    [body] lists what the reads of the pipe return, in order; the result
    is the final state of [cr] (its [r] is what is left in the pipe).
    The error branch of [DumpRequest] is left out: it only reports a
    failed read of the body, and the pipe is never closed with an
    error. *)
Definition newRequest (cfg : Config) (endpoint bodytype sent : string) : http.Request :=
  http.mkRequest "POST" endpoint bodytype "api" (APIKey cfg) sent.

Definition runPost `{Sys} (cfg : Config) (from : mail.Address) (to : list mail.Address)
    (endpoint bodytype : string) (body : list string) : Proc countingReader :=
  let cr := mkCountingReader 0 body in
  check cfg (http_NewRequest_error endpoint) >>
  (* DumpRequest reads req.Body to its end and leaves a copy in its place *)
  let* (saved, cr) :=
    (if DebugHTTP cfg then
       let '(data, cr) := readRequestBody cr in
       emit (Stderr (httputil_DumpRequest (newRequest cfg endpoint bodytype data))) >>
       ret (Some data, cr)
     else ret (None, cr)) in
  if DisableMail cfg then
    emit (Stderr ("not sending mail (disabled)" +:+ nl)) >>
    let cr := copyDiscardBody cr in
    emit Finished >>
    ret cr
  else
    (* the client sends req.Body: the saved copy, or else what it reads from cr *)
    let '(sent, cr) :=
      match saved with
      | Some data => (data, cr)
      | None => readRequestBody cr
      end in
    let req := newRequest cfg endpoint bodytype sent in
    emit (HttpDo req) >>
    match http_Do req with
    | Err e => Die cfg ("sending mail: " +:+ e)
    | Ok resp =>
        (if DebugHTTP cfg then
           match http.BodyErr resp with
           | Some e => Die cfg ("dumping response: " +:+ e)
           | None => emit (Stderr (httputil_DumpResponse resp))
           end
         else ret tt) >>
        let data := http.RespBody resp in
        if negb (http.StatusCode resp =? 200) then
          Die cfg ("sending mail: " +:+ http.Status resp +:+ nl +:+ data)
        else
          match http.BodyErr resp with
          | Some e => Die cfg ("sending mail: " +:+ e +:+ nl +:+ data)
          | None =>
              match json.Unmarshal data with
              | inl e =>
                  Die cfg ("sending mail: invalid JSON response: "
                           +:+ json_Error e +:+ nl +:+ data)
              | inr mailResp =>
                  emit (LogPrintf (LogSent (User cfg) (Args cfg) from to (total cr)
                                     (json_Compact data))) >>
                  (if IsTTY cfg || Verbose cfg then
                     emit (Stderr ("mailgun: " +:+ json.Message mailResp +:+ nl))
                   else ret tt) >>
                  emit Finished >>
                  ret cr
              end
          end
    end.

(** [startPost], the writes to the multipart writer, and [end()].  The
    sender and [runPost] run side by side in the program; here the parts
    are written first and [runPost] then reads them.  Writes to the pipe
    fail only once its read end is closed, which nothing does, so the
    [check]s around them never fire. *)
Definition post `{Sys} (cfg : Config) (from : mail.Address) (to : list mail.Address)
    (endpoint : string) (parts : list multipart.Part) : Proc countingReader :=
  runPost cfg from to ("https://api.mailgun.net/v3/" +:+ Domain cfg +:+ "/" +:+ endpoint)
    multipart_FormDataContentType (multipart_chunks parts).

(** The loop over [msg.Attachments]. *)
Fixpoint attach `{Sys} (cfg : Config) (files : list string) : Proc (list multipart.Part) :=
  match files with
  | [] => ret []
  | file :: rest =>
      match os_Open file with
      | OpenFailed e => Die cfg ("attaching file: " +:+ e)
      | CopyFailed e => Die cfg ("attaching file: " +:+ e)
      | Contents data =>
          let* parts := attach cfg rest in
          ret (multipart.FormFile "attachment" (filepath_Base file) data :: parts)
      end
  end.

(** The form fields that [Mail] writes before the attachments. *)
Definition fields `{mail.Lib} (msg : Message) : list multipart.Part :=
  [multipart.Field "from" (mail.String_ (From msg))]
  ++ map (fun a => multipart.Field "to" (mail.String_ a)) (To msg)
  ++ map (fun a => multipart.Field "cc" (mail.String_ a)) (CC msg)
  ++ map (fun a => multipart.Field "bcc" (mail.String_ a)) (BCC msg)
  ++ (if String.eqb (Subject msg) "" then [] else [multipart.Field "subject" (Subject msg)])
  ++ [multipart.Field "text" (Body msg)].

(** The message after the four [FixLocalAddr(s)] calls of [Mail]. *)
Definition fixMessage (domain : string) (msg : Message) : Message :=
  mkMessage (FixLocalAddr domain (From msg)) (FixLocalAddrs domain (To msg))
    (FixLocalAddrs domain (CC msg)) (FixLocalAddrs domain (BCC msg))
    (Subject msg) (Body msg) (Attachments msg).

Definition Mail `{mail.Lib} `{Sys} (cfg : Config) (msg : Message) : Proc countingReader :=
  let msg := fixMessage (Domain cfg) msg in
  let allTo := To msg ++ CC msg ++ BCC msg in
  let* files := attach cfg (Attachments msg) in
  post cfg (From msg) allTo "messages" (fields msg ++ files).

(** What [MailMIME] writes: a to field for every recipient, then the
    message as the file part. *)
Definition mimeParts `{mail.Lib} (to : list mail.Address) (mime : string)
    : list multipart.Part :=
  map (fun a => multipart.Field "to" (mail.String_ a)) to
  ++ [multipart.FormFile "message" "mime.msg" mime].

Definition MailMIME `{mail.Lib} `{Sys} (cfg : Config) (from : mail.Address)
    (to : list mail.Address) (mime : string) : Proc countingReader :=
  let from := FixLocalAddr (Domain cfg) from in
  let to := FixLocalAddrs (Domain cfg) to in
  post cfg from to "messages.mime" (mimeParts to mime).

End mg.

(** ** Standard input through [bufio.Reader.ReadBytes]

    [data] is what standard input delivers before it ends, and [failure]
    the error that ended it ([None] for [io.EOF]). *)

Module bufio.
Import GoStr.

Record Input : Type := mkInput { data : string; failure : option string }.

(** The successive non-empty results of [ReadBytes('\n')]: every line
    with its line feed, the last one possibly without. *)
Fixpoint readLines (s : string) : list string :=
  match s with
  | EmptyString => []
  | String a rest =>
      if Ascii.eqb a LF then String a "" :: readLines rest
      else match readLines rest with
           | [] => [String a ""]
           | l :: ls => String a l :: ls
           end
  end.

(** [line[i]]; the lines are never empty and the code checks the length
    before it reads a second byte, so the default is not reached. *)
Definition at_ (line : string) (i : nat) : ascii :=
  default Ascii.zero (String.get i line).

Definition last_ (line : string) : ascii := at_ line (String.length line - 1).

End bufio.

(** ** Command mailgun-sendmail *)

Module mailgun_sendmail.
Import GoStr bufio.

Record Flags : Type := mkFlags {
  Bflag : string;
  bflag : string;
  dflag : list string;
  Fflag : string;
  fflag : string;
  iflag : bool;
  tflag : bool;
  vflag : bool;
  args : list string
}.

(** The three tests that [msgCopy] makes on a line:
    [len(line) == 2 && line[0] == '.' && line[1] == '\n'],
    [line[0] != ' ' && line[0] != '\t' && bytes.IndexByte(line, ':') < 0],
    and [line[len(line)-1] != '\n']. *)
Definition dotLine (line : string) : bool :=
  (len line =? 2) && Ascii.eqb (at_ line 0) "." && Ascii.eqb (at_ line 1) LF.

Definition endsHeader (line : string) : bool :=
  negb (Ascii.eqb (at_ line 0) SP) && negb (Ascii.eqb (at_ line 0) TAB)
  && (IndexByte line ":" <? 0).

Definition unterminated (line : string) : bool := negb (Ascii.eqb (last_ line) LF).

(** [w.Write(line)], and [w.Write(nl)] after a line that has no line
    feed. *)
Definition written (line : string) : string :=
  line +:+ (if unterminated line then nl else "").

(** The loop of [msgCopy] over the lines still to be read.  [dots] is
    [mg.IsTTY && !iflag].  The result is what was written to [w] and,
    when a line with only a dot stopped the loop, the lines after it,
    which are left unread. *)
Fixpoint msgCopy_loop (dots hdr : bool) (lines : list string)
    : string * option (list string) :=
  match lines with
  | [] => ("", None)
  | line :: rest =>
      if dots && dotLine line then ("", Some rest)
      else
        let boundary := hdr && endsHeader line in
        let '(out, unread) := msgCopy_loop dots (if boundary then false else hdr) rest in
        ((if boundary && negb (Ascii.eqb (at_ line 0) LF) then nl else "")
         +:+ written line
         +:+ out,
         unread)
  end.

Definition msgCopy `{Sys} (cfg : mg.Config) (fl : Flags) (stdin : Input) : Proc string :=
  match msgCopy_loop (mg.IsTTY cfg && negb (iflag fl)) true (readLines (data stdin)) with
  | (out, Some _) => ret out
  | (out, None) =>
      match failure stdin with
      | None => ret out
      | Some e => mg.Die cfg ("reading message: " +:+ e)
      end
  end.

(** The loop over [dflag]. *)
Fixpoint debugValues `{Sys} (cfg : mg.Config) (values : list string) : Proc mg.Config :=
  match values with
  | [] => ret cfg
  | v :: rest =>
      if String.eqb v "http" then
        debugValues (mg.mkConfig (mg.IsTTY cfg) (mg.Domain cfg) (mg.APIKey cfg) (mg.User cfg)
                       (mg.Verbose cfg) true (mg.DisableMail cfg) (mg.Prog cfg) (mg.Argv cfg))
          rest
      else if String.eqb v "nosend" then
        debugValues (mg.mkConfig (mg.IsTTY cfg) (mg.Domain cfg) (mg.APIKey cfg) (mg.User cfg)
                       (mg.Verbose cfg) (mg.DebugHTTP cfg) true (mg.Prog cfg) (mg.Argv cfg))
          rest
      else mg.Die cfg ("unknown debug value -d " +:+ v)
  end.

(** The loop over [flag.Args()]. *)
Fixpoint setTo `{mail.Lib} `{Sys} (cfg : mg.Config) (to : list mail.Address)
    (l : list string) : Proc (list mail.Address) :=
  match l with
  | [] => ret to
  | arg :: rest =>
      match mg.AddrListFlag_Set to arg with
      | Err e => mg.Die cfg ("cannot parse To: address: " +:+ e)
      | Ok to' => setTo cfg to' rest
      end
  end.

(** The loop over To, Cc and Bcc under [-t]. *)
Fixpoint harvest `{mail.Lib} `{Sys} (cfg : mg.Config) (h : mail.Header)
    (to : list mail.Address) (keys : list string) : Proc (list mail.Address) :=
  match keys with
  | [] => ret to
  | key :: rest =>
      if (length (default [] (h !! key)) =? 0)%nat then harvest cfg h to rest
      else
        match mail.AddressList h key with
        | Err e => mg.Die cfg ("cannot parse " +:+ key +:+ ": list: " +:+ e)
        | Ok addrs => harvest cfg h (to ++ addrs) rest
        end
  end.

(** [msg.Header["From"] = []string{from.String()}] when the message has
    no From, and then [delete(msg.Header, "Bcc")]. *)
Definition noFrom (h : mail.Header) : bool :=
  (length (default [] (h !! "From")) =? 0)%nat.

Definition defaultFrom `{mail.Lib} (from : mail.Address) (h : mail.Header) : mail.Header :=
  if noFrom h then <["From" := [mail.String_ from]]> h else h.

Definition outgoingHeader `{mail.Lib} (from : mail.Address) (h : mail.Header) : mail.Header :=
  delete "Bcc" (defaultFrom from h).

(** [sort.Strings]: increasing byte-wise order. *)
Definition sortStrings (keys : list string) : list string := merge_sort String.le keys.

(** The two nested loops that print the header: for every key in sorted
    order, every value of that key in the order of the map entry.
    [keys] is the slice collected by [range msg.Header], whose order the
    language leaves open. *)
Definition linesOf (vals : string -> list string) (ks : list string)
  : list (string * string) :=
  flat_map (fun k => map (fun v => (k, v)) (vals k)) ks.

Definition headerLines (keys : list string) (h : mail.Header) : list (string * string) :=
  linesOf (fun k => default [] (h !! k)) (sortStrings keys).

(** [fmt.Fprintf(&hdr, "%s: %s\n", k, v)]. *)
Definition formatLine (kv : string * string) : string :=
  fst kv +:+ ": " +:+ snd kv +:+ nl.

(** The buffer [hdr] after the final [fmt.Fprintf(&hdr, "\n")]. *)
Definition renderHeader (keys : list string) (h : mail.Header) : string :=
  sconcat (map formatLine (headerLines keys h)) +:+ nl.

(** The values that a rendered header block gives for the field [k], in
    the order of its lines. *)
Fixpoint valuesOf (k : string) (lines : list (string * string)) : list string :=
  match lines with
  | [] => []
  | (k', v) :: rest =>
      if String.eqb k' k then v :: valuesOf k rest else valuesOf k rest
  end.

(** One order in which [range] may yield the keys. *)
Definition rangeKeys (h : mail.Header) : list string := (map_to_list h).*1.

Definition setVerbose (cfg : mg.Config) (v : bool) : mg.Config :=
  mg.mkConfig (mg.IsTTY cfg) (mg.Domain cfg) (mg.APIKey cfg) (mg.User cfg) v
    (mg.DebugHTTP cfg) (mg.DisableMail cfg) (mg.Prog cfg) (mg.Argv cfg).

(** What [main] hands to [mg.MailMIME]. *)
Record Relay : Type := mkRelay {
  config : mg.Config;
  from : mail.Address;
  to : list mail.Address;
  mime : string
}.

(** [main] up to the call of [mg.MailMIME].  [cfg] holds the package
    variables after [mg.Init]; [mg.User] and the USER that [main] asks
    of the environment are the same variable.  [msgCopy] runs beside
    [mail.ReadMessage] in the program and feeds it through a pipe; here
    it runs first. *)
Definition prepare `{mail.Lib} `{Sys} (cfg : mg.Config) (fl : Flags) (stdin : Input)
    : Proc Relay :=
  let* cfg := debugValues cfg (dflag fl) in
  let cfg := setVerbose cfg (vflag fl) in
  if negb (String.eqb (bflag fl) "m") then
    mg.Die cfg "only sendmail -bm is supported"
  else if (length (args fl) =? 0)%nat && negb (tflag fl) then
    mg.Die cfg "no delivery addresses given"
  else
    let* to := setTo cfg [] (args fl) in
    let* from :=
      (if negb (String.eqb (fflag fl) "") then ret (mail.mkAddress (Fflag fl) (fflag fl))
       else if String.eqb (mg.User cfg) "" then
         mg.Die cfg "cannot determine From address: -f/-r not used, and $USER not set"
       else ret (mail.mkAddress (Fflag fl) (mg.User cfg))) in
    let from := mg.FixLocalAddr (mg.Domain cfg) from in
    let* text := msgCopy cfg fl stdin in
    match mail.ReadMessage text with
    | Err e => mg.Die cfg ("reading message header: " +:+ e)
    | Ok msg =>
        let* to :=
          (if tflag fl then
             let* to := harvest cfg (mail.Header_ msg) to ["To"; "Cc"; "Bcc"] in
             if (length to =? 0)%nat then mg.Die cfg "no recipients found in message"
             else ret to
           else ret to) in
        let h := outgoingHeader from (mail.Header_ msg) in
        ret (mkRelay cfg from to (renderHeader (rangeKeys h) h +:+ mail.Body msg))
    end.

Definition main `{mail.Lib} `{Sys} (cfg : mg.Config) (fl : Flags) (stdin : Input)
    : Proc mg.countingReader :=
  let* m := prepare cfg fl stdin in
  mg.MailMIME (config m) (from m) (to m) (mime m).

End mailgun_sendmail.

(** ** Command mailgun-mail *)

Module mailgun_mail.
Import GoStr bufio.

(** The flags after [getopt.Parse]; [-b] and [-c] arrive as the parsed
    address lists that their [Set] methods built. *)
Record Flags : Type := mkFlags {
  Eflag : bool;
  dflag : bool;
  nflag : bool;
  tflag : bool;
  vflag : bool;
  aflag : list string;
  bccflag : list mail.Address;
  ccflag : list mail.Address;
  rflag : list string;
  sflag : list string;
  args : list string
}.

(** The variables of [main] that the reading of standard input updates;
    [unread] is what the reader [b] still holds. *)
Record Draft : Type := mkDraft {
  to : list mail.Address;
  cc : list mail.Address;
  bcc : list mail.Address;
  subject : string;
  body : string;
  unread : list string
}.

Inductive whichList : Set := listTo | listCc | listBcc.

(** The append to the list that [list] points to. *)
Definition appendTo (w : whichList) (addrs : list mail.Address) (d : Draft) : Draft :=
  match w with
  | listTo => mkDraft (to d ++ addrs) (cc d) (bcc d) (subject d) (body d) (unread d)
  | listCc => mkDraft (to d) (cc d ++ addrs) (bcc d) (subject d) (body d) (unread d)
  | listBcc => mkDraft (to d) (cc d) (bcc d ++ addrs) (subject d) (body d) (unread d)
  end.

(** The draft after a line has been read, after [subject = val], and
    after [body.Write(line)]. *)
Definition readTo (rest : list string) (d : Draft) : Draft :=
  mkDraft (to d) (cc d) (bcc d) (subject d) (body d) rest.

Definition setSubject (val : string) (d : Draft) : Draft :=
  mkDraft (to d) (cc d) (bcc d) val (body d) (unread d).

Definition writeBody (line : string) (d : Draft) : Draft :=
  mkDraft (to d) (cc d) (bcc d) (subject d) (body d +:+ line) (unread d).

(** The loop under [tflag] over the lines still to be read.  The result
    is the draft and whether the loop left by [goto Send]. *)
Fixpoint harvest `{mail.Lib} `{Sys} (cfg : mg.Config) (failure : option string)
    (d : Draft) (lines : list string) : Proc (Draft * bool) :=
  let known (w : whichList) (key val : string) (rest : list string) :=
    match mail.ParseAddressList val with
    | Err e => mg.Die cfg ("cannot parse " +:+ key +:+ ": list: " +:+ e)
    | Ok addrs => harvest cfg failure (appendTo w addrs (readTo rest d)) rest
    end in
  match lines with
  | [] =>
      match failure with
      | None => ret (readTo [] d, false)
      | Some e => mg.Die cfg ("reading message: " +:+ e)
      end
  | line :: rest =>
      let i := IndexByte line ":" in
      if i <? 0 then
        if (0 <? len line) && negb (Ascii.eqb (at_ line 0) LF) then
          if Ascii.eqb (at_ line 0) "."
             && ((len line =? 1) || ((len line =? 2) && Ascii.eqb (at_ line 1) LF))
             && mg.IsTTY cfg
          then ret (readTo rest d, true)
          else ret (writeBody line (readTo rest d), false)
        else ret (readTo rest d, false)
      else
        let key := slice line 0 i in
        let val := TrimSpace (slice line (i + 1) (len line)) in
        let lower := ToLower key in
        if String.eqb lower "subject" then
          harvest cfg failure (setSubject val (readTo rest d)) rest
        else if String.eqb lower "to" then known listTo "To" val rest
        else if String.eqb lower "cc" then known listCc "CC" val rest
        else if String.eqb lower "bcc" then known listBcc "BCC" val rest
        else
          (* default: the switch is left with list still nil *)
          emit (Stderr ("mailgun-mail: ignoring header field "
                        +:+ strconv_Quote (TrimSuffix line nl) +:+ nl)) >>
          match mail.ParseAddressList val with
          | Err e => mg.Die cfg ("cannot parse " +:+ key +:+ ": list: " +:+ e)
          | Ok _ => ([], Panic "invalid memory address or nil pointer dereference")
          end
  end.

(** The loop that reads the message from a terminal. *)
Fixpoint ttyBody `{Sys} (cfg : mg.Config) (failure : option string)
    (d : Draft) (lines : list string) : Proc Draft :=
  match lines with
  | [] =>
      match failure with
      | None => ret (readTo [] d)
      | Some e => mg.Die cfg ("reading message: " +:+ e)
      end
  | line :: rest =>
      if (len line =? 2) && Ascii.eqb (at_ line 0) "." && Ascii.eqb (at_ line 1) LF
      then ret (readTo rest d)
      else ttyBody cfg failure (writeBody line (readTo rest d)) rest
  end.

(** The reading of the message once the loop under [tflag] is over:
    up to a line with only a dot on a terminal, up to the end otherwise. *)
Definition readBody `{Sys} (cfg : mg.Config) (failure : option string) (d : Draft)
    : Proc Draft :=
  if mg.IsTTY cfg then
    let* d := ttyBody cfg failure d (unread d) in
    emit (Stderr ("EOT" +:+ nl)) >>
    ret d
  else
    match failure with
    | None => ret (readTo [] (writeBody (sconcat (unread d)) d))
    | Some e => mg.Die cfg ("reading message: " +:+ e)
    end.

(** Lines 469 to 539 of [main]: the fields taken from the input under
    [-t], then the body, unless the loop went to [Send]. *)
Definition ingest `{mail.Lib} `{Sys} (cfg : mg.Config) (tflag_ : bool)
    (failure : option string) (d : Draft) : Proc Draft :=
  let* (d, send) :=
    (if tflag_ then harvest cfg failure d (unread d) else ret (d, false)) in
  if send then ret d else readBody cfg failure d.

(** The loop over [flag.Args()]. *)
Fixpoint setTo `{mail.Lib} `{Sys} (cfg : mg.Config) (to : list mail.Address)
    (l : list string) : Proc (list mail.Address) :=
  match l with
  | [] => ret to
  | arg :: rest =>
      match mg.AddrListFlag_Set to arg with
      | Err e => mg.Die cfg ("cannot parse To: address: " +:+ e)
      | Ok to' => setTo cfg to' rest
      end
  end.

Definition printList `{mail.Lib} (x : list mail.Address) : string :=
  Join (map mail.String_ x) ", ".

(** What [-v] prints before the message is sent. *)
Definition verbose `{mail.Lib} (msg : mg.Message) : Proc unit :=
  emit (Stderr ("from: " +:+ mail.String_ (mg.From msg) +:+ nl)) >>
  emit (Stderr ("to: " +:+ printList (mg.To msg) +:+ nl)) >>
  emit (Stderr ("cc: " +:+ printList (mg.CC msg) +:+ nl)) >>
  emit (Stderr ("bcc: " +:+ printList (mg.BCC msg) +:+ nl)) >>
  emit (Stderr ("subject: " +:+ mg.Subject msg +:+ nl)) >>
  emit (Stderr ("body: " +:+ itoa (len (mg.Body msg)) +:+ " bytes" +:+ nl)) >>
  (if (0 <? length (mg.Attachments msg))%nat then
     emit (Stderr ("attachments:" +:+ nl)) >>
     (map (fun a => Stderr (String TAB a +:+ nl)) (mg.Attachments msg), Ret tt)
   else ret tt).

(** [main]; the result is [None] when it returns without sending. *)
Definition main `{mail.Lib} `{Sys} (cfg0 : mg.Config) (fl : Flags) (stdin : Input)
    : Proc (option mg.countingReader) :=
  let cfg := mg.mkConfig (mg.IsTTY cfg0) (mg.Domain cfg0) (mg.APIKey cfg0) (mg.User cfg0)
               (vflag fl) (dflag fl) (nflag fl) (mg.Prog cfg0) (mg.Argv cfg0) in
  if (length (args fl) =? 0)%nat && negb (tflag fl) then
    mg.Die cfg "mail reading is not supported"
  else
    let* to0 := setTo cfg [] (args fl) in
    let* from :=
      match last (rflag fl) with
      | Some r =>
          match mg.ParseAddress r with
          | Err e => mg.Die cfg ("cannot parse From: address: " +:+ e)
          | Ok a => ret a
          end
      | None =>
          if String.eqb (mg.User cfg) "" then
            mg.Die cfg "cannot determine From address: -r not used, and $USER not set"
          else ret (mail.mkAddress "" (mg.User cfg))
      end in
    let lines := readLines (data stdin) in
    (* the subject: from -s, or asked for on a terminal *)
    let* start :=
      match last (sflag fl) with
      | Some s => ret (Some (s, lines))
      | None =>
          if mg.IsTTY cfg then
            emit (Stderr "Subject: ") >>
            match lines with
            | [] =>
                match failure stdin with
                | None => mg.Logf cfg "no subject, no text, not sending" >> ret None
                | Some e => mg.Die cfg ("reading subject: " +:+ e)
                end
            | line :: rest => ret (Some (TrimSuffix line nl, rest))
            end
          else ret (Some ("", lines))
      end in
    match start with
    | None => ret None
    | Some (subject0, lines) =>
        let* d := ingest cfg (tflag fl) (failure stdin)
                    (mkDraft to0 (ccflag fl) (bccflag fl) subject0 "" lines) in
        let msg := mg.mkMessage from (to d) (cc d) (bcc d) (subject d) (body d) (aflag fl) in
        (if vflag fl then verbose msg else ret tt) >>
        let* cr := mg.Mail cfg msg in
        ret (Some cr)
    end.

End mailgun_mail.

(** ** A small concrete world

    Stand-ins for net/mail and for the surroundings, used to run the
    program on examples: a reader of messages that takes every line up to
    the first empty one as [key: value], an address list of one address,
    and a network that answers every request with [answer]. *)

Module Example.
Import GoStr bufio.

Fixpoint readHeader (lines : list string) (h : mail.Header)
    : result (mail.Header * list string) :=
  match lines with
  | [] => Err "EOF"
  | line :: rest =>
      if String.eqb line nl then Ok (h, rest)
      else
        let i := IndexByte line ":" in
        if i <? 0 then Err ("malformed MIME header line: " +:+ line)
        else
          let k := slice line 0 i in
          let v := TrimSpace (slice line (i + 1) (len line)) in
          readHeader rest (<[k := default [] (h !! k) ++ [v]]> h)
  end.

Definition net_mail : mail.Lib := {|
  mail.ParseAddress s :=
    if Contains s "@" then Ok (mail.mkAddress "" s)
    else Err "mail: missing '@' or angle-addr";
  mail.ParseAddressList s :=
    if Contains s "@" then Ok [mail.mkAddress "" s]
    else Err "mail: missing '@' or angle-addr";
  mail.ReadMessage text :=
    match readHeader (readLines text) ∅ with
    | Ok (h, rest) => Ok (mail.mkMessage h (sconcat rest))
    | Err e => Err e
    end;
  mail.String_ a :=
    if String.eqb (mail.Name a) "" then "<" +:+ mail.Addr a +:+ ">"
    else String DQUOTE (mail.Name a) +:+ String DQUOTE " <" +:+ mail.Addr a +:+ ">"
|}.

Definition formatPart (p : multipart.Part) : string :=
  match p with
  | multipart.Field name value => name +:+ "=" +:+ value +:+ nl
  | multipart.FormFile name file content => name +:+ "=@" +:+ file +:+ nl +:+ content
  end.

Definition world (answer : result http.Response) : Sys := {|
  filepath_Base s := s;
  os_Open _ := OpenFailed "no such file or directory";
  strconv_Quote s := String DQUOTE s +:+ String DQUOTE "";
  http_NewRequest_error _ := None;
  http_Do _ := answer;
  httputil_DumpRequest req := http.ReqBody req;
  httputil_DumpResponse resp := http.RespBody resp;
  multipart_FormDataContentType := "multipart/form-data; boundary=x";
  multipart_chunks parts := map formatPart parts;
  json_Error e :=
    match e with
    | json.SyntaxError _ context _ => context
    | json.UnmarshalTypeError v _ => "json: cannot unmarshal " +:+ v
    end;
  json_Compact s := s
|}.

Definition config (tty debug disable : bool) : mg.Config :=
  mg.mkConfig tty "example.com" "key-0123" "alice" false debug disable "mailgun" [].

End Example.

(** ** Package mg at start-up: the terminal test and the API key *)

Module mg_init.
Import GoStr.

(** The bits of [os.FileMode] that [isTTY] looks at:
    [ModeDevice] is [1 << 26] and [ModeCharDevice] is [1 << 21]. *)
Definition ModeDevice : Z := Z.shiftl 1 26.
Definition ModeCharDevice : Z := Z.shiftl 1 21.

(** [isTTY]; [stat] is the result of [os.Stdin.Stat()], reduced to the
    mode of the file. *)
Definition isTTY (stat : result Z) : bool :=
  match stat with
  | Err _ => false
  | Ok mode =>
      Z.land mode (Z.lor ModeDevice ModeCharDevice) =? Z.lor ModeDevice ModeCharDevice
  end.

(** [strings.Fields]: the maximal runs of bytes between white space
    ([unicode.IsSpace], as in [TrimSpace]).  [cur] is the field being
    read. *)
Definition flush (cur : option string) : list string :=
  match cur with
  | Some w => [w]
  | None => []
  end.

Definition push (a : ascii) (cur : option string) : option string :=
  Some (match cur with
        | Some w => w +:+ String a ""
        | None => String a ""
        end).

Fixpoint fields_go (cur : option string) (s : string) : list string :=
  match s with
  | EmptyString => flush cur
  | String a r1 =>
      if asciiSpace a then flush cur ++ fields_go None r1
      else match r1 with
           | String b r2 =>
               if space2 a b then flush cur ++ fields_go None r2
               else match r2 with
                    | String c r3 =>
                        if space3 a b c then flush cur ++ fields_go None r3
                        else fields_go (push a cur) r1
                    | EmptyString => fields_go (push a cur) r1
                    end
           | EmptyString => fields_go (push a cur) r1
           end
  end.

(** The field being read after the bytes of [w] have been added to it. *)
Definition extend (cur : option string) (w : string) : option string :=
  match w with
  | EmptyString => cur
  | _ => Some (match cur with Some c => c +:+ w | None => w end)
  end.

Definition Fields (s : string) : list string := fields_go None s.

(** The six white space characters of ASCII: tab, line feed, vertical
    tab, form feed, carriage return and space. *)
Definition asciiWhite : string :=
  String TAB (String LF (String "011" (String "012" (String CR (String SP ""))))).

(** A field as [strings.Fields] returns them: not empty, and without
    ASCII white space. *)
Definition clean (f : string) : Prop := f <> "" /\ ContainsAny f asciiWhite = false.

(** Strings of ASCII bytes other than white space, and strings of ASCII
    white space. *)
Definition plainByte (c : ascii) : bool :=
  negb (asciiSpace c) && (nat_of_ascii c <? 128)%nat.

Fixpoint plain (s : string) : bool :=
  match s with
  | EmptyString => true
  | String a r => plainByte a && plain r
  end.

Fixpoint blank (s : string) : bool :=
  match s with
  | EmptyString => true
  | String a r => asciiSpace a && blank r
  end.

(** [strings.TrimPrefix]. *)
Definition TrimPrefix (s p : string) : string :=
  if HasPrefix s p then slice s (len p) (len s) else s.

(** [parseKey]: the package variables [Domain] and [APIKey] are set from
    the two fields of the key. *)
Definition setKey (cfg : mg.Config) (domain key : string) : mg.Config :=
  mg.mkConfig (mg.IsTTY cfg) domain key (mg.User cfg) (mg.Verbose cfg)
    (mg.DebugHTTP cfg) (mg.DisableMail cfg) (mg.Prog cfg) (mg.Argv cfg).

Definition parseKey `{Sys} (cfg : mg.Config) (src key : string) : Proc mg.Config :=
  match Fields key with
  | [f0; f1] =>
      if negb (Contains f0 ".") || negb (HasPrefix f1 "api:key-") then
        mg.Die cfg ("malformed mailgun API key in " +:+ src)
      else ret (setKey cfg f0 (TrimPrefix f1 "api:"))
  | _ => mg.Die cfg ("malformed mailgun API key in " +:+ src)
  end.

(** The environment and the files that [readConfig] reads. *)
Class OS : Type := {
  Getenv : string -> string;
  ReadFile : string -> result string
}.

Definition readConfig `{Sys} `{OS} (cfg : mg.Config) : Proc mg.Config :=
  let key := Getenv "MAILGUNKEY" in
  if negb (String.eqb key "") then parseKey cfg "$MAILGUNKEY" key
  else
    let file := Getenv "HOME" +:+ "/.mailgun.key" in
    match ReadFile file with
    | Ok data => parseKey cfg file data
    | Err _ =>
        let file := "/etc/mailgun.key" in
        match ReadFile file with
        | Ok data => parseKey cfg file data
        | Err e => mg.Die cfg e
        end
    end.

(** A host for examples: the variable MAILGUNKEY, the home directory
    [/home/alice], and the two key files. *)
Definition host (key : string) (homeKey etcKey : result string) : OS := {|
  Getenv v :=
    if String.eqb v "MAILGUNKEY" then key
    else if String.eqb v "HOME" then "/home/alice" else "";
  ReadFile f :=
    if String.eqb f "/home/alice/.mailgun.key" then homeKey
    else if String.eqb f "/etc/mailgun.key" then etcKey
    else Err ("open " +:+ f +:+ ": no such file or directory")
|}.

End mg_init.

(** ** The part of an attachment *)

Module mg_attach.

(** What [Mail] writes for a file that can be read. *)
Definition attached `{Sys} (file : string) (p : multipart.Part) : Prop :=
  exists data, os_Open file = Contents data /\
               p = multipart.FormFile "attachment" (filepath_Base file) data.

End mg_attach.

(** ** Settings and recipients of mailgun-sendmail *)

Module sendmail_settings.
Import GoStr.

(** The package variables with [DebugHTTP] and [DisableMail] set to
    [http] and [nosend]. *)
Definition setDebug (cfg : mg.Config) (http nosend : bool) : mg.Config :=
  mg.mkConfig (mg.IsTTY cfg) (mg.Domain cfg) (mg.APIKey cfg) (mg.User cfg)
    (mg.Verbose cfg) http nosend (mg.Prog cfg) (mg.Argv cfg).

(** Whether [v] is among the values given with [-d]. *)
Definition given (v : string) (values : list string) : bool :=
  existsb (String.eqb v) values.

(** The addresses that the loop under [-t] takes from the field [key]:
    none when the field is absent or has no value, else the list that
    [Header.AddressList] returns. *)
Definition taken `{mail.Lib} (h : mail.Header) (key : string)
    (addrs : list mail.Address) : Prop :=
  if (length (default [] (h !! key)) =? 0)%nat then addrs = []
  else mail.AddressList h key = Ok addrs.

End sendmail_settings.

(** ** Messages whose header ends with an empty line *)

Module framing.
Import GoStr bufio mailgun_sendmail.

(** Whether the first line that ends the header, if there is one, is
    an empty line: [msgCopy] then inserts nothing. *)
Fixpoint blankEndsHeader (lines : list string) : bool :=
  match lines with
  | [] => true
  | line :: rest =>
      if endsHeader line then Ascii.eqb (at_ line 0) LF else blankEndsHeader rest
  end.

(** The text with a line feed added unless it is empty or ends with
    one. *)
Definition terminated (s : string) : string :=
  match s with
  | EmptyString => ""
  | _ => written s
  end.

End framing.

(** ** The requests of a run *)

Module traces.

Definition request (e : event) : list http.Request :=
  match e with
  | HttpDo req => [req]
  | _ => []
  end.

(** The requests handed to [http.DefaultClient.Do] in a trace, in
    order. *)
Definition requests (tr : list event) : list http.Request := flat_map request tr.

(** A run that hands no request to the client. *)
Definition quiet {A} (p : Proc A) : Prop := requests (fst p) = [].

(** A request to the endpoint [endpoint] of the Mailgun API for the
    domain and with the key of [cfg]. *)
Definition toMailgun (cfg : mg.Config) (endpoint : string) (req : http.Request) : Prop :=
  http.Method req = "POST"
  /\ http.URL req = "https://api.mailgun.net/v3/" +:+ mg.Domain cfg +:+ "/" +:+ endpoint
  /\ http.AuthUser req = "api"
  /\ http.AuthPassword req = mg.APIKey cfg.

(** A run that ends by returning or by [os.Exit(2)], not by a run-time
    panic. *)
Definition orderly {A} (p : Proc A) : Prop :=
  match snd p with
  | Ret _ => True
  | Exit code => code = 2
  | Panic _ => False
  end.

(** The two events that [Die] leaves at the end of a trace. *)
Definition died `{Sys} (cfg : mg.Config) (err : string) : list event :=
  [LogPrintf (LogDie (mg.User cfg) (mg.Args cfg) err);
   Stderr (filepath_Base (mg.Prog cfg) +:+ ": " +:+ err +:+ GoStr.nl)].

Definition sentRecord (e : event) : bool :=
  match e with
  | LogPrintf (LogSent _ _ _ _ _ _) => true
  | _ => false
  end.

End traces.
(** * Properties *)

(** ** Byte strings *)

Section GoStrFacts.
Import GoStr.

Lemma len_app (s t : string) : len (s +:+ t) = len s + len t.
Proof.
  unfold len. induction s as [|a s IH]; simpl String.length.
  - reflexivity.
  - change (String a s +:+ t) with (String a (s +:+ t)). simpl String.length. lia.
Qed.

Lemma len_nonneg (s : string) : 0 <= len s.
Proof. unfold len. lia. Qed.

Lemma substring_all (s : string) : String.substring 0 (String.length s) s = s.
Proof. induction s as [|a s IH]; simpl; [reflexivity | now rewrite IH]. Qed.

Lemma substring_app_l (s t : string) :
  String.substring 0 (String.length s) (s +:+ t) = s.
Proof.
  induction s as [|a s IH].
  - destruct t; reflexivity.
  - change (String a s +:+ t) with (String a (s +:+ t)). simpl. now rewrite IH.
Qed.

Lemma substring_app_r (s t : string) (n : nat) :
  String.substring (String.length s) n (s +:+ t) = String.substring 0 n t.
Proof.
  induction s as [|a s IH].
  - reflexivity.
  - change (String a s +:+ t) with (String a (s +:+ t)). simpl. apply IH.
Qed.

Lemma hasByte_app (s t : string) (c : ascii) :
  hasByte (s +:+ t) c = hasByte s c || hasByte t c.
Proof.
  induction s as [|a s IH].
  - reflexivity.
  - change (String a s +:+ t) with (String a (s +:+ t)). simpl.
    rewrite IH. now rewrite orb_assoc.
Qed.

Lemma LastIndexByte_none (s : string) (c : ascii) :
  hasByte s c = false -> LastIndexByte s c = -1.
Proof.
  induction s as [|a s IH]; simpl; [reflexivity|].
  intros [Ha Hs]%orb_false_iff. rewrite (IH Hs), Ha. reflexivity.
Qed.

Lemma LastIndexByte_last (pre rest : string) (c : ascii) :
  hasByte rest c = false ->
  LastIndexByte (pre +:+ String c rest) c = len pre.
Proof.
  intros Hrest. induction pre as [|a pre IH].
  - change ("" +:+ String c rest) with (String c rest). simpl.
    rewrite (LastIndexByte_none _ _ Hrest). simpl.
    now rewrite Ascii.eqb_refl.
  - change (String a pre +:+ String c rest) with (String a (pre +:+ String c rest)).
    simpl LastIndexByte. rewrite IH.
    pose proof (len_nonneg pre) as Hp.
    destruct (0 <=? len pre) eqn:E; [|apply Z.leb_gt in E; lia].
    unfold len. simpl String.length. lia.
Qed.

Lemma IndexByte_bounds (s : string) (c : ascii) :
  -1 <= IndexByte s c < len s.
Proof.
  unfold len. induction s as [|a s IH]; simpl String.length; simpl IndexByte; [lia|].
  destruct (Ascii.eqb a c); [lia|].
  destruct (IndexByte s c <? 0) eqn:E; [lia|]. apply Z.ltb_ge in E. lia.
Qed.

Lemma ContainsAny_app_r (s t chars : string) :
  ContainsAny t chars = true -> ContainsAny (s +:+ t) chars = true.
Proof.
  intros Ht. induction s as [|a s IH]; [exact Ht|].
  change (String a s +:+ t) with (String a (s +:+ t)). simpl.
  rewrite IH. apply orb_true_r.
Qed.

Lemma Contains_app_r (s t sub : string) :
  Contains t sub = true -> Contains (s +:+ t) sub = true.
Proof.
  intros Ht. induction s as [|a s IH]; [exact Ht|].
  change (String a s +:+ t) with (String a (s +:+ t)). simpl.
  rewrite IH. apply orb_true_r.
Qed.

Lemma HasSuffix_app (s suf : string) : HasSuffix (s +:+ suf) suf = true.
Proof.
  unfold HasSuffix, slice. rewrite len_app.
  pose proof (len_nonneg s). pose proof (len_nonneg suf).
  replace (len s + len suf - len suf) with (len s) by lia.
  replace (len s + len suf - len s) with (len suf) by lia.
  unfold len. rewrite !Nat2Z.id, substring_app_r, substring_all, String.eqb_refl.
  apply andb_true_iff. split; [apply Z.leb_le; lia | reflexivity].
Qed.

End GoStrFacts.

Section GoStrSplit.
Import GoStr.

Lemma sapp_cons (a : ascii) (s t : string) : String a s +:+ t = String a (s +:+ t).
Proof. reflexivity. Qed.

Lemma sapp_nil_l (t : string) : "" +:+ t = t.
Proof. reflexivity. Qed.

Lemma sapp_assoc (s t u : string) : (s +:+ t) +:+ u = s +:+ (t +:+ u).
Proof. induction s as [|a s IH]; [reflexivity|]. rewrite !sapp_cons. now rewrite IH. Qed.

Lemma substring_split (s : string) (n : nat) :
  (n <= String.length s)%nat ->
  s = String.substring 0 n s +:+ String.substring n (String.length s - n) s.
Proof.
  revert n. induction s as [|a s IH]; intros [|n] Hn; simpl in *; try lia.
  - reflexivity.
  - rewrite sapp_nil_l. now rewrite substring_all.
  - rewrite sapp_cons. f_equal. apply IH. lia.
Qed.

Lemma HasSuffix_inv (s suf : string) :
  HasSuffix s suf = true -> exists s0, s = s0 +:+ suf.
Proof.
  unfold HasSuffix, slice, len.
  intros [Hle Heq]%andb_true_iff. apply Z.leb_le in Hle. apply String.eqb_eq in Heq.
  exists (String.substring 0 (String.length s - String.length suf) s).
  rewrite (substring_split s (String.length s - String.length suf)) at 1 by lia.
  f_equal. rewrite <- Heq at 3. f_equal; lia.
Qed.

Lemma split_last_byte (s : string) (c : ascii) :
  hasByte s c = true ->
  exists pre rest, s = pre +:+ String c rest /\ hasByte rest c = false.
Proof.
  induction s as [|a s IH]; simpl; [discriminate|].
  destruct (hasByte s c) eqn:Hs.
  - intros _. destruct (IH eq_refl) as (pre & rest & -> & Hr).
    exists (String a pre), rest. now rewrite sapp_cons.
  - rewrite orb_false_r. intros ->%Ascii.eqb_eq. exists "", s. now rewrite sapp_nil_l.
Qed.

Lemma app_snoc_inv (x y s0 : string) (d : ascii) :
  x +:+ y = s0 +:+ String d "" -> y <> "" -> exists y0, y = y0 +:+ String d "".
Proof.
  revert s0. induction x as [|a x IH]; intros s0 Heq Hy.
  - rewrite sapp_nil_l in Heq. now exists s0.
  - destruct s0 as [|a' s0].
    + rewrite sapp_cons, sapp_nil_l in Heq. injection Heq as _ Heq.
      destruct x; [rewrite sapp_nil_l in Heq; contradiction | discriminate].
    + rewrite !sapp_cons in Heq. injection Heq as _ Heq. now apply (IH s0).
Qed.

(** A string that ends with [>] and contains [<] is some text, the last
    [<], a part without [<], and the final [>]. *)
Lemma angle_form (addr : string) :
  HasSuffix addr ">" = true -> hasByte addr "<"%char = true ->
  exists pre inner,
    addr = pre +:+ String "<" (inner +:+ ">") /\ hasByte inner "<"%char = false.
Proof.
  intros Hsuf Hlt.
  destruct (split_last_byte _ _ Hlt) as (pre & rest & -> & Hrest).
  destruct (HasSuffix_inv _ _ Hsuf) as [s0 Hs0].
  destruct (app_snoc_inv _ _ _ _ Hs0) as [y0 Hy0]; [discriminate|].
  destruct y0 as [|b y0].
  - rewrite sapp_nil_l in Hy0. discriminate.
  - rewrite sapp_cons in Hy0. injection Hy0 as Hb Hr. subst b rest.
    exists pre, y0. split; [reflexivity|].
    rewrite hasByte_app in Hrest. apply orb_false_elim in Hrest. tauto.
Qed.

End GoStrSplit.

(** ** ParseAddress *)

Section ParseAddressFacts.
Import GoStr.
Context `{L : mail.Lib}.

Lemma ParseAddress_angle_at (pre inner : string) :
  hasByte inner "<"%char = false ->
  HasPrefix (pre +:+ String "<" (inner +:+ ">")) (String DQUOTE "") = false ->
  mg.ParseAddress (pre +:+ String "<" (inner +:+ ">")) =
    Ok (mail.mkAddress (TrimSpace pre) (String "<" inner)).
Proof.
  intros Hin Hq. unfold mg.ParseAddress.
  rewrite ContainsAny_app_r by reflexivity. simpl negb. cbv iota.
  assert (Hsuf : HasSuffix (pre +:+ String "<" (inner +:+ ">")) ">" = true).
  { change (String "<" (inner +:+ ">")) with (String "<" inner +:+ ">").
    rewrite <- sapp_assoc. apply HasSuffix_app. }
  rewrite Hsuf, Hq. simpl andb. cbv iota.
  rewrite LastIndexByte_last.
  2:{ rewrite hasByte_app, Hin. reflexivity. }
  pose proof (len_nonneg pre) as Hp.
  destruct (0 <=? len pre) eqn:E; [|apply Z.leb_gt in E; lia].
  assert (H1 : slice (pre +:+ String "<" (inner +:+ ">")) 0 (len pre) = pre).
  { unfold slice, len. rewrite Z.sub_0_r, Nat2Z.id. apply substring_app_l. }
  assert (H2 : slice (pre +:+ String "<" (inner +:+ ">")) (len pre)
                 (len (pre +:+ String "<" (inner +:+ ">")) - 1) = String "<" inner).
  { unfold slice. rewrite len_app.
    change (len (String "<" (inner +:+ ">")))
      with (Z.of_nat (S (String.length (inner +:+ ">")))).
    replace (String.length (inner +:+ ">")) with (S (String.length inner)).
    2:{ pose proof (len_app inner ">") as Hl. unfold len in Hl. simpl in Hl. lia. }
    replace (Z.to_nat (len pre + Z.of_nat (S (S (String.length inner))) - 1 - len pre))
      with (S (String.length inner)) by lia.
    unfold len. rewrite Nat2Z.id, substring_app_r. simpl. f_equal.
    apply substring_app_l. }
  now rewrite H1, H2.
Qed.

(** C3.  For every input that ends with [>], does not start with a double
    quote and contains [<], [ParseAddress] succeeds; the display name is
    the text before the last [<] with white space trimmed; the mailbox is
    the text from that [<] up to the final [>], and it keeps the opening
    angle bracket: it is [<inner], not [inner]. *)
Theorem ParseAddress_angle_keeps_bracket (addr : string) :
  HasSuffix addr ">" = true ->
  HasPrefix addr (String DQUOTE "") = false ->
  hasByte addr "<"%char = true ->
  exists pre inner,
    addr = pre +:+ String "<" (inner +:+ ">") /\
    hasByte inner "<"%char = false /\
    mg.ParseAddress addr = Ok (mail.mkAddress (TrimSpace pre) (String "<" inner)).
Proof.
  intros Hsuf Hq Hlt.
  destruct (angle_form addr Hsuf Hlt) as (pre & inner & -> & Hin).
  exists pre, inner. repeat split; [assumption|].
  now apply ParseAddress_angle_at.
Qed.

(** C10.  The empty string has none of the special characters, so it
    takes the bare-mailbox branch whatever the library parser would do:
    the parser succeeds with an empty display name and an empty
    mailbox. *)
Theorem ParseAddress_empty :
  ContainsAny "" mg.specials = false
  /\ mg.ParseAddress "" = Ok (mail.mkAddress "" "").
Proof. split; reflexivity. Qed.

(** The slice bounds of the angle branch are always legal. *)
Lemma ParseAddress_slice_bounds (addr : string) :
  HasSuffix addr ">" = true -> 0 <= LastIndexByte addr "<"%char ->
  LastIndexByte addr "<"%char <= len addr - 1.
Proof.
  intros Hsuf Hi.
  assert (Hlt : hasByte addr "<"%char = true).
  { destruct (hasByte addr "<"%char) eqn:E; [reflexivity|].
    rewrite (LastIndexByte_none _ _ E) in Hi. lia. }
  destruct (angle_form addr Hsuf Hlt) as (pre & inner & -> & Hin).
  rewrite LastIndexByte_last by (rewrite hasByte_app, Hin; reflexivity).
  rewrite len_app.
  change (String "<" (inner +:+ ">")) with ("<" +:+ (inner +:+ ">")).
  rewrite (len_app "<" (inner +:+ ">")).
  pose proof (len_nonneg (inner +:+ ">")). change (len "<") with 1. lia.
Qed.

End ParseAddressFacts.

(** The angle-bracket branch on the form of the comment in the source. *)
Lemma ParseAddress_angle_keeps_bracket_witness :
  GoStr.HasSuffix "Foo (Bar) <baz@quux.com>" ">" = true /\
  GoStr.HasPrefix "Foo (Bar) <baz@quux.com>" (String GoStr.DQUOTE "") = false /\
  GoStr.hasByte "Foo (Bar) <baz@quux.com>" "<"%char = true /\
  exists pre inner,
    "Foo (Bar) <baz@quux.com>" = pre +:+ String "<" (inner +:+ ">") /\
    GoStr.hasByte inner "<"%char = false /\
    @mg.ParseAddress Example.net_mail "Foo (Bar) <baz@quux.com>" =
      Ok (mail.mkAddress (GoStr.TrimSpace pre) (String "<" inner)).
Proof.
  repeat split; try reflexivity.
  apply (@ParseAddress_angle_keeps_bracket Example.net_mail "Foo (Bar) <baz@quux.com>");
    reflexivity.
Defined.

Example ParseAddress_comment_form :
  @mg.ParseAddress Example.net_mail "Foo (Bar) <baz@quux.com>" =
    Ok (mail.mkAddress "Foo (Bar)" "<baz@quux.com").
Proof. reflexivity. Qed.

(** ** FixLocalAddr *)

Section FixLocalAddrFacts.
Import GoStr.

Lemma Contains_at_suffix (s domain : string) :
  Contains (s +:+ "@" +:+ domain) "@" = true.
Proof. apply Contains_app_r. destruct domain; reflexivity. Qed.

Lemma FixLocalAddr_qualified (domain : string) (a : mail.Address) :
  Contains (mail.Addr a) "@" = true -> mg.FixLocalAddr domain a = a.
Proof. intros E. unfold mg.FixLocalAddr. rewrite E. reflexivity. Qed.

Lemma FixLocalAddr_local (domain : string) (a : mail.Address) :
  Contains (mail.Addr a) "@" = false ->
  mg.FixLocalAddr domain a = mail.mkAddress (mail.Name a) (mail.Addr a +:+ "@" +:+ domain).
Proof. intros E. unfold mg.FixLocalAddr. rewrite E. reflexivity. Qed.

Lemma FixLocalAddr_idempotent (domain : string) (a : mail.Address) :
  mg.FixLocalAddr domain (mg.FixLocalAddr domain a) = mg.FixLocalAddr domain a.
Proof.
  destruct (Contains (mail.Addr a) "@") eqn:E.
  - rewrite (FixLocalAddr_qualified domain a E). now apply FixLocalAddr_qualified.
  - rewrite (FixLocalAddr_local domain a E). apply FixLocalAddr_qualified.
    apply Contains_at_suffix.
Qed.

(** C4, as the code has it.  For an address whose mailbox lacks [@], one
    application appends [@domain] once and keeps the display name; a
    second application finds the [@] and changes nothing. *)
Theorem FixLocalAddr_once_then_unchanged (domain : string) (a : mail.Address) :
  Contains (mail.Addr a) "@" = false ->
  mail.Addr (mg.FixLocalAddr domain a) = mail.Addr a +:+ "@" +:+ domain /\
  mail.Name (mg.FixLocalAddr domain a) = mail.Name a /\
  mg.FixLocalAddr domain (mg.FixLocalAddr domain a) = mg.FixLocalAddr domain a.
Proof.
  intros E. split; [|split].
  - now rewrite (FixLocalAddr_local domain a E).
  - now rewrite (FixLocalAddr_local domain a E).
  - apply FixLocalAddr_idempotent.
Qed.

End FixLocalAddrFacts.

Lemma FixLocalAddr_once_then_unchanged_witness :
  GoStr.Contains (mail.Addr (mail.mkAddress "" "bob")) "@" = false /\
  mail.Addr (mg.FixLocalAddr "example.com" (mail.mkAddress "" "bob")) = "bob@example.com" /\
  mail.Name (mg.FixLocalAddr "example.com" (mail.mkAddress "" "bob")) = "" /\
  mg.FixLocalAddr "example.com" (mg.FixLocalAddr "example.com" (mail.mkAddress "" "bob"))
    = mg.FixLocalAddr "example.com" (mail.mkAddress "" "bob").
Proof.
  split; [reflexivity|].
  apply (FixLocalAddr_once_then_unchanged "example.com" (mail.mkAddress "" "bob")).
  reflexivity.
Defined.

(** C4 as stated fails: the mailbox bob lacks [@], and the second
    application does not append the suffix again. *)
Lemma FixLocalAddr_twice_not_doubled :
  let a := mail.mkAddress "" "bob" in
  let once := mg.FixLocalAddr "example.com" a in
  let twice := mg.FixLocalAddr "example.com" once in
  GoStr.Contains (mail.Addr a) "@" = false /\
  mail.Addr once = "bob@example.com" /\
  mail.Addr twice = "bob@example.com" /\
  mail.Addr twice <> mail.Addr once +:+ "@example.com".
Proof. repeat split; try reflexivity. discriminate. Qed.

(** ** msgCopy: the header boundary *)

Section MsgCopyFacts.
Import GoStr bufio mailgun_sendmail.

Lemma sapp_nil_r (s : string) : s +:+ "" = s.
Proof. induction s as [|a s IH]; [reflexivity|]. rewrite sapp_cons. now rewrite IH. Qed.

(** While the lines still belong to the header they are copied as they
    are. *)
Lemma msgCopy_loop_header (dots : bool) (pre rest : list string) :
  Forall (fun l => endsHeader l = false /\ dots && dotLine l = false) pre ->
  msgCopy_loop dots true (pre ++ rest) =
    (sconcat (map written pre) +:+ fst (msgCopy_loop dots true rest),
     snd (msgCopy_loop dots true rest)).
Proof.
  induction 1 as [|l pre [Hh Hd] _ IH]; simpl.
  - rewrite sapp_nil_l. now destruct (msgCopy_loop dots true rest).
  - rewrite Hd, Hh. simpl. rewrite IH. simpl.
    rewrite sapp_nil_l. now rewrite !sapp_assoc.
Qed.

(** Once in the body, lines are copied as they are and nothing is
    inserted. *)
Lemma msgCopy_loop_body (dots : bool) (lines : list string) :
  Forall (fun l => dots && dotLine l = false) lines ->
  msgCopy_loop dots false lines = (sconcat (map written lines), None).
Proof.
  induction 1 as [|l lines Hd _ IH]; simpl; [reflexivity|].
  rewrite Hd, IH. simpl. now rewrite sapp_nil_l.
Qed.

(** C7.  Reading in header mode, with [pre] the lines that start with a
    space or a tab or contain a colon and [line] the first that does
    neither (none of them the dot that ends the input of a terminal):
    the lines of [pre] are written unchanged, then an empty line if
    [line] is not itself empty, then [line], and the rest is copied in
    body mode.  When [pre] is empty the output begins with that empty
    line: the header block is empty. *)
Theorem msgCopy_boundary_blank_line (dots : bool) (pre : list string) (line : string)
    (rest : list string) :
  Forall (fun l => endsHeader l = false /\ dots && dotLine l = false) pre ->
  endsHeader line = true ->
  dots && dotLine line = false ->
  msgCopy_loop dots true (pre ++ line :: rest) =
    (sconcat (map written pre)
     +:+ (if Ascii.eqb (at_ line 0) LF then "" else nl)
     +:+ written line
     +:+ fst (msgCopy_loop dots false rest),
     snd (msgCopy_loop dots false rest))
  /\ (pre = [] -> Ascii.eqb (at_ line 0) LF = false ->
      fst (msgCopy_loop dots true (pre ++ line :: rest)) =
        nl +:+ written line +:+ fst (msgCopy_loop dots false rest)).
Proof.
  intros Hpre Hline Hdot.
  assert (Hstep : msgCopy_loop dots true (line :: rest) =
                    ((if Ascii.eqb (at_ line 0) LF then "" else nl)
                     +:+ written line +:+ fst (msgCopy_loop dots false rest),
                     snd (msgCopy_loop dots false rest))).
  { simpl. rewrite Hdot, Hline. simpl.
    destruct (msgCopy_loop dots false rest) as [out unread]. simpl.
    destruct (Ascii.eqb (at_ line 0) LF); reflexivity. }
  split.
  - rewrite (msgCopy_loop_header dots pre (line :: rest) Hpre), Hstep. reflexivity.
  - intros -> Hnb. simpl app. rewrite Hstep, Hnb. reflexivity.
Qed.

End MsgCopyFacts.

Lemma msgCopy_boundary_blank_line_witness :
  let pre := ["To: a@example.org" +:+ GoStr.nl] in
  let line := "hello world" +:+ GoStr.nl in
  let rest := ["." +:+ GoStr.nl; "never read" +:+ GoStr.nl] in
  Forall (fun l => mailgun_sendmail.endsHeader l = false /\
                   true && mailgun_sendmail.dotLine l = false) pre /\
  mailgun_sendmail.endsHeader line = true /\
  true && mailgun_sendmail.dotLine line = false /\
  mailgun_sendmail.msgCopy_loop true true (pre ++ line :: rest) =
    ("To: a@example.org" +:+ GoStr.nl +:+ GoStr.nl +:+ "hello world" +:+ GoStr.nl,
     Some ["never read" +:+ GoStr.nl]).
Proof.
  assert (H1 : Forall (fun l => mailgun_sendmail.endsHeader l = false /\
                                true && mailgun_sendmail.dotLine l = false)
                 ["To: a@example.org" +:+ GoStr.nl]) by (repeat constructor).
  cbv zeta. split; [exact H1|]. split; [reflexivity|]. split; [reflexivity|].
  destruct (msgCopy_boundary_blank_line true ["To: a@example.org" +:+ GoStr.nl]
              ("hello world" +:+ GoStr.nl)
              ["." +:+ GoStr.nl; "never read" +:+ GoStr.nl] H1 eq_refl eq_refl) as [H _].
  rewrite H. reflexivity.
Defined.

(** ** The message ended by a dot on a terminal *)

Section DotTerminated.
Import GoStr bufio.
Context `{L : mail.Lib} `{S : Sys}.

Let subjectLine : string := "Subject: hi" +:+ nl.
Let helloLine : string := "hello" +:+ nl.
Let dot : string := "." +:+ nl.
Let typed : string := subjectLine +:+ nl +:+ helloLine +:+ dot.

(** C6.  Standard input is a terminal that delivers the four lines
    [Subject: hi], an empty line, [hello] and a single dot, followed by
    anything ([more]).  [ReadBytes] yields these four lines first.
    With dots not ignored, [msgCopy] stops at the dot whatever follows
    and however the input ends: it has written the header line
    [Subject: hi], the empty line and the body [hello], and leaves the
    lines of [more] unread.  In mailgun-mail, the loops that take the
    fields from the input ([-t]) and then read the body stop at the dot
    as well: the subject is [hi], no recipient is added, the body is
    [hello] with its line feed, and [more] is left unread. *)
Theorem dot_ends_message (cfg : mg.Config) (fl : mailgun_sendmail.Flags)
    (failure : option string) (more : string)
    (to cc bcc : list mail.Address) (subject0 : string) :
  mg.IsTTY cfg = true ->
  mailgun_sendmail.iflag fl = false ->
  readLines (typed +:+ more) = [subjectLine; nl; helloLine; dot] ++ readLines more
  /\ mailgun_sendmail.msgCopy_loop true true (readLines (typed +:+ more)) =
       (mailgun_sendmail.formatLine ("Subject", "hi") +:+ nl +:+ helloLine,
        Some (readLines more))
  /\ mailgun_sendmail.msgCopy cfg fl (mkInput (typed +:+ more) failure) =
       ret (subjectLine +:+ nl +:+ helloLine)
  /\ mailgun_mail.ingest cfg true failure
       (mailgun_mail.mkDraft to cc bcc subject0 "" (readLines (typed +:+ more))) =
       ([Stderr ("EOT" +:+ nl)],
        Ret (mailgun_mail.mkDraft to cc bcc "hi" helloLine (readLines more))).
Proof.
  intros Htty Hi.
  assert (Hlines : readLines (typed +:+ more)
                   = [subjectLine; nl; helloLine; dot] ++ readLines more) by reflexivity.
  split; [exact Hlines|].
  split; [rewrite Hlines; reflexivity|].
  split.
  - unfold mailgun_sendmail.msgCopy. cbn [bufio.data bufio.failure].
    rewrite Htty, Hi, Hlines. reflexivity.
  - rewrite Hlines.
    assert (Hharvest :
      mailgun_mail.harvest cfg failure
        (mailgun_mail.mkDraft to cc bcc subject0 ""
           ([subjectLine; nl; helloLine; dot] ++ readLines more))
        ([subjectLine; nl; helloLine; dot] ++ readLines more)
      = ret (mailgun_mail.mkDraft to cc bcc "hi" ""
               ([helloLine; dot] ++ readLines more), false)) by reflexivity.
    unfold mailgun_mail.ingest. cbn [mailgun_mail.unread].
    rewrite Hharvest. cbn [ret bind].
    unfold mailgun_mail.readBody. rewrite Htty. reflexivity.
Qed.

End DotTerminated.

(** ** The header block of the relayed message *)

Section HeaderFacts.
Import GoStr mailgun_sendmail.

Lemma sortStrings_perm (keys : list string) : sortStrings keys ≡ₚ keys.
Proof. apply merge_sort_Permutation. Qed.

Lemma sortStrings_sorted (keys : list string) : StronglySorted String.le (sortStrings keys).
Proof. apply StronglySorted_merge_sort; apply _. Qed.

(** Sorting forgets the order in which the keys were collected. *)
Lemma sortStrings_order (keys keys' : list string) :
  keys ≡ₚ keys' -> sortStrings keys = sortStrings keys'.
Proof.
  intros Hp. apply (StronglySorted_unique String.le); try apply sortStrings_sorted.
  now rewrite !sortStrings_perm.
Qed.

Lemma rangeKeys_NoDup (h : mail.Header) : NoDup (rangeKeys h).
Proof. apply NoDup_fst_map_to_list. Qed.

Lemma rangeKeys_elem (h : mail.Header) (k : string) :
  k ∈ rangeKeys h <-> is_Some (h !! k).
Proof.
  unfold rangeKeys. rewrite list_elem_of_fmap. split.
  - intros [[k' v] [-> Hin]]. apply elem_of_map_to_list in Hin. now exists v.
  - intros [v Hv]. exists (k, v). split; [reflexivity|]. now apply elem_of_map_to_list.
Qed.

Lemma valuesOf_app (k : string) (l1 l2 : list (string * string)) :
  valuesOf k (l1 ++ l2) = valuesOf k l1 ++ valuesOf k l2.
Proof.
  induction l1 as [|[k' v] l1 IH]; simpl; [reflexivity|].
  destruct (String.eqb k' k); simpl; now rewrite IH.
Qed.

Lemma valuesOf_same (k : string) (vs : list string) :
  valuesOf k (map (fun v => (k, v)) vs) = vs.
Proof. induction vs as [|v vs IH]; simpl; [reflexivity|]. now rewrite String.eqb_refl, IH. Qed.

Lemma valuesOf_other (k k' : string) (vs : list string) :
  k' <> k -> valuesOf k (map (fun v => (k', v)) vs) = [].
Proof.
  intros Hne. induction vs as [|v vs IH]; simpl; [reflexivity|].
  apply String.eqb_neq in Hne. now rewrite Hne.
Qed.

Lemma valuesOf_absent (vals : string -> list string) (k : string) (ks : list string) :
  k ∉ ks -> valuesOf k (linesOf vals ks) = [].
Proof.
  induction ks as [|k' ks IH]; simpl; [reflexivity|].
  intros Hnin. apply not_elem_of_cons in Hnin as [Hne Hnin].
  rewrite valuesOf_app, valuesOf_other by congruence. now apply IH.
Qed.

Lemma valuesOf_present (vals : string -> list string) (k : string) (ks : list string) :
  NoDup ks -> k ∈ ks -> valuesOf k (linesOf vals ks) = vals k.
Proof.
  induction 1 as [|k' ks Hnin Hnd IH]; simpl.
  - intros Hin. now apply elem_of_nil in Hin.
  - intros Hin. rewrite valuesOf_app. apply elem_of_cons in Hin as [->|Hin].
    + rewrite valuesOf_same, valuesOf_absent by assumption. apply app_nil_r.
    + rewrite valuesOf_other, IH by (try assumption; intros ->; contradiction).
      reflexivity.
Qed.

Lemma linesOf_keys (vals : string -> list string) (ks : list string) (kv : string * string) :
  kv ∈ linesOf vals ks -> fst kv ∈ ks /\ snd kv ∈ vals (fst kv).
Proof.
  induction ks as [|k ks IH]; simpl.
  - intros Hin. now apply elem_of_nil in Hin.
  - intros Hin. apply elem_of_app in Hin as [Hin|Hin].
    + apply list_elem_of_In, in_map_iff in Hin as (v & <- & Hv). simpl.
      split; [apply elem_of_cons; now left | now apply list_elem_of_In].
    + destruct (IH Hin) as [? ?]. split; [apply elem_of_cons; now right | assumption].
Qed.

Lemma linesOf_sorted (vals : string -> list string) (ks : list string) :
  StronglySorted String.le ks ->
  StronglySorted String.le (map fst (linesOf vals ks)).
Proof.
  induction 1 as [|k ks Hs IH Hall]; simpl; [constructor|].
  rewrite map_app. apply StronglySorted_app. split; [|split].
  - intros x1 x2 H1 H2.
    apply list_elem_of_In, in_map_iff in H1 as ([k1 v1] & <- & H1).
    apply in_map_iff in H1 as (v & [= <- <-] & _).
    apply list_elem_of_In, in_map_iff in H2 as (kv & <- & H2).
    apply list_elem_of_In, linesOf_keys in H2 as [H2 _].
    rewrite Forall_forall in Hall. now apply Hall.
  - induction (vals k) as [|v vs IHv]; simpl; constructor; [assumption|].
    apply Forall_forall. intros x Hx.
    apply list_elem_of_In, in_map_iff in Hx as ([k1 v1] & <- & Hx).
    apply in_map_iff in Hx as (v' & [= <- <-] & _). simpl. reflexivity.
  - exact IH.
Qed.

End HeaderFacts.

Section RenderFacts.
Import GoStr bufio mailgun_sendmail.

Lemma headerLines_order (keys : list string) (h : mail.Header) :
  keys ≡ₚ rangeKeys h -> headerLines keys h = headerLines (rangeKeys h) h.
Proof. intros Hp. unfold headerLines. now rewrite (sortStrings_order _ _ Hp). Qed.

Lemma headerLines_values (keys : list string) (h : mail.Header) (k : string) :
  keys ≡ₚ rangeKeys h -> valuesOf k (headerLines keys h) = default [] (h !! k).
Proof.
  intros Hp. unfold headerLines.
  assert (Hs : sortStrings keys ≡ₚ rangeKeys h) by now rewrite sortStrings_perm.
  destruct (h !! k) as [vs|] eqn:Hk.
  - rewrite valuesOf_present.
    + now rewrite Hk.
    + rewrite Hs. apply rangeKeys_NoDup.
    + rewrite Hs. apply rangeKeys_elem. now exists vs.
  - apply valuesOf_absent. rewrite Hs. intros Hin%rangeKeys_elem.
    rewrite Hk in Hin. now destruct Hin.
Qed.

Lemma headerLines_key (keys : list string) (h : mail.Header) (kv : string * string) :
  keys ≡ₚ rangeKeys h -> kv ∈ headerLines keys h ->
  exists vs, h !! fst kv = Some vs /\ snd kv ∈ vs.
Proof.
  intros Hp Hin. apply linesOf_keys in Hin as [Hk Hv].
  rewrite sortStrings_perm, Hp in Hk. apply rangeKeys_elem in Hk as [vs Hvs].
  exists vs. split; [assumption|]. now rewrite Hvs in Hv.
Qed.

Lemma headerLines_sorted (keys : list string) (h : mail.Header) :
  StronglySorted String.le (map fst (headerLines keys h)).
Proof. apply linesOf_sorted, sortStrings_sorted. Qed.

Lemma formatLine_not_blank (kv : string * string) : formatLine kv <> nl.
Proof.
  intros Heq. apply (f_equal len) in Heq. unfold formatLine in Heq.
  rewrite !len_app in Heq. change (len ": ") with 2 in Heq. change (len nl) with 1 in Heq.
  pose proof (len_nonneg (fst kv)). pose proof (len_nonneg (snd kv)). lia.
Qed.

(** A text without line feed, followed by a line feed, is read as one
    line. *)
Lemma readLines_line (x t : string) :
  hasByte x LF = false -> readLines (x +:+ nl +:+ t) = (x +:+ nl) :: readLines t.
Proof.
  induction x as [|a x IH]; intros Hx.
  - reflexivity.
  - simpl in Hx. apply orb_false_elim in Hx as [Ha Hx].
    rewrite !sapp_cons. simpl. rewrite Ha, (IH Hx). reflexivity.
Qed.

Lemma readLines_formatLine (kv : string * string) (t : string) :
  hasByte (fst kv) LF = false -> hasByte (snd kv) LF = false ->
  readLines (formatLine kv +:+ t) = formatLine kv :: readLines t.
Proof.
  intros Hk Hv. unfold formatLine.
  replace ((fst kv +:+ ": " +:+ snd kv +:+ nl) +:+ t)
    with ((fst kv +:+ ": " +:+ snd kv) +:+ nl +:+ t) by now rewrite !sapp_assoc.
  rewrite readLines_line.
  - now rewrite !sapp_assoc.
  - now rewrite !hasByte_app, Hk, Hv.
Qed.

Lemma readLines_block (lines : list (string * string)) (t : string) :
  (forall kv, kv ∈ lines -> hasByte (fst kv) LF = false /\ hasByte (snd kv) LF = false) ->
  readLines (sconcat (map formatLine lines) +:+ t) = map formatLine lines ++ readLines t.
Proof.
  induction lines as [|kv lines IH]; intros Hall; simpl.
  - now rewrite sapp_nil_l.
  - rewrite sapp_assoc.
    destruct (Hall kv) as [Hk Hv]; [apply elem_of_cons; now left|].
    rewrite (readLines_formatLine kv _ Hk Hv), IH; [reflexivity|].
    intros kv' Hin. apply Hall, elem_of_cons. now right.
Qed.

(** C8.  Whatever the order [keys] in which the keys of the header were
    collected: the header lines are those of the sorted keys, so they
    come in increasing order of field name, every field with its values
    in their order; the rendered text is these lines and then one line
    feed, directly followed by the body; no header line is empty; and
    when no name or value holds a line feed, the text read line by line
    is the header lines, a single empty line, and the lines of the
    body. *)
Theorem header_sorted_then_blank_line (h : mail.Header) (keys : list string)
    (body : string) :
  keys ≡ₚ rangeKeys h ->
  headerLines keys h = headerLines (rangeKeys h) h
  /\ StronglySorted String.le (map fst (headerLines keys h))
  /\ (forall k, valuesOf k (headerLines keys h) = default [] (h !! k))
  /\ renderHeader keys h +:+ body
     = sconcat (map formatLine (headerLines keys h)) +:+ nl +:+ body
  /\ Forall (fun kv => formatLine kv <> nl) (headerLines keys h)
  /\ ((forall kv, kv ∈ headerLines keys h ->
         hasByte (fst kv) LF = false /\ hasByte (snd kv) LF = false) ->
      readLines (renderHeader keys h +:+ body)
      = map formatLine (headerLines keys h) ++ nl :: readLines body).
Proof.
  intros Hp. repeat split.
  - now apply headerLines_order.
  - apply headerLines_sorted.
  - intros k. now apply headerLines_values.
  - unfold renderHeader. now rewrite sapp_assoc.
  - apply Forall_forall. intros kv _. apply formatLine_not_blank.
  - intros Hall. unfold renderHeader. rewrite sapp_assoc.
    rewrite (readLines_block _ _ Hall). reflexivity.
Qed.

End RenderFacts.

Section OutgoingHeaderFacts.
Import GoStr bufio mailgun_sendmail.
Context `{L : mail.Lib}.

Lemma outgoingHeader_Bcc (from : mail.Address) (h : mail.Header) :
  outgoingHeader from h !! "Bcc" = None.
Proof. unfold outgoingHeader. apply lookup_delete_eq. Qed.

Lemma outgoingHeader_From (from : mail.Address) (h : mail.Header) :
  default [] (outgoingHeader from h !! "From") =
    if noFrom h then [mail.String_ from] else default [] (h !! "From").
Proof.
  unfold outgoingHeader, defaultFrom.
  rewrite lookup_delete_ne by discriminate.
  destruct (noFrom h); [|reflexivity].
  now rewrite lookup_insert_eq.
Qed.

Lemma outgoingHeader_other (from : mail.Address) (h : mail.Header) (k : string) :
  k <> "Bcc" -> k <> "From" -> outgoingHeader from h !! k = h !! k.
Proof.
  intros Hb Hf. unfold outgoingHeader, defaultFrom.
  rewrite lookup_delete_ne by congruence.
  destruct (noFrom h); [|reflexivity].
  now rewrite lookup_insert_ne by congruence.
Qed.

(** C9.  The header block that is rendered, read back field by field:
    it has no Bcc; its From is the sender's address when the message had
    none, and the message's own otherwise; every other field has the
    values of the message, unchanged and in their order.  Every line is
    a field of the message or the added From line. *)
Theorem relay_header_frame (from : mail.Address) (h : mail.Header) (keys : list string) :
  keys ≡ₚ rangeKeys (outgoingHeader from h) ->
  valuesOf "Bcc" (headerLines keys (outgoingHeader from h)) = []
  /\ valuesOf "From" (headerLines keys (outgoingHeader from h))
     = (if noFrom h then [mail.String_ from] else default [] (h !! "From"))
  /\ (forall k, k <> "Bcc" -> k <> "From" ->
      valuesOf k (headerLines keys (outgoingHeader from h)) = default [] (h !! k))
  /\ (forall kv, kv ∈ headerLines keys (outgoingHeader from h) ->
      fst kv <> "Bcc" /\
      ((exists vs, h !! fst kv = Some vs /\ snd kv ∈ vs)
       \/ (noFrom h = true /\ kv = ("From", mail.String_ from)))).
Proof.
  intros Hp. repeat split.
  - rewrite (headerLines_values _ _ _ Hp). now rewrite outgoingHeader_Bcc.
  - rewrite (headerLines_values _ _ _ Hp). apply outgoingHeader_From.
  - intros k Hb Hf. rewrite (headerLines_values _ _ _ Hp).
    now rewrite outgoingHeader_other.
  - intros Hk. apply (headerLines_key _ _ _ Hp) in H as (vs & Hvs & _).
    rewrite Hk, outgoingHeader_Bcc in Hvs. discriminate.
  - destruct (headerLines_key _ _ _ Hp H) as (vs & Hvs & Hv).
    destruct kv as [k v]. simpl in *.
    destruct (decide (k = "Bcc")) as [->|Hb].
    { rewrite outgoingHeader_Bcc in Hvs. discriminate. }
    destruct (decide (k = "From")) as [->|Hf].
    + pose proof (outgoingHeader_From from h) as HF. rewrite Hvs in HF. simpl in HF.
      destruct (noFrom h) eqn:Hn.
      * right. split; [reflexivity|]. subst vs.
        apply list_elem_of_singleton in Hv. now subst v.
      * left. destruct (h !! "From") as [ws|] eqn:Hw.
        -- exists ws. simpl in HF. now subst ws.
        -- simpl in HF. subst vs. now apply elem_of_nil in Hv.
    + left. exists vs. now rewrite <- (outgoingHeader_other from h k Hb Hf).
Qed.

End OutgoingHeaderFacts.

(** ** Runs that return *)

Section ProcFacts.
Local Open Scope proc_scope.

Lemma bind_Ret {A B} (m : Proc A) (f : A -> Proc B) (tr : list event) (b : B) :
  bind m f = (tr, Ret b) ->
  exists t1 a t2, m = (t1, Ret a) /\ f a = (t2, Ret b) /\ tr = t1 ++ t2.
Proof.
  destruct m as [t1 [a| |]]; simpl; try discriminate.
  destruct (f a) as [t2 o] eqn:E. intros [= <- ->]. now exists t1, a, t2.
Qed.


Lemma ret_Ret {A} (a b : A) (tr : list event) : ret a = (tr, Ret b) -> tr = [] /\ a = b.
Proof. intros [= <- <-]. now split. Qed.

End ProcFacts.

Section RelayFacts.
Import GoStr bufio mailgun_sendmail.
Local Open Scope proc_scope.
Context `{L : mail.Lib} `{S : Sys}.




End RelayFacts.

Section BccFacts.
Import GoStr bufio.
Local Open Scope proc_scope.
Context `{L : mail.Lib} `{S : Sys}.





End BccFacts.


(** ** The decoder of the response *)

Section JsonFacts.
Import GoStr.

Lemma length_drop (n : nat) (s : string) :
  (String.length (json.drop n s) <= String.length s)%nat.
Proof.
  revert s. induction n as [|n IH]; intros [|a s]; simpl; try lia.
  specialize (IH s). lia.
Qed.

Lemma length_unicodeEscape (c : ascii) (r : string) :
  (String.length (snd (json.unicodeEscape (String c r))) <= String.length r)%nat.
Proof.
  unfold json.unicodeEscape.
  assert (H6 : (String.length (json.drop 6 (String c r)) <= String.length r)%nat)
    by apply (length_drop 5 r).
  pose proof (length_drop 6 (json.drop 6 (String c r))).
  repeat match goal with |- context [if ?b then _ else _] => destruct b end;
    cbn [snd]; lia.
Qed.

(** [unquote_go] does not depend on its fuel once there is as much of it
    as there are bytes. *)
Lemma unquote_go_fuel (n m : nat) (s : string) :
  (String.length s <= n)%nat -> (String.length s <= m)%nat ->
  json.unquote_go n s = json.unquote_go m s.
Proof.
  revert m s. induction n as [|n IH]; intros m s Hn Hm.
  - destruct s; simpl in Hn; [destruct m; reflexivity | lia].
  - destruct s as [|c r]; [destruct m; reflexivity|].
    destruct m as [|m]; simpl in Hn, Hm; [lia|].
    assert (IH' : forall x, (String.length x <= String.length r)%nat ->
                            json.unquote_go n x = json.unquote_go m x)
      by (intros x Hx; apply IH; lia).
    change (json.unquote_go (S n) (String c r)) with
      (if Ascii.eqb c "\" then
         match r with
         | String e r' =>
             if Ascii.eqb e "u" then
               fst (json.unicodeEscape (String c r))
               +:+ json.unquote_go n (snd (json.unicodeEscape (String c r)))
             else String (json.simpleEscape e) (json.unquote_go n r')
         | EmptyString => EmptyString
         end
       else if (nat_of_ascii c <? 128)%nat then String c (json.unquote_go n r)
       else
         match json.runeWidth (String c r) with
         | O => json.EncodeRune 65533 +:+ json.unquote_go n r
         | S w => json.take (S w) (String c r) +:+ json.unquote_go n (json.drop w r)
         end).
    change (json.unquote_go (S m) (String c r)) with
      (if Ascii.eqb c "\" then
         match r with
         | String e r' =>
             if Ascii.eqb e "u" then
               fst (json.unicodeEscape (String c r))
               +:+ json.unquote_go m (snd (json.unicodeEscape (String c r)))
             else String (json.simpleEscape e) (json.unquote_go m r')
         | EmptyString => EmptyString
         end
       else if (nat_of_ascii c <? 128)%nat then String c (json.unquote_go m r)
       else
         match json.runeWidth (String c r) with
         | O => json.EncodeRune 65533 +:+ json.unquote_go m r
         | S w => json.take (S w) (String c r) +:+ json.unquote_go m (json.drop w r)
         end).
    destruct (Ascii.eqb c "\").
    + destruct r as [|e r']; [reflexivity|].
      destruct (Ascii.eqb e "u").
      * rewrite (IH' _ (length_unicodeEscape c (String e r'))). reflexivity.
      * rewrite (IH' r') by (simpl; lia). reflexivity.
    + destruct (nat_of_ascii c <? 128)%nat; [now rewrite (IH' r) by lia|].
      destruct (json.runeWidth (String c r)) as [|w].
      * now rewrite (IH' r) by lia.
      * now rewrite (IH' _ (length_drop w r)).
Qed.

End JsonFacts.

(** ** runPost *)

Section RunPostFacts.
Import GoStr.
Local Open Scope proc_scope.
Context `{S : Sys}.

Lemma readToEOF_counting (n : nat) (total : Z) (pipe : list string) :
  (length pipe < n)%nat ->
  mg.readToEOF mg.countingReader_Read n (mg.mkCountingReader total pipe) =
    (sconcat pipe,
     mg.mkCountingReader (fold_left (fun t b => mg.wrap64 (t + len b)) pipe total) []).
Proof.
  revert total pipe. induction n as [|n IH]; intros total pipe Hn; [lia|].
  destruct pipe as [|b pipe]; simpl; [reflexivity|].
  unfold mg.countingReader_Read. simpl. rewrite IH by (simpl in Hn; lia). reflexivity.
Qed.

Lemma readToEOF_body (n : nat) (total : Z) (pipe : list string) :
  (length pipe < n)%nat ->
  mg.readToEOF mg.body_Read n (mg.mkCountingReader total pipe) =
    (sconcat pipe, mg.mkCountingReader total []).
Proof.
  revert pipe. induction n as [|n IH]; intros pipe Hn; [lia|].
  destruct pipe as [|b pipe]; simpl; [reflexivity|].
  unfold mg.body_Read. simpl. rewrite IH by (simpl in Hn; lia). reflexivity.
Qed.

Lemma readRequestBody_all (body : list string) :
  mg.readRequestBody (mg.mkCountingReader 0 body) =
    (sconcat body, mg.mkCountingReader (mg.countAll body) []).
Proof. unfold mg.readRequestBody. simpl mg.r. now rewrite readToEOF_counting by lia. Qed.

Lemma copyDiscardBody_all (total : Z) (pipe : list string) :
  mg.copyDiscardBody (mg.mkCountingReader total pipe) = mg.mkCountingReader total [].
Proof. unfold mg.copyDiscardBody. simpl mg.r. now rewrite readToEOF_body by lia. Qed.

(** Without overflow the count is the number of bytes. *)
Lemma fold_count (pipe : list string) (total : Z) :
  0 <= total -> total + len (sconcat pipe) < 2 ^ 63 ->
  fold_left (fun t b => mg.wrap64 (t + len b)) pipe total = total + len (sconcat pipe).
Proof.
  revert total. induction pipe as [|b pipe IH]; intros total H0 Hlt; simpl in *.
  - change (len "") with 0. lia.
  - rewrite len_app in Hlt. pose proof (len_nonneg b). pose proof (len_nonneg (sconcat pipe)).
    assert (Hw : mg.wrap64 (total + len b) = total + len b).
    { unfold mg.wrap64. rewrite Z.mod_small; lia. }
    rewrite Hw, IH by lia. rewrite len_app. lia.
Qed.

Lemma countAll_len (body : list string) :
  len (sconcat body) < 2 ^ 63 -> mg.countAll body = len (sconcat body).
Proof. intros H. unfold mg.countAll. rewrite fold_count; lia. Qed.

Lemma runPost_disabled (cfg : mg.Config) (from : mail.Address)
    (to : list mail.Address) (endpoint bodytype : string) (body : list string) :
  mg.DisableMail cfg = true ->
  http_NewRequest_error endpoint = None ->
  mg.runPost cfg from to endpoint bodytype body =
    ((if mg.DebugHTTP cfg
      then [Stderr (httputil_DumpRequest
                      (mg.newRequest cfg endpoint bodytype (sconcat body)))]
      else [])
     ++ [Stderr ("not sending mail (disabled)" +:+ nl); Finished],
     Ret (mg.mkCountingReader (if mg.DebugHTTP cfg then mg.countAll body else 0) [])).
Proof.
  intros Hdis Hnew. unfold mg.runPost. rewrite Hnew, Hdis. simpl mg.check.
  destruct (mg.DebugHTTP cfg).
  - rewrite readRequestBody_all. simpl. now rewrite copyDiscardBody_all.
  - simpl. now rewrite copyDiscardBody_all.
Qed.

(** A message without attachments goes from [Mail] straight to
    [runPost]. *)
Lemma Mail_no_attachments `{L : mail.Lib} (cfg : mg.Config) (msg : mg.Message) :
  mg.Attachments msg = [] ->
  mg.Mail cfg msg =
    mg.runPost cfg (mg.FixLocalAddr (mg.Domain cfg) (mg.From msg))
      (mg.FixLocalAddrs (mg.Domain cfg) (mg.To msg)
       ++ mg.FixLocalAddrs (mg.Domain cfg) (mg.CC msg)
       ++ mg.FixLocalAddrs (mg.Domain cfg) (mg.BCC msg))
      ("https://api.mailgun.net/v3/" +:+ mg.Domain cfg +:+ "/" +:+ "messages")
      multipart_FormDataContentType
      (multipart_chunks (mg.fields (mg.fixMessage (mg.Domain cfg) msg))).
Proof.
  intros Hatt. unfold mg.Mail, mg.post. simpl. rewrite Hatt. simpl.
  rewrite app_nil_r.
  destruct (mg.runPost _ _ _ _ _ _) as [t o]. reflexivity.
Qed.

(** C2, as the code has it.  With sending disabled and a request that
    can be built, [runPost] makes no HTTP exchange and writes no log
    record; it prints the note, reads the pipe to its end ([r] is
    empty), signals that it has finished and returns.  The reads that
    empty the pipe are reads of [body], not of the counting reader: the
    counter stays 0, unless the request was dumped for debugging, in
    which case the dump has read everything through the counting
    reader and the counter is the size of the payload. *)
Theorem dry_run_drains_uncounted (cfg : mg.Config) (from : mail.Address)
    (to : list mail.Address) (endpoint bodytype : string) (body : list string) :
  mg.DisableMail cfg = true ->
  http_NewRequest_error endpoint = None ->
  exists cr,
    mg.runPost cfg from to endpoint bodytype body =
      ((if mg.DebugHTTP cfg
        then [Stderr (httputil_DumpRequest
                        (mg.newRequest cfg endpoint bodytype (sconcat body)))]
        else [])
       ++ [Stderr ("not sending mail (disabled)" +:+ nl); Finished],
       Ret cr)
    /\ mg.r cr = []
    /\ mg.total cr = (if mg.DebugHTTP cfg then mg.countAll body else 0)
    /\ (len (sconcat body) < 2 ^ 63 -> mg.countAll body = len (sconcat body)).
Proof.
  intros Hdis Hnew. eexists. split; [now apply runPost_disabled|].
  repeat split. apply countAll_len.
Qed.

(** The scenario of a message without attachments, through [Mail]. *)
Lemma Mail_dry_run `{L : mail.Lib} (cfg : mg.Config) (msg : mg.Message) :
  mg.DisableMail cfg = true -> mg.DebugHTTP cfg = false ->
  mg.Attachments msg = [] ->
  http_NewRequest_error
    ("https://api.mailgun.net/v3/" +:+ mg.Domain cfg +:+ "/" +:+ "messages") = None ->
  mg.Mail cfg msg =
    ([Stderr ("not sending mail (disabled)" +:+ nl); Finished],
     Ret (mg.mkCountingReader 0 [])).
Proof.
  intros Hdis Hdbg Hatt Hnew. rewrite (Mail_no_attachments cfg msg Hatt).
  rewrite (runPost_disabled _ _ _ _ _ _ Hdis Hnew), Hdbg. reflexivity.
Qed.

End RunPostFacts.

Section ResponseFacts.
Import GoStr.
Local Open Scope proc_scope.
Context `{S : Sys}.

(** C5, as the code has it.  The exchange has produced [resp] (and, when
    debugging, its body could be read for the dump).  A status other
    than 200 ends the run through [Die] with the status line, a line
    feed and the body as received.  With status 200 and the body read
    without error, the run ends through [Die] exactly when
    [json.Unmarshal] of the body into the two strings fails, again with
    the body at the end of the message; when it succeeds, the exchange
    is logged with the byte count and the run signals that it has
    finished.  [json.Unmarshal] fails on text that is not JSON, on a
    top-level array, string, number or boolean, and on a message or id
    that is neither a string nor null; it accepts an object without
    these members, such as the empty object, and null. *)
Theorem response_status_then_decoding (cfg : mg.Config) (from : mail.Address)
    (to : list mail.Address) (endpoint bodytype : string) (body : list string)
    (resp : http.Response) :
  mg.DisableMail cfg = false ->
  http_NewRequest_error endpoint = None ->
  http_Do (mg.newRequest cfg endpoint bodytype (sconcat body)) = Ok resp ->
  mg.DebugHTTP cfg = false \/ http.BodyErr resp = None ->
  let req := mg.newRequest cfg endpoint bodytype (sconcat body) in
  let before :=
    (if mg.DebugHTTP cfg then [Stderr (httputil_DumpRequest req)] else [])
    ++ [HttpDo req]
    ++ (if mg.DebugHTTP cfg then [Stderr (httputil_DumpResponse resp)] else []) in
  let dies (err : string) :=
    mg.runPost cfg from to endpoint bodytype body =
      (before
       ++ [LogPrintf (LogDie (mg.User cfg) (mg.Args cfg) err);
           Stderr (filepath_Base (mg.Prog cfg) +:+ ": " +:+ err +:+ nl)],
       Exit 2) in
  (http.StatusCode resp <> 200 ->
   dies ("sending mail: " +:+ http.Status resp +:+ nl +:+ http.RespBody resp))
  /\ (http.StatusCode resp = 200 -> http.BodyErr resp = None ->
      match json.Unmarshal (http.RespBody resp) with
      | inl e =>
          dies ("sending mail: invalid JSON response: " +:+ json_Error e +:+ nl
                +:+ http.RespBody resp)
      | inr mailResp =>
          mg.runPost cfg from to endpoint bodytype body =
            (before
             ++ [LogPrintf (LogSent (mg.User cfg) (mg.Args cfg) from to (mg.countAll body)
                              (json_Compact (http.RespBody resp)))]
             ++ (if mg.IsTTY cfg || mg.Verbose cfg
                 then [Stderr ("mailgun: " +:+ json.Message mailResp +:+ nl)] else [])
             ++ [Finished],
             Ret (mg.mkCountingReader (mg.countAll body) []))
      end)
  /\ (http.StatusCode resp = 200 -> forall e, http.BodyErr resp = Some e ->
      dies ("sending mail: " +:+ e +:+ nl +:+ http.RespBody resp))
  /\ json.Unmarshal "{}" = inr (json.mkMailResp "" "")
  /\ json.Unmarshal "null" = inr (json.mkMailResp "" "").
Proof.
  intros Hdis Hnew Hdo Hdump req before dies.
  assert (Hrun : mg.runPost cfg from to endpoint bodytype body =
    bind (before, Ret tt) (fun _ =>
      let data := http.RespBody resp in
      if negb (http.StatusCode resp =? 200) then
        mg.Die cfg ("sending mail: " +:+ http.Status resp +:+ nl +:+ data)
      else
        match http.BodyErr resp with
        | Some e => mg.Die cfg ("sending mail: " +:+ e +:+ nl +:+ data)
        | None =>
            match json.Unmarshal data with
            | inl e =>
                mg.Die cfg ("sending mail: invalid JSON response: "
                             +:+ json_Error e +:+ nl +:+ data)
            | inr mailResp =>
                emit (LogPrintf (LogSent (mg.User cfg) (mg.Args cfg) from to
                                   (mg.countAll body) (json_Compact data))) >>
                (if mg.IsTTY cfg || mg.Verbose cfg then
                   emit (Stderr ("mailgun: " +:+ json.Message mailResp +:+ nl))
                 else ret tt) >>
                emit Finished >>
                ret (mg.mkCountingReader (mg.countAll body) [])
            end
        end)).
  { unfold mg.runPost, before, req. rewrite Hnew, Hdis. simpl mg.check.
    destruct (mg.DebugHTTP cfg) eqn:Hdbg.
    - destruct Hdump as [Hd|Hb]; [discriminate|].
      rewrite readRequestBody_all. simpl. rewrite Hdo, Hb. simpl.
      destruct (negb (http.StatusCode resp =? 200)); [reflexivity|].
      destruct (json.Unmarshal (http.RespBody resp)); [reflexivity|].
      simpl. destruct (mg.IsTTY cfg || mg.Verbose cfg); reflexivity.
    - simpl. rewrite readRequestBody_all. simpl. rewrite Hdo. simpl.
      destruct (negb (http.StatusCode resp =? 200)); [reflexivity|].
      destruct (http.BodyErr resp); [reflexivity|].
      destruct (json.Unmarshal (http.RespBody resp)); [reflexivity|].
      simpl. destruct (mg.IsTTY cfg || mg.Verbose cfg); reflexivity. }
  unfold dies. rewrite Hrun. clear Hrun. repeat split.
  - intros Hst. apply Z.eqb_neq in Hst. rewrite Hst. reflexivity.
  - intros Hst Hb. rewrite Hst, Hb. simpl negb. cbv iota zeta.
    destruct (json.Unmarshal (http.RespBody resp)); [reflexivity|].
    simpl. destruct (mg.IsTTY cfg || mg.Verbose cfg); simpl; now rewrite <- ?app_assoc.
  - intros Hst e Hb. rewrite Hst, Hb. reflexivity.
Qed.

End ResponseFacts.

(** ** The theorems on examples *)

Section Examples.
Import GoStr bufio.

Let carol : mail.Address := mail.mkAddress "Carol" "carol".
Let note : mg.Message :=
  mg.mkMessage (mail.mkAddress "" "alice") [mail.mkAddress "" "bob@example.org"] []
    [carol] "hi" ("hello" +:+ nl) [].
Let relayFlags : mailgun_sendmail.Flags :=
  mailgun_sendmail.mkFlags "" "m" [] "" "" false true false ["dave@example.org"].


Lemma dot_ends_message_witness :
  mg.IsTTY (Example.config true false false) = true
  /\ mailgun_sendmail.iflag relayFlags = false
  /\ @mailgun_mail.ingest Example.net_mail (Example.world (Err "unreachable"))
       (Example.config true false false) true None
       (mailgun_mail.mkDraft [] [] [] "" ""
          (readLines ("Subject: hi" +:+ nl +:+ nl +:+ "hello" +:+ nl +:+ "." +:+ nl
                      +:+ "left over" +:+ nl)))
     = ([Stderr ("EOT" +:+ nl)],
        Ret (mailgun_mail.mkDraft [] [] [] "hi" ("hello" +:+ nl) ["left over" +:+ nl])).
Proof.
  split; [reflexivity|]. split; [reflexivity|].
  exact (proj2 (proj2 (proj2
    (@dot_ends_message Example.net_mail (Example.world (Err "unreachable"))
       (Example.config true false false) relayFlags None ("left over" +:+ nl)
       [] [] [] "" eq_refl eq_refl)))).
Defined.

Let incoming : mail.Header :=
  <["To" := ["a@example.org"]]> (<["Bcc" := ["b@example.org"]]>
    (<["Subject" := ["x"]]> (<["Received" := ["one"; "two"]]> ∅))).

Lemma incoming_keys :
  ["To"; "Subject"; "Received"; "Bcc"] ≡ₚ mailgun_sendmail.rangeKeys incoming.
Proof.
  apply NoDup_Permutation.
  - apply (bool_decide_unpack _). vm_compute. exact I.
  - apply rangeKeys_NoDup.
  - intros k. rewrite rangeKeys_elem. unfold incoming.
    rewrite !elem_of_cons, elem_of_nil.
    split.
    + intros [->|[->|[->|[->|[]]]]]; eexists; reflexivity.
    + intros [vs Hvs].
      destruct (decide (k = "To")) as [->|?]; [tauto|].
      destruct (decide (k = "Subject")) as [->|?]; [tauto|].
      destruct (decide (k = "Received")) as [->|?]; [tauto|].
      destruct (decide (k = "Bcc")) as [->|?]; [tauto|].
      rewrite !lookup_insert_ne, lookup_empty in Hvs by congruence. discriminate.
Qed.

Lemma header_sorted_then_blank_line_witness :
  ["To"; "Subject"; "Received"; "Bcc"] ≡ₚ mailgun_sendmail.rangeKeys incoming
  /\ readLines (mailgun_sendmail.renderHeader ["To"; "Subject"; "Received"; "Bcc"] incoming
                +:+ ("hello" +:+ nl))
     = ["Bcc: b@example.org" +:+ nl; "Received: one" +:+ nl; "Received: two" +:+ nl;
        "Subject: x" +:+ nl; "To: a@example.org" +:+ nl; nl; "hello" +:+ nl].
Proof.
  split; [exact incoming_keys|].
  destruct (header_sorted_then_blank_line incoming ["To"; "Subject"; "Received"; "Bcc"]
              ("hello" +:+ nl) incoming_keys) as (_ & _ & _ & _ & _ & H).
  rewrite H; [vm_compute; reflexivity|].
  intros kv Hin. vm_compute in Hin.
  repeat (apply elem_of_cons in Hin as [->|Hin]; [split; reflexivity|]).
  now apply elem_of_nil in Hin.
Defined.


Lemma relay_header_frame_witness :
  mailgun_sendmail.rangeKeys
    (@mailgun_sendmail.outgoingHeader Example.net_mail (mail.mkAddress "" "alice@example.com")
       incoming)
    ≡ₚ mailgun_sendmail.rangeKeys
         (@mailgun_sendmail.outgoingHeader Example.net_mail
            (mail.mkAddress "" "alice@example.com") incoming)
  /\ mailgun_sendmail.valuesOf "Bcc"
       (mailgun_sendmail.headerLines
          (mailgun_sendmail.rangeKeys
             (@mailgun_sendmail.outgoingHeader Example.net_mail
                (mail.mkAddress "" "alice@example.com") incoming))
          (@mailgun_sendmail.outgoingHeader Example.net_mail
             (mail.mkAddress "" "alice@example.com") incoming)) = []
  /\ mailgun_sendmail.valuesOf "From"
       (mailgun_sendmail.headerLines
          (mailgun_sendmail.rangeKeys
             (@mailgun_sendmail.outgoingHeader Example.net_mail
                (mail.mkAddress "" "alice@example.com") incoming))
          (@mailgun_sendmail.outgoingHeader Example.net_mail
             (mail.mkAddress "" "alice@example.com") incoming))
     = ["<alice@example.com>"].
Proof.
  destruct (@relay_header_frame Example.net_mail (mail.mkAddress "" "alice@example.com")
              incoming _ (reflexivity _)) as (Hbcc & Hfrom & _).
  split; [reflexivity|]. split; [exact Hbcc|]. rewrite Hfrom. reflexivity.
Defined.

Let dryRun : mg.Config := Example.config false false true.
Let live : mg.Config := Example.config false false false.
Let payload : list string :=
  @multipart_chunks (Example.world (Err "unreachable"))
    (@mg.fields Example.net_mail (mg.fixMessage "example.com" note)).

(** C2 as stated fails.  A message without attachments, sending
    disabled: the run returns after the note and the signal, the pipe
    is empty, but the counter is 0 and the payload is not empty. *)
Lemma dry_run_counter_stays_zero :
  @mg.Mail Example.net_mail (Example.world (Err "unreachable")) dryRun note =
    ([Stderr ("not sending mail (disabled)" +:+ nl); Finished],
     Ret (mg.mkCountingReader 0 []))
  /\ len (sconcat payload) = 101
  /\ mg.total (mg.mkCountingReader 0 []) <> len (sconcat payload).
Proof. split; [vm_compute; reflexivity|]. split; [vm_compute; reflexivity|]. discriminate. Qed.

Lemma dry_run_drains_uncounted_witness :
  mg.DisableMail dryRun = true
  /\ @http_NewRequest_error (Example.world (Err "unreachable"))
       "https://api.mailgun.net/v3/example.com/messages" = None
  /\ exists cr,
       @mg.runPost (Example.world (Err "unreachable")) dryRun
         (mail.mkAddress "" "alice@example.com") []
         "https://api.mailgun.net/v3/example.com/messages" "multipart/form-data" payload
       = ([Stderr ("not sending mail (disabled)" +:+ nl); Finished], Ret cr)
       /\ mg.r cr = [] /\ mg.total cr = 0.
Proof.
  split; [reflexivity|]. split; [reflexivity|].
  destruct (@dry_run_drains_uncounted (Example.world (Err "unreachable")) dryRun
              (mail.mkAddress "" "alice@example.com") []
              "https://api.mailgun.net/v3/example.com/messages" "multipart/form-data"
              payload eq_refl eq_refl) as (cr & Hrun & Hr & Ht & _).
  exists cr. split; [exact Hrun|]. split; [exact Hr | exact Ht].
Defined.

Let emptyObject : http.Response := http.mkResponse 200 "200 OK" "{}" None.
Let serverError : http.Response :=
  http.mkResponse 500 "500 Internal Server Error" "Internal Server Error" None.

(** C5 as stated fails.  Status 200 with the body [{}], a JSON object
    that has neither message nor id: the run does not fail; it logs the
    exchange and signals that it has finished. *)
Lemma empty_object_is_accepted :
  json.parse "{}" = inr (json.Object [])
  /\ @mg.runPost (Example.world (Ok emptyObject)) live
       (mail.mkAddress "" "alice@example.com") [mail.mkAddress "" "bob@example.org"]
       "https://api.mailgun.net/v3/example.com/messages" "multipart/form-data" payload
     = ([HttpDo (mg.newRequest live "https://api.mailgun.net/v3/example.com/messages"
                   "multipart/form-data" (sconcat payload));
         LogPrintf (LogSent "alice" ["mailgun"] (mail.mkAddress "" "alice@example.com")
                      [mail.mkAddress "" "bob@example.org"] 101 "{}");
         Finished],
        Ret (mg.mkCountingReader 101 [])).
Proof. split; vm_compute; reflexivity. Qed.

Lemma response_status_then_decoding_witness :
  mg.DisableMail live = false
  /\ @http_NewRequest_error (Example.world (Ok serverError))
       "https://api.mailgun.net/v3/example.com/messages" = None
  /\ @http_Do (Example.world (Ok serverError))
       (mg.newRequest live "https://api.mailgun.net/v3/example.com/messages"
          "multipart/form-data" (sconcat payload)) = Ok serverError
  /\ (mg.DebugHTTP live = false \/ http.BodyErr serverError = None)
  /\ @mg.runPost (Example.world (Ok serverError)) live
       (mail.mkAddress "" "alice@example.com") []
       "https://api.mailgun.net/v3/example.com/messages" "multipart/form-data" payload
     = ([HttpDo (mg.newRequest live "https://api.mailgun.net/v3/example.com/messages"
                   "multipart/form-data" (sconcat payload));
         LogPrintf (LogDie "alice" ["mailgun"]
                      ("sending mail: 500 Internal Server Error" +:+ nl
                       +:+ "Internal Server Error"));
         Stderr ("mailgun: sending mail: 500 Internal Server Error" +:+ nl
                 +:+ "Internal Server Error" +:+ nl)],
        Exit 2).
Proof.
  split; [reflexivity|]. split; [reflexivity|]. split; [reflexivity|].
  split; [now left|].
  destruct (@response_status_then_decoding (Example.world (Ok serverError)) live
              (mail.mkAddress "" "alice@example.com") []
              "https://api.mailgun.net/v3/example.com/messages" "multipart/form-data"
              payload serverError eq_refl eq_refl eq_refl (or_introl eq_refl))
    as (Hstatus & _).
  rewrite Hstatus by discriminate. reflexivity.
Defined.

End Examples.

(** * Further properties of the code *)

(** ** The terminal test *)

Section IsTTYFacts.
Import mg_init.

Lemma device_bits (n : Z) :
  0 <= n ->
  Z.testbit (Z.lor ModeDevice ModeCharDevice) n = (n =? 26) || (n =? 21).
Proof.
  intros Hn. unfold ModeDevice, ModeCharDevice.
  rewrite Z.lor_spec, !Z.shiftl_1_l, !Z.pow2_bits_eqb by lia.
  now rewrite (Z.eqb_sym 26 n), (Z.eqb_sym 21 n).
Qed.

(** X1 (isTTY).  Standard input is taken for a terminal exactly when its [Stat]
    succeeds and the mode has both the device bit (26) and the character
    device bit (21); every other bit is ignored. *)
Theorem isTTY_iff_char_device (stat : result Z) :
  isTTY stat = true <->
  exists mode, stat = Ok mode /\ Z.testbit mode 26 = true /\ Z.testbit mode 21 = true.
Proof.
  destruct stat as [mode|e]; unfold isTTY.
  - rewrite Z.eqb_eq. split.
    + intros H. exists mode. split; [reflexivity|].
      split.
      * apply (f_equal (fun z => Z.testbit z 26)) in H.
        rewrite Z.land_spec, device_bits in H by lia.
        change ((26 =? 26) || (26 =? 21)) with true in H.
        now rewrite andb_true_r in H.
      * apply (f_equal (fun z => Z.testbit z 21)) in H.
        rewrite Z.land_spec, device_bits in H by lia.
        change ((21 =? 26) || (21 =? 21)) with true in H.
        now rewrite andb_true_r in H.
    + intros (m & [= <-] & H26 & H21). apply Z.bits_inj'. intros n Hn.
      rewrite Z.land_spec, device_bits by assumption.
      destruct (n =? 26) eqn:E26.
      { apply Z.eqb_eq in E26. subst n. rewrite H26. reflexivity. }
      destruct (n =? 21) eqn:E21.
      { apply Z.eqb_eq in E21. subst n. rewrite H21. reflexivity. }
      apply andb_false_r.
  - split; [discriminate|]. intros (m & Hm & _). discriminate.
Qed.

End IsTTYFacts.

(** ** Prefixes and fields *)

Section FieldsFacts.
Import GoStr mg_init.

Lemma substring_0_0 (s : string) : String.substring 0 0 s = "".
Proof. destruct s; reflexivity. Qed.

Lemma HasPrefix_prefix (s p : string) : HasPrefix s p = String.prefix p s.
Proof.
  unfold HasPrefix, slice, len. rewrite Z.sub_0_r, Nat2Z.id. change (Z.to_nat 0) with 0%nat.
  revert s. induction p as [|a p IH]; intros s.
  - simpl. rewrite substring_0_0. destruct s; reflexivity.
  - destruct s as [|b s]; [reflexivity|].
    specialize (IH s). simpl String.length in *. simpl String.substring. simpl String.prefix.
    destruct (ascii_dec a b) as [->|Hne].
    + rewrite <- IH. simpl String.eqb. rewrite Ascii.eqb_refl.
      f_equal. apply eq_iff_eq_true. rewrite !Z.leb_le. lia.
    + simpl String.eqb. assert (E : Ascii.eqb b a = false).
      { apply Ascii.eqb_neq. congruence. }
      rewrite E. apply andb_false_r.
Qed.

Lemma HasPrefix_app (p t : string) : HasPrefix (p +:+ t) p = true.
Proof.
  rewrite HasPrefix_prefix. induction p as [|a p IH]; [destruct t; reflexivity|].
  rewrite sapp_cons. simpl. destruct (ascii_dec a a); [exact IH | contradiction].
Qed.

Lemma HasPrefix_inv (s p : string) : HasPrefix s p = true -> exists t, s = p +:+ t.
Proof.
  rewrite HasPrefix_prefix. revert s. induction p as [|a p IH]; intros s H.
  - now exists s.
  - destruct s as [|b s]; [discriminate|]. simpl in H.
    destruct (ascii_dec a b) as [->|]; [|discriminate].
    destruct (IH s H) as [t ->]. now exists t.
Qed.

Lemma TrimPrefix_app (p t : string) : TrimPrefix (p +:+ t) p = t.
Proof.
  unfold TrimPrefix. rewrite HasPrefix_app. unfold slice. rewrite len_app.
  replace (len p + len t - len p) with (len t) by lia.
  unfold len. rewrite !Nat2Z.id, substring_app_r. apply substring_all.
Qed.

Lemma hasByte_asciiWhite (c : ascii) : hasByte asciiWhite c = asciiSpace c.
Proof. destruct c as [[] [] [] [] [] [] [] []]; reflexivity. Qed.

Lemma ContainsAny_app (s t chars : string) :
  ContainsAny (s +:+ t) chars = ContainsAny s chars || ContainsAny t chars.
Proof.
  induction s as [|a s IH]; [reflexivity|].
  rewrite sapp_cons. simpl. now rewrite IH, orb_assoc.
Qed.

Lemma push_clean (a : ascii) (cur : option string) :
  asciiSpace a = false ->
  (forall w, cur = Some w -> clean w) ->
  forall w, push a cur = Some w -> clean w.
Proof.
  intros Ha Hcur w [= <-]. destruct cur as [w0|].
  - destruct (Hcur w0 eq_refl) as [_ Hw0]. split.
    + destruct w0; discriminate.
    + rewrite ContainsAny_app, Hw0.
      change (ContainsAny (String a "") asciiWhite) with (hasByte asciiWhite a || false).
      now rewrite hasByte_asciiWhite, Ha.
  - split; [discriminate|].
    change (ContainsAny (String a "") asciiWhite) with (hasByte asciiWhite a || false).
    now rewrite hasByte_asciiWhite, Ha.
Qed.

Lemma flush_clean (cur : option string) :
  (forall w, cur = Some w -> clean w) -> Forall clean (flush cur).
Proof. destruct cur as [w|]; intros H; simpl; [|constructor]. constructor; auto. Qed.

Lemma fields_go_clean (n : nat) :
  forall (s : string) (cur : option string),
    (String.length s <= n)%nat ->
    (forall w, cur = Some w -> clean w) ->
    Forall clean (fields_go cur s).
Proof.
  induction n as [|n IH]; intros s cur Hlen Hcur.
  - destruct s; [|simpl in Hlen; lia]. now apply flush_clean.
  - assert (Hnone : forall w, @None string = Some w -> clean w) by discriminate.
    destruct s as [|a r1]; [now apply flush_clean|]. simpl in Hlen. simpl.
    destruct (asciiSpace a) eqn:Ha.
    { apply Forall_app. split; [now apply flush_clean | apply IH; [lia | assumption]]. }
    pose proof (push_clean a cur Ha Hcur) as Hpush.
    destruct r1 as [|b r2]; [apply IH; [simpl; lia | assumption]|].
    destruct (space2 a b).
    { apply Forall_app. split; [now apply flush_clean|]. apply IH; [simpl in *; lia | assumption]. }
    destruct r2 as [|c r3]; [apply IH; [simpl in *; lia | assumption]|].
    destruct (space3 a b c).
    { apply Forall_app. split; [now apply flush_clean|]. apply IH; [simpl in *; lia | assumption]. }
    apply IH; [simpl in *; lia | assumption].
Qed.

(** No field is empty and no field holds white space. *)
Lemma Fields_clean (s : string) : Forall clean (Fields s).
Proof. apply (fields_go_clean (String.length s)); [lia | discriminate]. Qed.

End FieldsFacts.

(** ** The API key *)

Section KeyFacts.
Import GoStr mg_init.
Context `{S : Sys}.

Lemma plainByte_space (a : ascii) :
  plainByte a = true ->
  asciiSpace a = false /\ (forall b, space2 a b = false) /\ (forall b c, space3 a b c = false).
Proof.
  destruct a as [b0 b1 b2 b3 b4 b5 b6 []].
  - intros H. exfalso. destruct b0, b1, b2, b3, b4, b5, b6; discriminate H.
  - intros H. destruct b0, b1, b2, b3, b4, b5, b6;
      (split; [first [reflexivity | discriminate H] | split; intros; reflexivity]).
Qed.

Lemma fields_go_plainByte (a : ascii) (cur : option string) (r : string) :
  plainByte a = true -> fields_go cur (String a r) = fields_go (push a cur) r.
Proof.
  intros H. destruct (plainByte_space a H) as (H1 & H2 & H3).
  cbn [fields_go]. rewrite H1.
  destruct r as [|b r]; [reflexivity|]. rewrite H2.
  destruct r as [|c r]; [reflexivity|]. now rewrite H3.
Qed.

Lemma fields_go_plain (w : string) :
  forall (cur : option string) (rest : string),
    plain w = true -> fields_go cur (w +:+ rest) = fields_go (extend cur w) rest.
Proof.
  induction w as [|a w IH]; intros cur rest H; [now rewrite sapp_nil_l|].
  simpl in H. apply andb_prop in H as [Ha Hw].
  rewrite sapp_cons, fields_go_plainByte by assumption.
  rewrite IH by assumption. f_equal.
  destruct w as [|b w]; destruct cur as [c|]; cbn [extend push]; try reflexivity.
  now rewrite sapp_assoc.
Qed.

Lemma fields_go_blank (ws : string) :
  forall rest : string, blank ws = true -> fields_go None (ws +:+ rest) = fields_go None rest.
Proof.
  induction ws as [|a ws IH]; intros rest H; [now rewrite sapp_nil_l|].
  simpl in H. apply andb_prop in H as [Ha Hw].
  rewrite sapp_cons. cbn [fields_go]. rewrite Ha. now apply IH.
Qed.

Lemma fields_go_blank_flush (ws : string) (cur : option string) (rest : string) :
  blank ws = true -> ws <> "" ->
  fields_go cur (ws +:+ rest) = flush cur ++ fields_go None rest.
Proof.
  destruct ws as [|a ws]; [congruence|]. intros H _.
  simpl in H. apply andb_prop in H as [Ha Hw].
  rewrite sapp_cons. cbn [fields_go]. rewrite Ha. f_equal. now apply fields_go_blank.
Qed.

Lemma plain_app (s t : string) : plain (s +:+ t) = plain s && plain t.
Proof.
  induction s as [|a s IH]; [now rewrite sapp_nil_l|].
  rewrite sapp_cons. simpl. now rewrite IH, andb_assoc.
Qed.

(** The fields of two words between white space. *)
Lemma Fields_two (ws0 d ws1 w ws2 : string) :
  blank ws0 = true -> blank ws1 = true -> ws1 <> "" -> blank ws2 = true ->
  plain d = true -> d <> "" -> plain w = true -> w <> "" ->
  Fields (ws0 +:+ d +:+ ws1 +:+ w +:+ ws2) = [d; w].
Proof.
  intros H0 H1 N1 H2 Hd Nd Hw Nw. unfold Fields.
  rewrite fields_go_blank, fields_go_plain by assumption.
  rewrite fields_go_blank_flush by assumption.
  rewrite fields_go_plain by assumption.
  destruct d as [|a d]; [congruence|]. destruct w as [|b w]; [congruence|].
  cbn [extend flush]. replace ws2 with (ws2 +:+ "") by apply sapp_nil_r.
  destruct ws2 as [|c ws2]; [reflexivity|].
  rewrite fields_go_blank_flush by (assumption || discriminate). reflexivity.
Qed.

Lemma Contains_nonempty (s sub : string) : Contains s sub = true -> sub <> "" -> s <> "".
Proof. intros H N ->. destruct sub; [congruence | discriminate]. Qed.

Lemma parseKey_Ret (cfg cfg' : mg.Config) (src key : string) (tr : list event) :
  parseKey cfg src key = (tr, Ret cfg') ->
  tr = [] /\
  exists d k, Fields key = [d; "api:key-" +:+ k] /\ Contains d "." = true /\
              cfg' = setKey cfg d ("key-" +:+ k).
Proof.
  unfold parseKey.
  destruct (Fields key) as [|f0 [|f1 [|f2 fs]]]; try discriminate.
  destruct (Contains f0 ".") eqn:Hdot; [|discriminate].
  destruct (HasPrefix f1 "api:key-") eqn:Hpre; [|discriminate].
  cbn [negb orb]. intros [= <- <-]. split; [reflexivity|].
  apply HasPrefix_inv in Hpre as [k ->]. exists f0, k. repeat split; try assumption.
  f_equal. change ("api:key-" +:+ k) with ("api:" +:+ ("key-" +:+ k)).
  apply TrimPrefix_app.
Qed.

Lemma parseKey_not_Ret (cfg : mg.Config) (src key : string) :
  (forall tr cfg', parseKey cfg src key <> (tr, Ret cfg')) ->
  parseKey cfg src key = mg.Die cfg ("malformed mailgun API key in " +:+ src).
Proof.
  unfold parseKey. intros H.
  destruct (Fields key) as [|f0 [|f1 [|f2 fs]]]; try reflexivity.
  destruct (negb (Contains f0 ".") || negb (HasPrefix f1 "api:key-")); [reflexivity|].
  now destruct (H [] (setKey cfg f0 (TrimPrefix f1 "api:"))).
Qed.

(** X2 (parseKey).  When [parseKey] returns, it has logged and printed
    nothing, the text had exactly two fields, [Domain] is the first one,
    it contains a dot and no white space, [APIKey] is the second one
    without its prefix [api:], it starts with [key-] and contains no
    white space, and no other variable of the package has changed. *)
Theorem parseKey_sets_wellformed_key (cfg cfg' : mg.Config) (src key : string)
    (tr : list event) :
  parseKey cfg src key = (tr, Ret cfg') ->
  tr = [] /\
  Fields key = [mg.Domain cfg'; "api:" +:+ mg.APIKey cfg'] /\
  Contains (mg.Domain cfg') "." = true /\ clean (mg.Domain cfg') /\
  HasPrefix (mg.APIKey cfg') "key-" = true /\ clean (mg.APIKey cfg') /\
  cfg' = setKey cfg (mg.Domain cfg') (mg.APIKey cfg').
Proof.
  intros H. apply parseKey_Ret in H as (-> & d & k & HF & Hdot & ->).
  cbn [setKey mg.Domain mg.APIKey].
  pose proof (Fields_clean key) as Hc. rewrite HF in Hc.
  apply Forall_cons in Hc as [Hd Hc]. apply Forall_cons in Hc as [[_ Hk] _].
  change ("api:key-" +:+ k) with ("api:" +:+ ("key-" +:+ k)) in Hk.
  rewrite ContainsAny_app in Hk. apply orb_false_elim in Hk as [_ Hk].
  split; [reflexivity|]. split; [assumption|]. split; [assumption|].
  split; [assumption|]. split; [apply HasPrefix_app|].
  split; [|reflexivity]. split; [discriminate | assumption].
Qed.

(** X3 (parseKey).  The documented form of the key is accepted: a domain
    of ASCII bytes with a dot, white space, [api:key-] and a string of
    ASCII bytes, with any white space before and after (a file ends with
    a line feed).  [Domain] and [APIKey] are then the domain and the
    second word from [key-] on. *)
Theorem parseKey_accepts_documented_form (cfg : mg.Config)
    (src ws0 d ws1 k ws2 : string) :
  blank ws0 = true -> blank ws1 = true -> ws1 <> "" -> blank ws2 = true ->
  plain d = true -> Contains d "." = true -> plain k = true ->
  parseKey cfg src (ws0 +:+ d +:+ ws1 +:+ ("api:key-" +:+ k) +:+ ws2)
  = ret (setKey cfg d ("key-" +:+ k)).
Proof.
  intros H0 H1 N1 H2 Hd Hdot Hk. unfold parseKey.
  rewrite Fields_two; try assumption.
  - rewrite Hdot, HasPrefix_app. cbn [negb orb].
    change ("api:key-" +:+ k) with ("api:" +:+ ("key-" +:+ k)).
    now rewrite TrimPrefix_app.
  - apply (Contains_nonempty _ _ Hdot). discriminate.
  - discriminate.
Qed.

End KeyFacts.

(** ** The configuration *)

Section ReadConfigFacts.
Import GoStr mg_init.
Context `{S : Sys} `{O : OS}.

Lemma eqb_empty_false (s : string) : s <> "" -> String.eqb s "" = false.
Proof. intros N. now apply String.eqb_neq. Qed.

(** X4 (readConfig).  [readConfig] returns only with a well-formed key,
    taken from the first source that exists: the variable MAILGUNKEY
    when it is not empty, else the file [.mailgun.key] of the home
    directory when it can be read, else [/etc/mailgun.key].  Nothing is
    logged or printed, and only [Domain] and [APIKey] change. *)
Theorem readConfig_key_of_first_source (cfg cfg' : mg.Config) (tr : list event) :
  readConfig cfg = (tr, Ret cfg') ->
  tr = [] /\
  (exists key,
     Fields key = [mg.Domain cfg'; "api:" +:+ mg.APIKey cfg'] /\
     ((key <> "" /\ Getenv "MAILGUNKEY" = key) \/
      (Getenv "MAILGUNKEY" = "" /\
       ReadFile (Getenv "HOME" +:+ "/.mailgun.key") = Ok key) \/
      (Getenv "MAILGUNKEY" = "" /\
       (exists e, ReadFile (Getenv "HOME" +:+ "/.mailgun.key") = Err e) /\
       ReadFile "/etc/mailgun.key" = Ok key))) /\
  Contains (mg.Domain cfg') "." = true /\
  HasPrefix (mg.APIKey cfg') "key-" = true /\
  cfg' = setKey cfg (mg.Domain cfg') (mg.APIKey cfg').
Proof.
  unfold readConfig. intros H.
  assert (G : forall src key,
             parseKey cfg src key = (tr, Ret cfg') ->
             tr = [] /\ Fields key = [mg.Domain cfg'; "api:" +:+ mg.APIKey cfg'] /\
             Contains (mg.Domain cfg') "." = true /\
             HasPrefix (mg.APIKey cfg') "key-" = true /\
             cfg' = setKey cfg (mg.Domain cfg') (mg.APIKey cfg')).
  { intros src key HK. apply parseKey_Ret in HK as (-> & d & k & HF & Hdot & ->).
    cbn [setKey mg.Domain mg.APIKey]. repeat split; try assumption.
    apply HasPrefix_app. }
  destruct (String.eqb (Getenv "MAILGUNKEY") "") eqn:E; cbn [negb] in H.
  - apply String.eqb_eq in E.
    destruct (ReadFile (Getenv "HOME" +:+ "/.mailgun.key")) as [data|e] eqn:E1.
    + destruct (G _ _ H) as (-> & HF & ? & ? & ?). repeat split; try assumption.
      exists data. split; [assumption|]. right. left. now split.
    + destruct (ReadFile "/etc/mailgun.key") as [data|e'] eqn:E2; [|discriminate].
      destruct (G _ _ H) as (-> & HF & ? & ? & ?). repeat split; try assumption.
      exists data. split; [assumption|]. right. right. repeat split; eauto.
  - apply String.eqb_neq in E.
    destruct (G _ _ H) as (-> & HF & ? & ? & ?). repeat split; try assumption.
    exists (Getenv "MAILGUNKEY"). split; [assumption|]. left. now split.
Qed.

(** X5 (readConfig).  A source that exists is the only one tried: when
    the variable MAILGUNKEY is not empty, or else when the key file of
    the home directory can be read, and the text found there is not a
    well-formed key, the program exits with status 2 and names that
    source, whatever the remaining files hold. *)
Theorem readConfig_malformed_is_fatal (cfg : mg.Config) (src key : string) :
  (key <> "" /\ Getenv "MAILGUNKEY" = key /\ src = "$MAILGUNKEY") \/
  (Getenv "MAILGUNKEY" = "" /\ src = Getenv "HOME" +:+ "/.mailgun.key" /\
   ReadFile src = Ok key) ->
  (forall tr cfg', parseKey cfg src key <> (tr, Ret cfg')) ->
  readConfig cfg = mg.Die cfg ("malformed mailgun API key in " +:+ src).
Proof.
  intros Hsrc Hbad. apply parseKey_not_Ret in Hbad. unfold readConfig.
  destruct Hsrc as [(N & E & ->) | (E & -> & E1)].
  - rewrite E, (eqb_empty_false _ N). exact Hbad.
  - rewrite E, E1. exact Hbad.
Qed.

End ReadConfigFacts.

(** ** Addresses that do not parse *)

Section ParseFacts.
Import GoStr.
Context `{L : mail.Lib}.

(** X28 (ParseAddress).  [ParseAddress] fails only with the error of
    [mail.ParseAddress] on the same text, and only for a text that
    holds one of the special characters and is not of the form handled
    before the library is asked (ending with a closing angle bracket,
    not starting with a double quote, holding an opening angle
    bracket).  A text without special characters, be it empty or
    without an at sign, is never rejected. *)
Theorem ParseAddress_fails_only_in_net_mail (addr e : string) :
  mg.ParseAddress addr = Err e ->
  mail.ParseAddress addr = Err e
  /\ ContainsAny addr mg.specials = true
  /\ ~ (HasSuffix addr ">" = true /\ HasPrefix addr (String DQUOTE "") = false
        /\ 0 <= LastIndexByte addr "<").
Proof.
  unfold mg.ParseAddress.
  destruct (ContainsAny addr mg.specials); cbn [negb]; [|discriminate].
  destruct (HasSuffix addr ">") eqn:Hs; cbn [andb].
  - destruct (HasPrefix addr (String DQUOTE "")) eqn:Hp; cbn [negb].
    + intros H. repeat split; [exact H|]. intros (_ & Hq & _). discriminate.
    + destruct (0 <=? LastIndexByte addr "<") eqn:Hi; [discriminate|].
      intros H. repeat split; [exact H|]. intros (_ & _ & Hlt).
      apply Z.leb_gt in Hi. lia.
  - intros H. repeat split; [exact H|]. intros (Hq & _). discriminate.
Qed.

End ParseFacts.

(** ** The local domain in the addresses of a message *)

Section FixFacts.
Import GoStr.

Lemma FixLocalAddr_has_at (domain : string) (a : mail.Address) :
  Contains (mail.Addr (mg.FixLocalAddr domain a)) "@" = true.
Proof.
  unfold mg.FixLocalAddr. destruct (Contains (mail.Addr a) "@") eqn:E; cbn [negb].
  - exact E.
  - apply Contains_at_suffix.
Qed.

Lemma FixLocalAddr_Name (domain : string) (a : mail.Address) :
  mail.Name (mg.FixLocalAddr domain a) = mail.Name a.
Proof. unfold mg.FixLocalAddr. now destruct (negb (Contains (mail.Addr a) "@")). Qed.

Lemma FixLocalAddrs_has_at (domain : string) (l : list mail.Address) :
  Forall (fun a => Contains (mail.Addr a) "@" = true) (mg.FixLocalAddrs domain l).
Proof.
  induction l as [|a l IH]; [constructor|].
  constructor; [apply FixLocalAddr_has_at | exact IH].
Qed.

Lemma FixLocalAddrs_Name (domain : string) (l : list mail.Address) :
  map mail.Name (mg.FixLocalAddrs domain l) = map mail.Name l.
Proof.
  induction l as [|a l IH]; [reflexivity|].
  unfold mg.FixLocalAddrs in *. cbn [map]. now rewrite FixLocalAddr_Name, IH.
Qed.

(** X6 (FixLocalAddr, FixLocalAddrs, Mail).  After the four fix-up calls
    at the head of [Mail], the sender and every recipient of the three
    lists has an address with an at sign; the lists keep their names in
    their order (so their lengths too), and subject, body and the list
    of attachments are as they were. *)
Theorem fixMessage_qualifies_every_address (domain : string) (msg : mg.Message) :
  Forall (fun a => Contains (mail.Addr a) "@" = true)
    (mg.From (mg.fixMessage domain msg)
     :: mg.To (mg.fixMessage domain msg) ++ mg.CC (mg.fixMessage domain msg)
        ++ mg.BCC (mg.fixMessage domain msg))
  /\ mail.Name (mg.From (mg.fixMessage domain msg)) = mail.Name (mg.From msg)
  /\ map mail.Name (mg.To (mg.fixMessage domain msg)) = map mail.Name (mg.To msg)
  /\ map mail.Name (mg.CC (mg.fixMessage domain msg)) = map mail.Name (mg.CC msg)
  /\ map mail.Name (mg.BCC (mg.fixMessage domain msg)) = map mail.Name (mg.BCC msg)
  /\ mg.Subject (mg.fixMessage domain msg) = mg.Subject msg
  /\ mg.Body (mg.fixMessage domain msg) = mg.Body msg
  /\ mg.Attachments (mg.fixMessage domain msg) = mg.Attachments msg.
Proof.
  cbn [mg.fixMessage mg.From mg.To mg.CC mg.BCC mg.Subject mg.Body mg.Attachments].
  split.
  - constructor; [apply FixLocalAddr_has_at|].
    rewrite !Forall_app. repeat split; apply FixLocalAddrs_has_at.
  - rewrite FixLocalAddr_Name, !FixLocalAddrs_Name. repeat split.
Qed.

End FixFacts.

(** ** Attachments *)

Section AttachFacts.
Import GoStr mg_attach.
Context `{L : mail.Lib} `{S : Sys}.

Lemma attach_Ret (cfg : mg.Config) (files : list string) :
  forall (tr : list event) (parts : list multipart.Part),
    mg.attach cfg files = (tr, Ret parts) -> tr = [] /\ Forall2 attached files parts.
Proof.
  induction files as [|f files IH]; intros tr parts H.
  - apply ret_Ret in H as [-> <-]. split; [reflexivity | constructor].
  - cbn [mg.attach] in H. destruct (os_Open f) as [e|e|data] eqn:E; try discriminate.
    apply bind_Ret in H as (t1 & ps & t2 & H1 & H2 & ->).
    apply ret_Ret in H2 as [-> <-]. destruct (IH _ _ H1) as [-> HF].
    split; [reflexivity|]. constructor; [|exact HF]. now exists data.
Qed.

Lemma attach_readable (cfg : mg.Config) (files : list string)
    (parts : list multipart.Part) :
  Forall2 attached files parts -> mg.attach cfg files = ret parts.
Proof.
  induction 1 as [|f p files parts (data & E & ->) _ IH]; [reflexivity|].
  cbn [mg.attach]. now rewrite E, IH.
Qed.


(** X7 (Mail, the loop over the attachments).  The loop goes through
    exactly when every file can be opened and copied; it then has
    written one part per file, in the order of the list, named
    [attachment], with the base name of the file as file name and the
    contents of the file as data, and has printed and logged nothing. *)
Theorem attach_one_part_per_file (cfg : mg.Config) (files : list string)
    (tr : list event) (parts : list multipart.Part) :
  mg.attach cfg files = (tr, Ret parts) <->
  tr = [] /\
  Forall2 (fun file p =>
             exists data, os_Open file = Contents data /\
                          p = multipart.FormFile "attachment" (filepath_Base file) data)
    files parts.
Proof.
  split.
  - apply attach_Ret.
  - intros [-> HF]. now apply attach_readable.
Qed.


End AttachFacts.

(** ** The command line of mailgun-sendmail *)

Section CommandLineFacts.
Import GoStr bufio mailgun_sendmail sendmail_settings.
Local Open Scope proc_scope.
Context `{L : mail.Lib} `{S : Sys}.

Lemma setTo_Ret (cfg : mg.Config) (l : list string) :
  forall (to to' : list mail.Address) (tr : list event),
    setTo cfg to l = (tr, Ret to') ->
    tr = [] /\ exists addrs,
      Forall2 (fun arg a => mg.ParseAddress arg = Ok a) l addrs /\ to' = to ++ addrs.
Proof.
  induction l as [|arg l IH]; intros to to' tr H.
  - apply ret_Ret in H as [-> <-]. split; [reflexivity|]. exists [].
    split; [constructor | now rewrite app_nil_r].
  - cbn [setTo] in H. unfold mg.AddrListFlag_Set in H.
    destruct (mg.ParseAddress arg) as [a|e] eqn:E; [|discriminate].
    destruct (IH _ _ _ H) as (-> & addrs & HF & ->). split; [reflexivity|].
    exists (a :: addrs). split; [now constructor | now rewrite <- app_assoc].
Qed.

Lemma setTo_parsed (cfg : mg.Config) (l : list string) (addrs : list mail.Address) :
  Forall2 (fun arg a => mg.ParseAddress arg = Ok a) l addrs ->
  forall to, setTo cfg to l = ret (to ++ addrs).
Proof.
  induction 1 as [|arg a l addrs E _ IH]; intros to.
  - now rewrite app_nil_r.
  - cbn [setTo]. unfold mg.AddrListFlag_Set. rewrite E, IH. now rewrite <- app_assoc.
Qed.

Lemma setTo_same (cfg : mg.Config) (l : list string) :
  forall to, mailgun_mail.setTo cfg to l = setTo cfg to l.
Proof.
  induction l as [|arg l IH]; intros to; [reflexivity|].
  cbn [setTo mailgun_mail.setTo]. destruct (mg.AddrListFlag_Set to arg); [apply IH | reflexivity].
Qed.

(** X9 (main of both commands, the loop over the arguments;
    AddrListFlag.Set).  The loop goes through exactly when
    [ParseAddress] accepts every argument; the recipients are then the
    addresses already there followed by the parsed arguments in their
    order, and nothing has been printed or logged.  The two commands
    have the same loop. *)
Theorem setTo_appends_parsed_arguments (cfg : mg.Config) (l : list string)
    (to to' : list mail.Address) (tr : list event) :
  (setTo cfg to l = (tr, Ret to') <->
   tr = [] /\ exists addrs,
     Forall2 (fun arg a => mg.ParseAddress arg = Ok a) l addrs /\ to' = to ++ addrs)
  /\ mailgun_mail.setTo cfg to l = setTo cfg to l.
Proof.
  split; [|apply setTo_same]. split.
  - apply setTo_Ret.
  - intros (-> & addrs & HF & ->). now apply setTo_parsed.
Qed.

(** X10 (main of both commands, the loop over the arguments).  The
    first argument that [ParseAddress] rejects ends the program: exit
    status 2 with the error after [cannot parse To: address: ],
    whatever the arguments after it. *)
Theorem setTo_first_bad_argument (cfg : mg.Config) (pre : list string)
    (addrs : list mail.Address) (arg e : string) (rest : list string)
    (to : list mail.Address) :
  Forall2 (fun arg a => mg.ParseAddress arg = Ok a) pre addrs ->
  mg.ParseAddress arg = Err e ->
  setTo cfg to (pre ++ arg :: rest) = mg.Die cfg ("cannot parse To: address: " +:+ e)
  /\ mailgun_mail.setTo cfg to (pre ++ arg :: rest)
     = mg.Die cfg ("cannot parse To: address: " +:+ e).
Proof.
  intros HF E. rewrite (setTo_same cfg (pre ++ arg :: rest) to).
  assert (G : setTo cfg to (pre ++ arg :: rest)
              = mg.Die cfg ("cannot parse To: address: " +:+ e)); [|now split].
  revert to. induction HF as [|x a pre addrs Ex _ IH]; intros to.
  - cbn [app setTo]. unfold mg.AddrListFlag_Set. now rewrite E.
  - cbn [app setTo]. unfold mg.AddrListFlag_Set. rewrite Ex. apply IH.
Qed.

Lemma setDebug_same (cfg : mg.Config) :
  setDebug cfg (mg.DebugHTTP cfg) (mg.DisableMail cfg) = cfg.
Proof. now destruct cfg. Qed.

Lemma debugValues_Ret_iff (values : list string) :
  forall (cfg cfg' : mg.Config) (tr : list event),
    debugValues cfg values = (tr, Ret cfg') <->
    tr = [] /\ Forall (fun v => v = "http" \/ v = "nosend") values /\
    cfg' = setDebug cfg (mg.DebugHTTP cfg || given "http" values)
             (mg.DisableMail cfg || given "nosend" values).
Proof.
  induction values as [|v values IH]; intros cfg cfg' tr.
  - cbn [debugValues given existsb]. rewrite !orb_false_r, setDebug_same. split.
    + intros H. apply ret_Ret in H as [-> <-]. repeat split. constructor.
    + intros (-> & _ & ->). reflexivity.
  - cbn [debugValues given existsb].
    destruct (String.eqb v "http") eqn:E1; [|destruct (String.eqb v "nosend") eqn:E2].
    + apply String.eqb_eq in E1 as ->. rewrite IH.
      cbn [mg.DebugHTTP mg.DisableMail]. unfold setDebug.
      cbn [mg.IsTTY mg.Domain mg.APIKey mg.User mg.Verbose mg.Prog mg.Argv String.eqb
           Ascii.eqb Bool.eqb orb].
      rewrite orb_true_r. fold (given "nosend" values).
      split; intros (-> & HF & ->); repeat split; try assumption.
      * constructor; [now left | assumption].
      * now apply Forall_cons in HF as [_ HF].
    + apply String.eqb_eq in E2 as ->. rewrite IH.
      cbn [mg.DebugHTTP mg.DisableMail]. unfold setDebug.
      cbn [mg.IsTTY mg.Domain mg.APIKey mg.User mg.Verbose mg.Prog mg.Argv String.eqb
           Ascii.eqb Bool.eqb orb].
      rewrite orb_true_r. fold (given "http" values).
      split; intros (-> & HF & ->); repeat split; try assumption.
      * constructor; [now right | assumption].
      * now apply Forall_cons in HF as [_ HF].
    + split; [discriminate|]. intros (_ & HF & _).
      apply Forall_cons in HF as [[-> | ->] _]; discriminate.
Qed.

(** X11 (main of mailgun-sendmail, the loop over [dflag]).  The loop
    goes through exactly when every value given with [-d] is [http] or
    [nosend]; [DebugHTTP] is then set when it was set or [http] is
    among the values, [DisableMail] when it was set or [nosend] is
    among them, the other variables are unchanged, and nothing has been
    printed or logged. *)
Theorem debugValues_sets_the_named_modes (values : list string)
    (cfg cfg' : mg.Config) (tr : list event) :
  debugValues cfg values = (tr, Ret cfg') <->
  tr = [] /\ Forall (fun v => v = "http" \/ v = "nosend") values /\
  cfg' = setDebug cfg (mg.DebugHTTP cfg || given "http" values)
           (mg.DisableMail cfg || given "nosend" values).
Proof. apply debugValues_Ret_iff. Qed.

Lemma harvest_Ret_iff (cfg : mg.Config) (h : mail.Header) (keys : list string) :
  forall (to to' : list mail.Address) (tr : list event),
    harvest cfg h to keys = (tr, Ret to') <->
    tr = [] /\ exists lists, Forall2 (taken h) keys lists /\ to' = to ++ concat lists.
Proof.
  induction keys as [|key keys IH]; intros to to' tr.
  - cbn [harvest]. split.
    + intros H. apply ret_Ret in H as [-> <-]. split; [reflexivity|].
      exists []. split; [constructor | now rewrite app_nil_r].
    + intros (-> & lists & HF & ->). inversion HF; subst.
      cbn [concat]. now rewrite app_nil_r.
  - cbn [harvest]. destruct (length (default [] (h !! key)) =? 0)%nat eqn:E.
    + rewrite IH. split.
      * intros (-> & lists & HF & ->). split; [reflexivity|]. exists ([] :: lists).
        split; [|reflexivity]. constructor; [|exact HF]. unfold taken. now rewrite E.
      * intros (-> & lists & HF & ->). split; [reflexivity|].
        inversion HF as [|k l ks ls Hk Hks]; subst. unfold taken in Hk. rewrite E in Hk.
        subst l. exists ls. now split.
    + destruct (mail.AddressList h key) as [addrs|e] eqn:EA.
      * rewrite IH. split.
        -- intros (-> & lists & HF & ->). split; [reflexivity|]. exists (addrs :: lists).
           split; [|cbn [concat]; now rewrite app_assoc].
           constructor; [|exact HF]. unfold taken. now rewrite E.
        -- intros (-> & lists & HF & ->). split; [reflexivity|].
           inversion HF as [|k l ks ls Hk Hks]; subst. unfold taken in Hk.
           rewrite E, EA in Hk. injection Hk as <-. exists ls.
           split; [exact Hks | cbn [concat]; now rewrite app_assoc].
      * split; [discriminate|]. intros (_ & lists & HF & _).
        inversion HF as [|k l ks ls Hk Hks]; subst. unfold taken in Hk.
        rewrite E, EA in Hk. discriminate.
Qed.

Lemma harvest_appends_lists (cfg : mg.Config) (h : mail.Header)
    (to to' : list mail.Address) (tr : list event) :
  harvest cfg h to ["To"; "Cc"; "Bcc"] = (tr, Ret to') <->
  tr = [] /\ exists toList ccList bccList,
    taken h "To" toList /\ taken h "Cc" ccList /\ taken h "Bcc" bccList /\
    to' = to ++ toList ++ ccList ++ bccList.
Proof.
  rewrite harvest_Ret_iff. split.
  - intros (-> & lists & HF & ->). split; [reflexivity|].
    inversion HF as [|k1 l1 ks1 ls1 H1 HF1]; subst.
    inversion HF1 as [|k2 l2 ks2 ls2 H2 HF2]; subst.
    inversion HF2 as [|k3 l3 ks3 ls3 H3 HF3]; subst.
    inversion HF3; subst. exists l1, l2, l3. repeat split; try assumption.
    cbn [concat]. now rewrite app_nil_r.
  - intros (-> & l1 & l2 & l3 & H1 & H2 & H3 & ->). split; [reflexivity|].
    exists [l1; l2; l3]. split; [repeat constructor; assumption|].
    cbn [concat]. now rewrite app_nil_r.
Qed.

(** X12 (main of mailgun-sendmail, the loop over To, Cc and Bcc under
    [-t]).  The loop goes through exactly when the address list of
    every field that is present parses; the recipients are then those
    of the command line, followed by the addresses of To, of Cc and of
    Bcc in this order, and nothing has been printed or logged. *)
Theorem harvest_appends_To_Cc_Bcc (cfg : mg.Config) (h : mail.Header)
    (to to' : list mail.Address) (tr : list event) :
  harvest cfg h to ["To"; "Cc"; "Bcc"] = (tr, Ret to') <->
  tr = [] /\ exists toList ccList bccList,
    taken h "To" toList /\ taken h "Cc" ccList /\ taken h "Bcc" bccList /\
    to' = to ++ toList ++ ccList ++ bccList.
Proof. apply harvest_appends_lists. Qed.

End CommandLineFacts.

(** ** What mailgun-sendmail hands to MailMIME *)

Section PrepareFacts.
Import GoStr bufio mailgun_sendmail sendmail_settings.
Local Open Scope proc_scope.
Context `{L : mail.Lib} `{S : Sys}.

Lemma msgCopy_Ret (cfg : mg.Config) (fl : Flags) (stdin : Input)
    (tr : list event) (text : string) :
  msgCopy cfg fl stdin = (tr, Ret text) ->
  tr = [] /\
  text = fst (msgCopy_loop (mg.IsTTY cfg && negb (iflag fl)) true (readLines (data stdin))).
Proof.
  unfold msgCopy. destruct (msgCopy_loop _ _ _) as [out [rest|]]; cbn [fst].
  - intros H. apply ret_Ret in H as [-> <-]. now split.
  - destruct (failure stdin); [discriminate|].
    intros H. apply ret_Ret in H as [-> <-]. now split.
Qed.

Lemma prepare_inv (cfg : mg.Config) (fl : Flags) (stdin : Input)
    (tr : list event) (m : Relay) :
  prepare cfg fl stdin = (tr, Ret m) ->
  tr = [] /\
  Forall (fun v => v = "http" \/ v = "nosend") (dflag fl) /\
  config m = setVerbose (setDebug cfg (mg.DebugHTTP cfg || given "http" (dflag fl))
                           (mg.DisableMail cfg || given "nosend" (dflag fl))) (vflag fl) /\
  bflag fl = "m" /\
  (fflag fl <> "" \/ mg.User cfg <> "") /\
  from m = mg.FixLocalAddr (mg.Domain cfg)
             (mail.mkAddress (Fflag fl)
                (if String.eqb (fflag fl) "" then mg.User cfg else fflag fl)) /\
  exists to0 msg,
    Forall2 (fun arg a => mg.ParseAddress arg = Ok a) (args fl) to0 /\
    mail.ReadMessage
      (fst (msgCopy_loop (mg.IsTTY cfg && negb (iflag fl)) true (readLines (data stdin))))
      = Ok msg /\
    if tflag fl
    then to m <> [] /\
         exists toList ccList bccList,
           taken (mail.Header_ msg) "To" toList /\ taken (mail.Header_ msg) "Cc" ccList /\
           taken (mail.Header_ msg) "Bcc" bccList /\
           to m = to0 ++ toList ++ ccList ++ bccList
    else args fl <> [] /\ to m = to0.
Proof.
  unfold prepare. intros H.
  apply bind_Ret in H as (t1 & cfg1 & t2 & Hdbg & H & ->).
  apply debugValues_Ret_iff in Hdbg as (-> & Hvalues & ->).
  destruct (String.eqb (bflag fl) "m") eqn:Hb; cbn [negb] in H; [|discriminate].
  apply String.eqb_eq in Hb.
  destruct ((length (args fl) =? 0)%nat && negb (tflag fl)) eqn:Hargs; [discriminate|].
  apply bind_Ret in H as (t3 & to0 & t4 & Hto & H & ->).
  apply setTo_Ret in Hto as (-> & addrs & Hparse & ->). cbn [app] in *.
  apply bind_Ret in H as (t5 & from0 & t6 & Hfrom & H & ->).
  apply bind_Ret in H as (t7 & text & t8 & Htext & H & ->).
  apply msgCopy_Ret in Htext as [-> ->].
  cbn [setVerbose setDebug mg.IsTTY mg.Domain mg.User] in *.
  destruct (mail.ReadMessage _) as [msg|e] eqn:Hmsg; [|discriminate].
  apply bind_Ret in H as (t9 & to1 & t10 & Hto1 & H & ->).
  apply ret_Ret in H as [-> <-]. cbn [config from to].
  assert (Hsender : t5 = [] /\ (fflag fl <> "" \/ mg.User cfg <> "") /\
            from0 = mail.mkAddress (Fflag fl)
                      (if String.eqb (fflag fl) "" then mg.User cfg else fflag fl)).
  { destruct (String.eqb (fflag fl) "") eqn:Ef; cbn [negb] in Hfrom.
    - destruct (String.eqb (mg.User cfg) "") eqn:Eu; [discriminate|].
      apply ret_Ret in Hfrom as [-> <-]. apply String.eqb_neq in Eu. auto.
    - apply ret_Ret in Hfrom as [-> <-]. apply String.eqb_neq in Ef. auto. }
  destruct Hsender as (-> & Hsrc & ->).
  assert (Hrcpt : t9 = [] /\
            if tflag fl
            then to1 <> [] /\
                 exists toList ccList bccList,
                   taken (mail.Header_ msg) "To" toList /\
                   taken (mail.Header_ msg) "Cc" ccList /\
                   taken (mail.Header_ msg) "Bcc" bccList /\
                   to1 = addrs ++ toList ++ ccList ++ bccList
            else args fl <> [] /\ to1 = addrs).
  { destruct (tflag fl).
    - apply bind_Ret in Hto1 as (t11 & to2 & t12 & Hh & Hto1 & ->).
      destruct (length to2 =? 0)%nat eqn:El; [discriminate|].
      apply ret_Ret in Hto1 as [-> <-].
      apply harvest_appends_lists in Hh as (-> & l1 & l2 & l3 & H1 & H2 & H3 & ->).
      split; [reflexivity|]. split.
      + intros E0. rewrite E0 in El. discriminate.
      + now exists l1, l2, l3.
    - apply ret_Ret in Hto1 as [-> <-]. split; [reflexivity|]. split; [|reflexivity].
      rewrite andb_true_r in Hargs. intros E0. rewrite E0 in Hargs. discriminate. }
  destruct Hrcpt as [-> Hrcpt].
  split; [reflexivity|]. split; [assumption|]. split; [reflexivity|].
  split; [assumption|]. split; [assumption|]. split; [reflexivity|].
  exists addrs, msg. repeat split; assumption.
Qed.

(** X13 (main of mailgun-sendmail, up to the call of MailMIME).  A run
    that reaches [MailMIME] has printed and logged nothing; the mode
    was [-b m]; every [-d] value was [http] or [nosend] and has set its
    variable; [Verbose] is [-v]; the full name of the sender is that of
    [-F]; its address is that of [-f] (or [-r]), else the user name,
    one of them not empty, with the Mailgun domain added unless it held
    an at sign: the sender's address always holds one. *)
Theorem prepare_settings_and_sender (cfg : mg.Config) (fl : Flags) (stdin : Input)
    (tr : list event) (m : Relay) :
  prepare cfg fl stdin = (tr, Ret m) ->
  tr = [] /\ bflag fl = "m" /\
  Forall (fun v => v = "http" \/ v = "nosend") (dflag fl) /\
  config m = setVerbose (setDebug cfg (mg.DebugHTTP cfg || given "http" (dflag fl))
                           (mg.DisableMail cfg || given "nosend" (dflag fl))) (vflag fl) /\
  (fflag fl <> "" \/ mg.User cfg <> "") /\
  from m = mg.FixLocalAddr (mg.Domain cfg)
             (mail.mkAddress (Fflag fl)
                (if String.eqb (fflag fl) "" then mg.User cfg else fflag fl)) /\
  mail.Name (from m) = Fflag fl /\
  Contains (mail.Addr (from m)) "@" = true.
Proof.
  intros H. apply prepare_inv in H as (-> & Hd & Hc & Hb & Hsrc & Hfrom & _).
  repeat split; try assumption.
  - rewrite Hfrom. apply FixLocalAddr_Name.
  - rewrite Hfrom. apply FixLocalAddr_has_at.
Qed.

(** X14 (main of mailgun-sendmail, the recipients).  In a run that
    reaches [MailMIME] there is at least one recipient.  Without [-t]
    the recipients are exactly the arguments as [ParseAddress] reads
    them, in their order, and the fields To, Cc and Bcc of the message
    add nothing; with [-t] the addresses of To, of Cc and of Bcc follow
    them, in this order. *)
Theorem prepare_recipients (cfg : mg.Config) (fl : Flags) (stdin : Input)
    (tr : list event) (m : Relay) :
  prepare cfg fl stdin = (tr, Ret m) ->
  to m <> [] /\
  exists to0 msg,
    Forall2 (fun arg a => mg.ParseAddress arg = Ok a) (args fl) to0 /\
    mail.ReadMessage
      (fst (msgCopy_loop (mg.IsTTY cfg && negb (iflag fl)) true (readLines (data stdin))))
      = Ok msg /\
    if tflag fl
    then exists toList ccList bccList,
           taken (mail.Header_ msg) "To" toList /\ taken (mail.Header_ msg) "Cc" ccList /\
           taken (mail.Header_ msg) "Bcc" bccList /\
           to m = to0 ++ toList ++ ccList ++ bccList
    else to m = to0.
Proof.
  intros H. apply prepare_inv in H as (_ & _ & _ & _ & _ & _ & to0 & msg & Hp & Hm & Ht).
  destruct (tflag fl).
  - destruct Ht as [Hne Hl]. split; [assumption|]. now exists to0, msg.
  - destruct Ht as [Hne ->]. split.
    + intros ->. inversion Hp; subst. congruence.
    + now exists to0, msg.
Qed.

End PrepareFacts.

(** ** The copy of standard input in mailgun-sendmail *)

Section CopyFacts.
Import GoStr bufio mailgun_sendmail framing.
Local Open Scope proc_scope.
Context `{W : Sys}.

Lemma readLines_nil (s : string) : readLines s = [] -> s = "".
Proof.
  destruct s as [|a s]; [reflexivity|]. cbn [readLines].
  destruct (Ascii.eqb a LF); [discriminate|]. destruct (readLines s); discriminate.
Qed.

Lemma readLines_nonempty (s : string) : Forall (fun l => l <> "") (readLines s).
Proof.
  induction s as [|a s IH]; [constructor|]. cbn [readLines].
  destruct (Ascii.eqb a LF).
  - constructor; [discriminate | exact IH].
  - destruct (readLines s) as [|l ls]; [repeat constructor; discriminate|].
    apply Forall_cons in IH as [_ IH]. constructor; [discriminate | exact IH].
Qed.

(** The lines that [ReadBytes] returns are the input, cut. *)
Lemma sconcat_readLines (s : string) : sconcat (readLines s) = s.
Proof.
  induction s as [|a s IH]; [reflexivity|]. cbn [readLines].
  destruct (Ascii.eqb a LF).
  - cbn [sconcat fold_right]. fold (sconcat (readLines s)). now rewrite IH.
  - destruct (readLines s) as [|l ls] eqn:E.
    + apply readLines_nil in E as ->. reflexivity.
    + cbn [sconcat fold_right] in *. rewrite sapp_cons. now rewrite IH.
Qed.

Lemma last_cons (a : ascii) (l : string) : l <> "" -> last_ (String a l) = last_ l.
Proof.
  destruct l as [|b l]; [congruence|]. intros _. unfold last_, at_.
  cbn [String.length]. replace (S (S (String.length l)) - 1)%nat with (S (String.length l)) by lia.
  replace (S (String.length l) - 1)%nat with (String.length l) by lia.
  reflexivity.
Qed.

Lemma written_cons (a : ascii) (l : string) :
  l <> "" -> written (String a l) = String a (written l).
Proof.
  intros N. unfold written, unterminated. rewrite (last_cons a l N). now rewrite sapp_cons.
Qed.

Lemma written_LF : written nl = nl.
Proof. reflexivity. Qed.

Lemma terminated_cons (a : ascii) (s : string) :
  s <> "" -> terminated (String a s) = String a (terminated s).
Proof. intros N. destruct s; [congruence|]. cbn [terminated]. now apply written_cons. Qed.

(** Every line that [ReadBytes] returns ends with a line feed, except
    possibly the last one: writing the lines with [written] gives the
    input, ended by a line feed. *)
Lemma sconcat_written_readLines (s : string) :
  sconcat (map written (readLines s)) = terminated s.
Proof.
  induction s as [|a s IH]; [reflexivity|]. cbn [readLines].
  destruct (Ascii.eqb a LF) eqn:Ea.
  - apply Ascii.eqb_eq in Ea as ->. cbn [map sconcat fold_right].
    fold (sconcat (map written (readLines s))). rewrite IH.
    change (written (String LF "")) with (String LF "").
    destruct s as [|b s]; [reflexivity|].
    rewrite (terminated_cons LF (String b s)) by discriminate. reflexivity.
  - destruct (readLines s) as [|l ls] eqn:E.
    + apply readLines_nil in E as ->. cbn [map sconcat fold_right terminated].
      apply sapp_nil_r.
    + assert (Nl : l <> "").
      { pose proof (readLines_nonempty s) as HF. rewrite E in HF.
        now apply Forall_cons in HF as [? _]. }
      assert (Ns : s <> "") by (intros ->; discriminate).
      cbn [map sconcat fold_right] in *. rewrite written_cons by assumption.
      rewrite sapp_cons, IH. now rewrite (terminated_cons a s Ns).
Qed.

Lemma msgCopy_loop_no_dots (hdr : bool) (lines : list string) :
  snd (msgCopy_loop false hdr lines) = None.
Proof.
  revert hdr. induction lines as [|l lines IH]; intros hdr; [reflexivity|].
  cbn [msgCopy_loop andb]. specialize (IH (if hdr && endsHeader l then false else hdr)).
  destruct (msgCopy_loop false _ lines). exact IH.
Qed.

Lemma msgCopy_loop_framed (lines : list string) :
  blankEndsHeader lines = true ->
  fst (msgCopy_loop false true lines) = sconcat (map written lines).
Proof.
  induction lines as [|l lines IH]; [reflexivity|].
  cbn [blankEndsHeader msgCopy_loop andb map sconcat fold_right].
  fold (sconcat (map written lines)).
  destruct (endsHeader l) eqn:E; intros H.
  - rewrite msgCopy_loop_body by (apply Forall_forall; intros; reflexivity).
    rewrite H. reflexivity.
  - specialize (IH H). destruct (msgCopy_loop false true lines) as [out u].
    cbn [fst] in *. now rewrite IH.
Qed.

(** X15 (msgCopy).  When a lone dot does not end the input (standard
    input is not a terminal, or [-i] is given), the input ends without
    a read error, and the first line that ends the header, if any, is
    an empty line, [msgCopy] writes the input as it is, every lone dot
    included, with one line feed added when the input does not end with
    one. *)
Theorem msgCopy_copies_framed_input (cfg : mg.Config) (fl : Flags) (stdin : Input) :
  mg.IsTTY cfg && negb (iflag fl) = false ->
  failure stdin = None ->
  blankEndsHeader (readLines (data stdin)) = true ->
  msgCopy cfg fl stdin = ret (terminated (data stdin)).
Proof.
  intros Hdots Hfail Hframe. unfold msgCopy. rewrite Hdots, Hfail.
  pose proof (msgCopy_loop_no_dots true (readLines (data stdin))) as Hu.
  pose proof (msgCopy_loop_framed _ Hframe) as Ho.
  destruct (msgCopy_loop false true (readLines (data stdin))) as [out u].
  cbn [fst snd] in *. subst u. now rewrite Ho, sconcat_written_readLines.
Qed.

Lemma msgCopy_loop_dot (hdr : bool) (pre : list string) (line : string)
    (rest : list string) :
  Forall (fun l => dotLine l = false) pre ->
  dotLine line = true ->
  msgCopy_loop true hdr (pre ++ line :: rest) = (fst (msgCopy_loop false hdr pre), Some rest).
Proof.
  intros HF Hdot. revert hdr. induction HF as [|l pre Hl _ IH]; intros hdr.
  - cbn [app msgCopy_loop andb fst]. now rewrite Hdot.
  - cbn [app msgCopy_loop andb]. rewrite Hl.
    rewrite (IH (if hdr && endsHeader l then false else hdr)).
    destruct (msgCopy_loop false _ pre) as [out u]. reflexivity.
Qed.

(** X16 (msgCopy).  On a terminal without [-i], the first line that
    holds only a dot ends the copy: what has been written is what the
    lines before it give when they are the whole input, the lines after
    the dot are not read, and a read error that would have ended the
    input is not met. *)
Theorem msgCopy_stops_at_first_dot (cfg : mg.Config) (fl : Flags) (stdin : Input)
    (pre : list string) (line : string) (rest : list string) :
  mg.IsTTY cfg = true -> iflag fl = false ->
  readLines (data stdin) = pre ++ line :: rest ->
  Forall (fun l => dotLine l = false) pre ->
  dotLine line = true ->
  msgCopy_loop true true (readLines (data stdin))
  = (fst (msgCopy_loop false true pre), Some rest)
  /\ msgCopy cfg fl stdin = ret (fst (msgCopy_loop false true pre)).
Proof.
  intros Htty Hi Hlines Hpre Hdot.
  pose proof (msgCopy_loop_dot true pre line rest Hpre Hdot) as H.
  unfold msgCopy. rewrite Htty, Hi, Hlines. cbn [negb andb]. rewrite H. now split.
Qed.

Lemma written_suffix (line : string) : HasSuffix (written line) nl = true.
Proof.
  unfold written, unterminated. destruct (Ascii.eqb (last_ line) LF) eqn:E; cbn [negb].
  - rewrite sapp_nil_r. destruct line as [|a line].
    + discriminate E.
    + apply Ascii.eqb_eq in E.
      assert (G : exists pre, String a line = pre +:+ nl).
      { clear -E. revert a E. induction line as [|b line IH]; intros a E.
        - exists "". unfold last_, at_ in E. cbn in E. now subst a.
        - rewrite last_cons in E by discriminate. destruct (IH b E) as [pre ->].
          exists (String a pre). reflexivity. }
      destruct G as [pre ->]. apply HasSuffix_app.
  - apply HasSuffix_app.
Qed.

(** X17 (msgCopy).  Whatever the input, what [msgCopy] writes is empty
    or ends with a line feed: the reader of the message never meets a
    last line that is cut short. *)
Theorem msgCopy_writes_whole_lines (dots hdr : bool) (lines : list string) :
  fst (msgCopy_loop dots hdr lines) = ""
  \/ HasSuffix (fst (msgCopy_loop dots hdr lines)) nl = true.
Proof.
  revert hdr. induction lines as [|l lines IH]; intros hdr; [now left|].
  cbn [msgCopy_loop]. destruct (dots && dotLine l); [now left|]. right.
  specialize (IH (if hdr && endsHeader l then false else hdr)).
  destruct (msgCopy_loop dots _ lines) as [out u]. cbn [fst] in *.
  destruct IH as [-> | IH].
  - rewrite sapp_nil_r. pose proof (written_suffix l) as Hw.
    apply HasSuffix_inv in Hw as [pre ->]. rewrite <- sapp_assoc. apply HasSuffix_app.
  - apply HasSuffix_inv in IH as [pre ->]. rewrite <- !sapp_assoc. apply HasSuffix_app.
Qed.

End CopyFacts.

(** ** The input of mailgun-mail *)

Section MailInputFacts.
Import GoStr bufio mailgun_mail.
Local Open Scope proc_scope.
Context `{L : mail.Lib} `{W : Sys}.

Lemma dot_test (line : string) :
  (len line =? 2) && Ascii.eqb (at_ line 0) "." && Ascii.eqb (at_ line 1) LF = true
  <-> line = "." +:+ nl.
Proof.
  split.
  - intros H. apply andb_prop in H as [H H1]. apply andb_prop in H as [H2 H0].
    apply Z.eqb_eq in H2. apply Ascii.eqb_eq in H0, H1.
    destruct line as [|a [|b [|c line]]]; unfold len in H2; cbn [String.length] in H2; try lia.
    unfold at_ in H0, H1. cbn in H0, H1. now subst.
  - intros ->. reflexivity.
Qed.

Lemma ttyBody_dot (cfg : mg.Config) (failure : option string) (pre rest : list string) :
  Forall (fun l => l <> "." +:+ nl) pre ->
  forall d,
    ttyBody cfg failure d (pre ++ ("." +:+ nl) :: rest)
    = ret (mkDraft (to d) (cc d) (bcc d) (subject d) (body d +:+ sconcat pre) rest).
Proof.
  induction 1 as [|l pre Hl _ IH]; intros d.
  - cbn [app ttyBody sconcat fold_right]. rewrite sapp_nil_r. reflexivity.
  - cbn [app ttyBody].
    destruct ((len l =? 2) && Ascii.eqb (at_ l 0) "." && Ascii.eqb (at_ l 1) LF) eqn:E.
    + apply dot_test in E. contradiction.
    + rewrite IH. cbn [writeBody readTo to cc bcc subject body sconcat fold_right].
      now rewrite sapp_assoc.
Qed.

(** X18 (main of mailgun-mail, the message read from a terminal).  On a
    terminal the first line that holds only a dot ends the message: the
    body is the text written so far followed by the lines before the
    dot, unchanged; the lines after the dot are not read, a read error
    that would have ended the input is not met, and [EOT] is
    printed. *)
Theorem readBody_stops_at_first_dot (cfg : mg.Config) (failure : option string)
    (d : Draft) (pre rest : list string) :
  mg.IsTTY cfg = true ->
  unread d = pre ++ ("." +:+ nl) :: rest ->
  Forall (fun l => l <> "." +:+ nl) pre ->
  readBody cfg failure d =
    ([Stderr ("EOT" +:+ nl)],
     Ret (mkDraft (to d) (cc d) (bcc d) (subject d) (body d +:+ sconcat pre) rest)).
Proof.
  intros Htty Hun Hpre. unfold readBody. rewrite Htty, Hun.
  rewrite (ttyBody_dot cfg failure pre rest Hpre d). reflexivity.
Qed.

Lemma bind_ret_l {A B} (a : A) (f : A -> Proc B) : bind (ret a) f = f a.
Proof. unfold bind, ret. destruct (f a) as [t o]. reflexivity. Qed.

Lemma ingest_piped (cfg : mg.Config) (input : string)
    (to0 cc0 bcc0 : list mail.Address) (subject0 : string) :
  mg.IsTTY cfg = false ->
  ingest cfg false None (mkDraft to0 cc0 bcc0 subject0 "" (readLines input))
  = ret (mkDraft to0 cc0 bcc0 subject0 input []).
Proof.
  intros Htty. unfold ingest. cbn [ret bind]. unfold readBody. rewrite Htty.
  cbn [unread writeBody readTo to cc bcc subject body ret app].
  rewrite sconcat_readLines. reflexivity.
Qed.

(** X19 (main of mailgun-mail, input from a pipe or a file).  When
    standard input is not a terminal, [-t] is not given, the arguments
    parse and the sender is known, [main] hands to [Mail] the message
    whose body is the whole of standard input, byte for byte: no line
    is taken as the subject, a line with only a dot does not end it,
    and an empty input gives an empty body that is sent like any other,
    with or without [-E].  The recipients are the parsed arguments, CC
    and BCC those of [-c] and [-b], the subject that of the last [-s]
    or empty, the attachments those of [-a]; [-n], [-d] and [-v] set
    [DisableMail], [DebugHTTP] and [Verbose]. *)
Theorem mail_piped_message (cfg0 : mg.Config) (fl : Flags) (stdin : Input)
    (to0 : list mail.Address) (from : mail.Address) :
  mg.IsTTY cfg0 = false -> tflag fl = false -> failure stdin = None ->
  args fl <> [] ->
  Forall2 (fun arg a => mg.ParseAddress arg = Ok a) (args fl) to0 ->
  match last (rflag fl) with
  | Some r => mg.ParseAddress r = Ok from
  | None => mg.User cfg0 <> "" /\ from = mail.mkAddress "" (mg.User cfg0)
  end ->
  main cfg0 fl stdin =
    let cfg := mg.mkConfig (mg.IsTTY cfg0) (mg.Domain cfg0) (mg.APIKey cfg0) (mg.User cfg0)
                 (vflag fl) (dflag fl) (nflag fl) (mg.Prog cfg0) (mg.Argv cfg0) in
    let msg := mg.mkMessage from to0 (ccflag fl) (bccflag fl) (default "" (last (sflag fl)))
                 (data stdin) (aflag fl) in
    (if vflag fl then verbose msg else ret tt) >>
    let* cr := mg.Mail cfg msg in
    ret (Some cr).
Proof.
  intros Htty Ht Hfail Hargs Hparse Hfrom.
  destruct cfg0 as [tty dom key user vb dh dm prog argv].
  cbn [mg.IsTTY mg.User] in Htty, Hfrom. subst tty.
  unfold main. rewrite Ht, Hfail.
  destruct (args fl) as [|arg0 args0] eqn:Ea; [congruence|].
  cbn [length Nat.eqb andb]. rewrite (setTo_same _ (arg0 :: args0) []).
  rewrite (setTo_parsed _ _ _ Hparse []). rewrite bind_ret_l. cbn [app].
  cbn [mg.User mg.IsTTY mg.Domain mg.APIKey mg.Prog mg.Argv].
  destruct (last (rflag fl)) as [r|].
  - rewrite Hfrom, bind_ret_l.
    destruct (last (sflag fl)); rewrite bind_ret_l;
      rewrite ingest_piped by reflexivity; rewrite bind_ret_l; reflexivity.
  - destruct Hfrom as [Hu ->]. rewrite (eqb_empty_false _ Hu), bind_ret_l.
    destruct (last (sflag fl)); rewrite bind_ret_l;
      rewrite ingest_piped by reflexivity; rewrite bind_ret_l; reflexivity.
Qed.

(** X25 (main of mailgun-mail, the subject asked on a terminal).  On a
    terminal without [-s], when the input ends before a subject is
    typed, [main] returns without sending: it has printed the prompt
    and logged [no subject, no text, not sending], and [Mail] is not
    called, whatever recipients, attachments and other flags were
    given. *)
Theorem mail_no_subject_no_mail (cfg0 : mg.Config) (fl : Flags) (stdin : Input)
    (to0 : list mail.Address) (from : mail.Address) :
  mg.IsTTY cfg0 = true -> sflag fl = [] ->
  data stdin = "" -> failure stdin = None ->
  args fl <> [] \/ tflag fl = true ->
  Forall2 (fun arg a => mg.ParseAddress arg = Ok a) (args fl) to0 ->
  match last (rflag fl) with
  | Some r => mg.ParseAddress r = Ok from
  | None => mg.User cfg0 <> "" /\ from = mail.mkAddress "" (mg.User cfg0)
  end ->
  main cfg0 fl stdin =
    ([Stderr "Subject: ";
      LogPrintf (LogText (mg.User cfg0) (mg.Args cfg0) "no subject, no text, not sending")],
     Ret None).
Proof.
  intros Htty Hs Hdata Hfail Hargs Hparse Hfrom.
  destruct cfg0 as [tty dom key user vb dh dm prog argv].
  cbn [mg.IsTTY mg.User] in Htty, Hfrom. subst tty.
  unfold main. rewrite Hs, Hdata, Hfail.
  assert (Hgo : (length (args fl) =? 0)%nat && negb (tflag fl) = false).
  { destruct Hargs as [Hargs | ->]; [|apply andb_false_r].
    destruct (args fl); [congruence | reflexivity]. }
  rewrite Hgo. rewrite (setTo_same _ (args fl) []).
  rewrite (setTo_parsed _ _ _ Hparse []). cbn [ret bind app].
  cbn [mg.User mg.IsTTY mg.Domain mg.APIKey mg.Prog mg.Argv].
  destruct (last (rflag fl)).
  - rewrite Hfrom. reflexivity.
  - destruct Hfrom as [Hu ->]. rewrite (eqb_empty_false _ Hu). reflexivity.
Qed.

Lemma IndexByte_field (key v : string) :
  hasByte key ":" = false -> IndexByte (key +:+ ":" +:+ v) ":" = len key.
Proof.
  induction key as [|a key IH]; intros H; [reflexivity|].
  cbn [hasByte] in H. apply orb_false_elim in H as [Ha Hk].
  rewrite sapp_cons. cbn [IndexByte]. rewrite Ha, (IH Hk).
  pose proof (len_nonneg key). destruct (len key <? 0) eqn:E; [apply Z.ltb_lt in E; lia|].
  unfold len. cbn [String.length]. lia.
Qed.

Lemma slice_field_key (key v : string) : slice (key +:+ ":" +:+ v) 0 (len key) = key.
Proof.
  unfold slice, len. rewrite Z.sub_0_r, Nat2Z.id. change (Z.to_nat 0) with 0%nat.
  apply substring_app_l.
Qed.

Lemma slice_field_value (key v : string) :
  slice (key +:+ ":" +:+ v) (len key + 1) (len (key +:+ ":" +:+ v)) = v.
Proof.
  rewrite <- sapp_assoc. unfold slice. rewrite len_app.
  assert (E : len (key +:+ ":") = len key + 1) by (rewrite len_app; reflexivity).
  rewrite <- E. replace (len (key +:+ ":") + len v - len (key +:+ ":")) with (len v) by lia.
  unfold len. rewrite !Nat2Z.id, substring_app_r. apply substring_all.
Qed.

Lemma harvest_field (cfg : mg.Config) (failure : option string) (d : Draft)
    (key v : string) (rest : list string) :
  hasByte key ":" = false ->
  harvest cfg failure d ((key +:+ ":" +:+ v) :: rest) =
    if String.eqb (ToLower key) "subject" then
      harvest cfg failure (setSubject (TrimSpace v) (readTo rest d)) rest
    else if String.eqb (ToLower key) "to" then
      match mail.ParseAddressList (TrimSpace v) with
      | Err e => mg.Die cfg ("cannot parse To: list: " +:+ e)
      | Ok addrs => harvest cfg failure (appendTo listTo addrs (readTo rest d)) rest
      end
    else if String.eqb (ToLower key) "cc" then
      match mail.ParseAddressList (TrimSpace v) with
      | Err e => mg.Die cfg ("cannot parse CC: list: " +:+ e)
      | Ok addrs => harvest cfg failure (appendTo listCc addrs (readTo rest d)) rest
      end
    else if String.eqb (ToLower key) "bcc" then
      match mail.ParseAddressList (TrimSpace v) with
      | Err e => mg.Die cfg ("cannot parse BCC: list: " +:+ e)
      | Ok addrs => harvest cfg failure (appendTo listBcc addrs (readTo rest d)) rest
      end
    else
      emit (Stderr ("mailgun-mail: ignoring header field "
                    +:+ strconv_Quote (TrimSuffix (key +:+ ":" +:+ v) nl) +:+ nl)) >>
      match mail.ParseAddressList (TrimSpace v) with
      | Err e => mg.Die cfg ("cannot parse " +:+ key +:+ ": list: " +:+ e)
      | Ok _ => ([], Panic "invalid memory address or nil pointer dereference")
      end.
Proof.
  intros Hk. cbn [harvest]. rewrite (IndexByte_field key v Hk).
  pose proof (len_nonneg key). destruct (len key <? 0) eqn:E; [apply Z.ltb_lt in E; lia|].
  rewrite slice_field_key, slice_field_value. reflexivity.
Qed.

(** X20 (main of mailgun-mail, the loop under [-t]).  A line of the
    form name, colon, value, with no colon in the name, is read by its
    name without regard to the case of its letters and with the white
    space around the value removed: a subject line replaces the
    subject, and a To, Cc or Bcc line adds its addresses after those
    already in that list, or ends the program when the list does not
    parse.  The loop then goes on with the next line. *)
Theorem harvest_reads_field_line (cfg : mg.Config) (failure : option string) (d : Draft)
    (key v : string) (rest : list string) :
  hasByte key ":" = false ->
  (ToLower key = "subject" ->
   harvest cfg failure d ((key +:+ ":" +:+ v) :: rest)
   = harvest cfg failure
       (mkDraft (to d) (cc d) (bcc d) (TrimSpace v) (body d) rest) rest)
  /\ (forall w name,
        (ToLower key, w, name) ∈ [("to", listTo, "To"); ("cc", listCc, "CC");
                                  ("bcc", listBcc, "BCC")] ->
        harvest cfg failure d ((key +:+ ":" +:+ v) :: rest)
        = match mail.ParseAddressList (TrimSpace v) with
          | Err e => mg.Die cfg ("cannot parse " +:+ name +:+ ": list: " +:+ e)
          | Ok addrs => harvest cfg failure (appendTo w addrs (readTo rest d)) rest
          end).
Proof.
  intros Hk. rewrite (harvest_field cfg failure d key v rest Hk). split.
  - intros ->. reflexivity.
  - intros w name Hin. repeat (apply elem_of_cons in Hin as [Hin | Hin]).
    + injection Hin as -> -> ->. reflexivity.
    + injection Hin as -> -> ->. reflexivity.
    + injection Hin as -> -> ->. reflexivity.
    + now apply elem_of_nil in Hin.
Qed.

Lemma harvest_colon_line (cfg : mg.Config) (failure : option string) (d : Draft)
    (line : string) (rest : list string) :
  0 <= IndexByte line ":" ->
  exists key v, hasByte key ":" = false /\ line = key +:+ ":" +:+ v.
Proof.
  intros H. clear cfg failure d rest. induction line as [|a line IH]; [cbn in H; lia|].
  cbn [IndexByte] in H. destruct (Ascii.eqb a ":") eqn:E.
  - apply Ascii.eqb_eq in E as ->. now exists "", line.
  - destruct (IndexByte line ":" <? 0) eqn:E2; [lia|]. apply Z.ltb_ge in E2.
    destruct (IH E2) as (key & v & Hk & ->). exists (String a key), v. split.
    + cbn [hasByte]. now rewrite E, Hk.
    + reflexivity.
Qed.

Lemma harvest_unknown (cfg : mg.Config) (failure : option string)
    (pre : list string) (line : string) (rest : list string) :
  Forall (fun l => 0 <= IndexByte l ":") pre ->
  0 <= IndexByte line ":" ->
  ToLower (slice line 0 (IndexByte line ":")) ∉ ["subject"; "to"; "cc"; "bcc"] ->
  forall d,
    match snd (harvest cfg failure d (pre ++ line :: rest)) with
    | Ret _ => False
    | Exit code => code = 2
    | Panic _ => True
    end.
Proof.
  intros Hpre Hline Hkey. induction Hpre as [|l pre Hl _ IH]; intros d.
  - cbn [app]. destruct (harvest_colon_line cfg failure d line rest Hline)
      as (key & v & Hk & ->).
    rewrite (IndexByte_field key v Hk), slice_field_key in Hkey.
    rewrite (harvest_field cfg failure d key v rest Hk).
    destruct (String.eqb (ToLower key) "subject") eqn:E1.
    { apply String.eqb_eq in E1. exfalso. apply Hkey. rewrite E1. set_solver. }
    destruct (String.eqb (ToLower key) "to") eqn:E2.
    { apply String.eqb_eq in E2. exfalso. apply Hkey. rewrite E2. set_solver. }
    destruct (String.eqb (ToLower key) "cc") eqn:E3.
    { apply String.eqb_eq in E3. exfalso. apply Hkey. rewrite E3. set_solver. }
    destruct (String.eqb (ToLower key) "bcc") eqn:E4.
    { apply String.eqb_eq in E4. exfalso. apply Hkey. rewrite E4. set_solver. }
    destruct (mail.ParseAddressList (TrimSpace v)); cbn; [exact I | reflexivity].
  - cbn [app]. destruct (harvest_colon_line cfg failure d l (pre ++ line :: rest) Hl)
      as (key & v & Hk & ->).
    rewrite (harvest_field cfg failure d key v _ Hk).
    destruct (String.eqb (ToLower key) "subject"); [apply IH|].
    destruct (String.eqb (ToLower key) "to").
    { destruct (mail.ParseAddressList (TrimSpace v)); [apply IH | reflexivity]. }
    destruct (String.eqb (ToLower key) "cc").
    { destruct (mail.ParseAddressList (TrimSpace v)); [apply IH | reflexivity]. }
    destruct (String.eqb (ToLower key) "bcc").
    { destruct (mail.ParseAddressList (TrimSpace v)); [apply IH | reflexivity]. }
    destruct (mail.ParseAddressList (TrimSpace v)); cbn; [exact I | reflexivity].
Qed.

(** X21 (main of mailgun-mail, the loop under [-t]).  A field other
    than Subject, To, Cc and Bcc among the lines with a colon that
    begin the input (From, Date, ...) is not skipped: after the notice
    [ignoring header field], its value is parsed as an address list
    and the program ends, with status 2 when the value does not parse
    and by the dereference of the nil list pointer when it does.  The
    loop never returns, so no mail is sent. *)
Theorem harvest_unknown_field_never_returns (cfg : mg.Config) (failure : option string)
    (d : Draft) (pre : list string) (line : string) (rest : list string) :
  Forall (fun l => 0 <= IndexByte l ":") pre ->
  0 <= IndexByte line ":" ->
  ToLower (slice line 0 (IndexByte line ":")) ∉ ["subject"; "to"; "cc"; "bcc"] ->
  match snd (harvest cfg failure d (pre ++ line :: rest)) with
  | Ret _ => False
  | Exit code => code = 2
  | Panic _ => True
  end.
Proof. intros Hpre Hline Hkey. now apply harvest_unknown. Qed.

End MailInputFacts.

(** ** The requests of a run *)

Section RequestFacts.
Import GoStr bufio traces sendmail_settings.
Local Open Scope proc_scope.
Context `{L : mail.Lib} `{W : Sys}.

Lemma requests_app (t1 t2 : list event) : requests (t1 ++ t2) = requests t1 ++ requests t2.
Proof. unfold requests. apply flat_map_app. Qed.

Lemma quiet_ret {A} (a : A) : quiet (ret a).
Proof. reflexivity. Qed.

Lemma quiet_Die {A} (cfg : mg.Config) (err : string) : quiet (@mg.Die _ A cfg err).
Proof. reflexivity. Qed.

Lemma quiet_bind_Ret {A B} (m : Proc A) (f : A -> Proc B) :
  quiet m -> (forall t a, m = (t, Ret a) -> quiet (f a)) -> quiet (bind m f).
Proof.
  unfold quiet. destruct m as [t [a| |]]; cbn [bind fst]; intros Hm Hf; try assumption.
  specialize (Hf t a eq_refl). destruct (f a) as [t' o]. cbn [fst] in *.
  now rewrite requests_app, Hm, Hf.
Qed.

Lemma quiet_bind {A B} (m : Proc A) (f : A -> Proc B) :
  quiet m -> (forall a, quiet (f a)) -> quiet (bind m f).
Proof. intros Hm Hf. apply quiet_bind_Ret; auto. Qed.

Lemma quiet_Stderr {A} (text : string) (k : Proc A) :
  quiet k -> quiet (emit (Stderr text) >> k).
Proof. intros Hk. apply quiet_bind; [reflexivity | intros _; exact Hk]. Qed.

Lemma quiet_setTo (cfg : mg.Config) (l : list string) :
  forall to, quiet (mailgun_sendmail.setTo cfg to l).
Proof.
  induction l as [|arg l IH]; intros to; [apply quiet_ret|].
  cbn [mailgun_sendmail.setTo]. destruct (mg.AddrListFlag_Set to arg); [apply IH | apply quiet_Die].
Qed.

Lemma quiet_attach (cfg : mg.Config) (files : list string) : quiet (mg.attach cfg files).
Proof.
  induction files as [|f files IH]; [apply quiet_ret|].
  cbn [mg.attach]. destruct (os_Open f); try apply quiet_Die.
  apply quiet_bind; [exact IH | intros; apply quiet_ret].
Qed.

Lemma runPost_requests (cfg : mg.Config) (from : mail.Address) (to : list mail.Address)
    (endpoint bodytype : string) (body : list string) :
  requests (fst (mg.runPost cfg from to endpoint bodytype body)) = []
  \/ (mg.DisableMail cfg = false /\
      requests (fst (mg.runPost cfg from to endpoint bodytype body))
      = [mg.newRequest cfg endpoint bodytype (sconcat body)]).
Proof.
  destruct (http_NewRequest_error endpoint) as [e|] eqn:Hnew.
  { left. unfold mg.runPost. rewrite Hnew. reflexivity. }
  destruct (mg.DisableMail cfg) eqn:Hdis.
  { left. rewrite runPost_disabled by assumption. cbn [fst].
    destruct (mg.DebugHTTP cfg); reflexivity. }
  right. split; [reflexivity|].
  unfold mg.runPost. rewrite Hnew, Hdis. simpl mg.check.
  destruct (mg.DebugHTTP cfg) eqn:Hdbg.
  - rewrite readRequestBody_all. simpl.
    destruct (http_Do _) as [resp|e]; [|reflexivity]. simpl.
    destruct (http.BodyErr resp); [reflexivity|]. simpl.
    destruct (negb (http.StatusCode resp =? 200)); [reflexivity|].
    destruct (json.Unmarshal (http.RespBody resp)); [reflexivity|].
    simpl. destruct (mg.IsTTY cfg || mg.Verbose cfg); reflexivity.
  - simpl. rewrite readRequestBody_all. simpl.
    destruct (http_Do _) as [resp|e]; [|reflexivity]. simpl.
    destruct (negb (http.StatusCode resp =? 200)); [reflexivity|].
    destruct (http.BodyErr resp); [reflexivity|].
    destruct (json.Unmarshal (http.RespBody resp)); [reflexivity|].
    simpl. destruct (mg.IsTTY cfg || mg.Verbose cfg); reflexivity.
Qed.

Lemma quiet_runPost (cfg : mg.Config) (from : mail.Address) (to : list mail.Address)
    (endpoint bodytype : string) (body : list string) :
  mg.DisableMail cfg = true -> quiet (mg.runPost cfg from to endpoint bodytype body).
Proof.
  intros Hdis. destruct (runPost_requests cfg from to endpoint bodytype body) as [H | [H _]].
  - exact H.
  - congruence.
Qed.

Lemma quiet_Mail (cfg : mg.Config) (msg : mg.Message) :
  mg.DisableMail cfg = true -> quiet (mg.Mail cfg msg).
Proof.
  intros Hdis. unfold mg.Mail. apply quiet_bind; [apply quiet_attach|].
  intros files. now apply quiet_runPost.
Qed.

Lemma quiet_MailMIME (cfg : mg.Config) (from : mail.Address) (to : list mail.Address)
    (mime : string) :
  mg.DisableMail cfg = true -> quiet (mg.MailMIME cfg from to mime).
Proof. intros Hdis. unfold mg.MailMIME. now apply quiet_runPost. Qed.

Lemma quiet_mail_harvest (cfg : mg.Config) (failure : option string) (lines : list string) :
  forall d, quiet (mailgun_mail.harvest cfg failure d lines).
Proof.
  induction lines as [|line rest IH]; intros d.
  - cbn [mailgun_mail.harvest]. destruct failure; [apply quiet_Die | apply quiet_ret].
  - cbn [mailgun_mail.harvest]. destruct (IndexByte line ":" <? 0).
    { repeat match goal with |- context [if ?b then _ else _] => destruct b end;
        apply quiet_ret. }
    destruct (String.eqb _ "subject"); [apply IH|].
    destruct (String.eqb _ "to").
    { destruct (mail.ParseAddressList _); [apply IH | apply quiet_Die]. }
    destruct (String.eqb _ "cc").
    { destruct (mail.ParseAddressList _); [apply IH | apply quiet_Die]. }
    destruct (String.eqb _ "bcc").
    { destruct (mail.ParseAddressList _); [apply IH | apply quiet_Die]. }
    apply quiet_Stderr. destruct (mail.ParseAddressList _); [reflexivity | apply quiet_Die].
Qed.

Lemma quiet_ttyBody (cfg : mg.Config) (failure : option string) (lines : list string) :
  forall d, quiet (mailgun_mail.ttyBody cfg failure d lines).
Proof.
  induction lines as [|line rest IH]; intros d; cbn [mailgun_mail.ttyBody].
  - destruct failure; [apply quiet_Die | apply quiet_ret].
  - destruct (_ && _); [apply quiet_ret | apply IH].
Qed.

Lemma quiet_ingest (cfg : mg.Config) (tflag_ : bool) (failure : option string)
    (d : mailgun_mail.Draft) :
  quiet (mailgun_mail.ingest cfg tflag_ failure d).
Proof.
  unfold mailgun_mail.ingest. apply quiet_bind.
  - destruct tflag_; [apply quiet_mail_harvest | apply quiet_ret].
  - intros [d' send]. destruct send; [apply quiet_ret|].
    unfold mailgun_mail.readBody. destruct (mg.IsTTY cfg).
    + apply quiet_bind; [apply quiet_ttyBody|]. intros d''.
      apply quiet_Stderr, quiet_ret.
    + destruct failure; [apply quiet_Die | apply quiet_ret].
Qed.

Lemma requests_Stderr (f : string -> string) (l : list string) :
  requests (map (fun a => Stderr (f a)) l) = [].
Proof. induction l as [|a l IH]; [reflexivity | exact IH]. Qed.

Lemma quiet_verbose (msg : mg.Message) : quiet (mailgun_mail.verbose msg).
Proof.
  unfold mailgun_mail.verbose. repeat apply quiet_Stderr.
  destruct (0 <? length (mg.Attachments msg))%nat; [|apply quiet_ret].
  apply quiet_Stderr. unfold quiet. cbn [fst]. apply requests_Stderr.
Qed.

(** X22 (main of mailgun-mail, [-n]).  With [-n] no request is handed
    to the HTTP client, whatever the other flags, the arguments, the
    input and the answers of the surroundings. *)
Theorem mail_n_makes_no_request (cfg0 : mg.Config) (fl : mailgun_mail.Flags)
    (stdin : Input) :
  mailgun_mail.nflag fl = true ->
  requests (fst (mailgun_mail.main cfg0 fl stdin)) = [].
Proof.
  intros Hn. change (quiet (mailgun_mail.main cfg0 fl stdin)).
  unfold mailgun_mail.main. rewrite Hn.
  destruct (_ && _); [apply quiet_Die|].
  apply quiet_bind; [rewrite setTo_same; apply quiet_setTo | intros to0].
  apply quiet_bind.
  { destruct (last (mailgun_mail.rflag fl)).
    - destruct (mg.ParseAddress _); [apply quiet_ret | apply quiet_Die].
    - destruct (String.eqb _ ""); [apply quiet_Die | apply quiet_ret]. }
  intros from. apply quiet_bind.
  { destruct (last (mailgun_mail.sflag fl)); [apply quiet_ret|].
    cbn [mg.IsTTY]. destruct (mg.IsTTY cfg0); [|apply quiet_ret].
    apply quiet_Stderr. destruct (readLines (data stdin)); [|apply quiet_ret].
    destruct (failure stdin); [apply quiet_Die|].
    apply quiet_bind; [reflexivity | intros; apply quiet_ret]. }
  intros [[subject0 lines]|]; [|apply quiet_ret].
  apply quiet_bind; [apply quiet_ingest | intros d].
  apply quiet_bind.
  { destruct (mailgun_mail.vflag fl); [apply quiet_verbose | apply quiet_ret]. }
  intros _. apply quiet_bind; [now apply quiet_Mail | intros; apply quiet_ret].
Qed.

Lemma quiet_debugValues (values : list string) :
  forall cfg, quiet (mailgun_sendmail.debugValues cfg values).
Proof.
  induction values as [|v values IH]; intros cfg; [apply quiet_ret|].
  cbn [mailgun_sendmail.debugValues].
  destruct (String.eqb v "http"); [apply IH|].
  destruct (String.eqb v "nosend"); [apply IH | apply quiet_Die].
Qed.

Lemma quiet_sendmail_harvest (cfg : mg.Config) (h : mail.Header) (keys : list string) :
  forall to, quiet (mailgun_sendmail.harvest cfg h to keys).
Proof.
  induction keys as [|key keys IH]; intros to; [apply quiet_ret|].
  cbn [mailgun_sendmail.harvest]. destruct (_ =? 0)%nat; [apply IH|].
  destruct (mail.AddressList h key); [apply IH | apply quiet_Die].
Qed.

Lemma quiet_prepare (cfg : mg.Config) (fl : mailgun_sendmail.Flags) (stdin : Input) :
  quiet (mailgun_sendmail.prepare cfg fl stdin).
Proof.
  unfold mailgun_sendmail.prepare.
  apply quiet_bind; [apply quiet_debugValues | intros cfg1].
  destruct (negb _); [apply quiet_Die|].
  destruct (_ && _); [apply quiet_Die|].
  apply quiet_bind; [apply quiet_setTo | intros to0].
  apply quiet_bind.
  { destruct (negb _); [apply quiet_ret|].
    destruct (String.eqb _ ""); [apply quiet_Die | apply quiet_ret]. }
  intros from0. apply quiet_bind.
  { unfold mailgun_sendmail.msgCopy. destruct (mailgun_sendmail.msgCopy_loop _ _ _) as [out [u|]].
    - apply quiet_ret.
    - destruct (failure stdin); [apply quiet_Die | apply quiet_ret]. }
  intros text. destruct (mail.ReadMessage text); [|apply quiet_Die].
  apply quiet_bind; [|intros; apply quiet_ret].
  destruct (mailgun_sendmail.tflag fl); [|apply quiet_ret].
  apply quiet_bind; [apply quiet_sendmail_harvest | intros to1].
  destruct (_ =? 0)%nat; [apply quiet_Die | apply quiet_ret].
Qed.

(** X23 (main of mailgun-sendmail, [-d nosend]).  When [nosend] is
    among the values given with [-d], no request is handed to the HTTP
    client, whatever the other flags, the arguments, the input and the
    answers of the surroundings. *)
Theorem sendmail_nosend_makes_no_request (cfg : mg.Config) (fl : mailgun_sendmail.Flags)
    (stdin : Input) :
  given "nosend" (mailgun_sendmail.dflag fl) = true ->
  requests (fst (mailgun_sendmail.main cfg fl stdin)) = [].
Proof.
  intros Hd. change (quiet (mailgun_sendmail.main cfg fl stdin)).
  unfold mailgun_sendmail.main. apply quiet_bind_Ret; [apply quiet_prepare|].
  intros t m Hm. apply prepare_inv in Hm as (_ & _ & Hc & _).
  apply quiet_MailMIME. rewrite Hc, Hd. cbn. apply orb_true_r.
Qed.

(** X24 (Mail, MailMIME, startPost, runPost).  A call of [Mail] or of
    [MailMIME] hands at most one request to the HTTP client, and none
    when [DisableMail] is set.  The request is a POST to the endpoint
    [messages], for [MailMIME] [messages.mime], of the Mailgun API for
    the configured domain, with the user [api] and the configured key
    as password. *)
Theorem at_most_one_request_to_Mailgun (cfg : mg.Config) (msg : mg.Message)
    (from : mail.Address) (to : list mail.Address) (mime : string) :
  (requests (fst (mg.Mail cfg msg)) = []
   \/ mg.DisableMail cfg = false /\
      exists req, requests (fst (mg.Mail cfg msg)) = [req] /\ toMailgun cfg "messages" req)
  /\ (requests (fst (mg.MailMIME cfg from to mime)) = []
      \/ mg.DisableMail cfg = false /\
         exists req, requests (fst (mg.MailMIME cfg from to mime)) = [req]
                     /\ toMailgun cfg "messages.mime" req).
Proof.
  split.
  - unfold mg.Mail. pose proof (quiet_attach cfg (mg.Attachments (mg.fixMessage (mg.Domain cfg) msg))) as Ha.
    destruct (mg.attach cfg _) as [t [files| |]]; unfold quiet in Ha; cbn [fst bind] in *;
      try (now left).
    unfold mg.post.
    match goal with |- context [mg.runPost ?c ?f ?t0 ?e ?b ?p] =>
      destruct (runPost_requests c f t0 e b p) as [H | [Hdis H]];
      destruct (mg.runPost c f t0 e b p) as [t' o] end; cbn [fst] in *.
    + left. now rewrite requests_app, Ha, H.
    + right. split; [assumption|]. eexists. split.
      * rewrite requests_app, Ha, H. reflexivity.
      * repeat split.
  - unfold mg.MailMIME, mg.post.
    match goal with |- context [mg.runPost ?c ?f ?t0 ?e ?b ?p] =>
      destruct (runPost_requests c f t0 e b p) as [H | [Hdis H]] end.
    + now left.
    + right. split; [assumption|]. eexists. split; [exact H | repeat split].
Qed.

End RequestFacts.

(** ** How a run ends *)

Section OutcomeFacts.
Import GoStr bufio traces sendmail_settings.
Local Open Scope proc_scope.
Context `{L : mail.Lib} `{W : Sys}.

Lemma Die_died {A} (cfg : mg.Config) (err : string) :
  @mg.Die _ A cfg err = (died cfg err, Exit 2).
Proof. reflexivity. Qed.

(** The ways in which [runPost] ends. *)
Lemma runPost_outcome (cfg : mg.Config) (from : mail.Address) (to : list mail.Address)
    (endpoint bodytype : string) (body : list string) :
  (exists t total_,
     mg.runPost cfg from to endpoint bodytype body
     = (t ++ [Finished], Ret (mg.mkCountingReader total_ []))
     /\ (Finished ∉ t)
     /\ (existsb sentRecord t = negb (mg.DisableMail cfg)))
  \/ (exists t err,
        mg.runPost cfg from to endpoint bodytype body = (t ++ died cfg err, Exit 2)
        /\ (Finished ∉ t) /\ existsb sentRecord t = false).
Proof.
  assert (Hno : forall l : list event, forallb (fun e => match e with Finished => false | _ => true end) l = true -> Finished ∉ l).
  { intros l Hl Hin. apply list_elem_of_In in Hin.
    rewrite forallb_forall in Hl. specialize (Hl _ Hin). discriminate. }
  destruct (http_NewRequest_error endpoint) as [e|] eqn:Hnew.
  { right. exists [], ("creating mailgun API request: " +:+ e).
    unfold mg.runPost. rewrite Hnew. repeat split. apply Hno. reflexivity. }
  destruct (mg.DisableMail cfg) eqn:Hdis.
  { left. rewrite runPost_disabled by assumption.
    destruct (mg.DebugHTTP cfg).
    - eexists [_; _], _. repeat split. apply Hno. reflexivity.
    - eexists [_], _. repeat split. apply Hno. reflexivity. }
  unfold mg.runPost. rewrite Hnew, Hdis. simpl mg.check.
  destruct (mg.DebugHTTP cfg) eqn:Hdbg.
  - rewrite readRequestBody_all. simpl.
    destruct (http_Do _) as [resp|e].
    2:{ right. eexists [_; _], _. repeat split. apply Hno. reflexivity. }
    simpl. destruct (http.BodyErr resp).
    { right. eexists [_; _], _. repeat split. apply Hno. reflexivity. }
    simpl. destruct (negb (http.StatusCode resp =? 200)).
    { right. eexists [_; _; _], _. repeat split. apply Hno. reflexivity. }
    destruct (json.Unmarshal (http.RespBody resp)).
    { right. eexists [_; _; _], _. repeat split. apply Hno. reflexivity. }
    left. simpl. destruct (mg.IsTTY cfg || mg.Verbose cfg).
    + eexists [_; _; _; _; _], _. repeat split. apply Hno. reflexivity.
    + eexists [_; _; _; _], _. repeat split. apply Hno. reflexivity.
  - simpl. rewrite readRequestBody_all. simpl.
    destruct (http_Do _) as [resp|e].
    2:{ right. eexists [_], _. repeat split. apply Hno. reflexivity. }
    simpl. destruct (negb (http.StatusCode resp =? 200)).
    { right. eexists [_], _. repeat split. apply Hno. reflexivity. }
    destruct (http.BodyErr resp).
    { right. eexists [_], _. repeat split. apply Hno. reflexivity. }
    destruct (json.Unmarshal (http.RespBody resp)).
    { right. eexists [_], _. repeat split. apply Hno. reflexivity. }
    left. simpl. destruct (mg.IsTTY cfg || mg.Verbose cfg).
    + eexists [_; _; _], _. repeat split. apply Hno. reflexivity.
    + eexists [_; _], _. repeat split. apply Hno. reflexivity.
Qed.

(** X26 (runPost).  Every run of [runPost] ends in one of two ways.
    Either it returns: the pipe has been read to its end, the signal on
    the channel is the last thing it does, and a sent-mail record has
    been logged exactly when [DisableMail] is not set.  Or it ends in
    [Die]: the error is logged and printed last, the exit status is 2,
    no signal has been given and no sent-mail record logged.  It does
    not end in a run-time panic. *)
Theorem runPost_finishes_or_dies (cfg : mg.Config) (from : mail.Address)
    (to : list mail.Address) (endpoint bodytype : string) (body : list string) :
  (exists t cr,
     mg.runPost cfg from to endpoint bodytype body = (t ++ [Finished], Ret cr)
     /\ mg.r cr = [] /\ (Finished ∉ t)
     /\ existsb sentRecord t = negb (mg.DisableMail cfg))
  \/ (exists t err,
        mg.runPost cfg from to endpoint bodytype body = (t ++ died cfg err, Exit 2)
        /\ (Finished ∉ t) /\ existsb sentRecord t = false).
Proof.
  destruct (runPost_outcome cfg from to endpoint bodytype body)
    as [(t & n & H & Hf & Hs) | H]; [left | now right].
  exists t, (mg.mkCountingReader n []). now repeat split.
Qed.

Lemma orderly_ret {A} (a : A) : orderly (ret a).
Proof. exact I. Qed.

Lemma orderly_Die {A} (cfg : mg.Config) (err : string) : orderly (@mg.Die _ A cfg err).
Proof. reflexivity. Qed.

Lemma orderly_bind {A B} (m : Proc A) (f : A -> Proc B) :
  orderly m -> (forall a, orderly (f a)) -> orderly (bind m f).
Proof.
  unfold orderly. destruct m as [t [a| |]]; cbn [bind snd]; intros Hm Hf; try assumption.
  specialize (Hf a). destruct (f a) as [t' o]. exact Hf.
Qed.

Lemma orderly_emit {A} (e : event) (k : Proc A) : orderly k -> orderly (emit e >> k).
Proof. intros Hk. apply orderly_bind; [exact I | intros _; exact Hk]. Qed.

Lemma orderly_runPost (cfg : mg.Config) (from : mail.Address) (to : list mail.Address)
    (endpoint bodytype : string) (body : list string) :
  orderly (mg.runPost cfg from to endpoint bodytype body).
Proof.
  unfold orderly.
  destruct (runPost_outcome cfg from to endpoint bodytype body)
    as [(t & n & -> & _) | (t & err & -> & _)]; [exact I | reflexivity].
Qed.

Lemma orderly_attach (cfg : mg.Config) (files : list string) : orderly (mg.attach cfg files).
Proof.
  induction files as [|f files IH]; [apply orderly_ret|].
  cbn [mg.attach]. destruct (os_Open f); try apply orderly_Die.
  apply orderly_bind; [exact IH | intros; apply orderly_ret].
Qed.

Lemma orderly_Mail (cfg : mg.Config) (msg : mg.Message) : orderly (mg.Mail cfg msg).
Proof.
  unfold mg.Mail. apply orderly_bind; [apply orderly_attach|].
  intros files. apply orderly_runPost.
Qed.

Lemma orderly_setTo (cfg : mg.Config) (l : list string) :
  forall to, orderly (mailgun_sendmail.setTo cfg to l).
Proof.
  induction l as [|arg l IH]; intros to; [apply orderly_ret|].
  cbn [mailgun_sendmail.setTo].
  destruct (mg.AddrListFlag_Set to arg); [apply IH | apply orderly_Die].
Qed.

Lemma orderly_debugValues (values : list string) :
  forall cfg, orderly (mailgun_sendmail.debugValues cfg values).
Proof.
  induction values as [|v values IH]; intros cfg; [apply orderly_ret|].
  cbn [mailgun_sendmail.debugValues].
  destruct (String.eqb v "http"); [apply IH|].
  destruct (String.eqb v "nosend"); [apply IH | apply orderly_Die].
Qed.

Lemma orderly_sendmail_harvest (cfg : mg.Config) (h : mail.Header) (keys : list string) :
  forall to, orderly (mailgun_sendmail.harvest cfg h to keys).
Proof.
  induction keys as [|key keys IH]; intros to; [apply orderly_ret|].
  cbn [mailgun_sendmail.harvest]. destruct (_ =? 0)%nat; [apply IH|].
  destruct (mail.AddressList h key); [apply IH | apply orderly_Die].
Qed.

Lemma orderly_prepare (cfg : mg.Config) (fl : mailgun_sendmail.Flags) (stdin : Input) :
  orderly (mailgun_sendmail.prepare cfg fl stdin).
Proof.
  unfold mailgun_sendmail.prepare.
  apply orderly_bind; [apply orderly_debugValues | intros cfg1].
  destruct (negb _); [apply orderly_Die|].
  destruct (_ && _); [apply orderly_Die|].
  apply orderly_bind; [apply orderly_setTo | intros to0].
  apply orderly_bind.
  { destruct (negb _); [apply orderly_ret|].
    destruct (String.eqb _ ""); [apply orderly_Die | apply orderly_ret]. }
  intros from0. apply orderly_bind.
  { unfold mailgun_sendmail.msgCopy.
    destruct (mailgun_sendmail.msgCopy_loop _ _ _) as [out [u|]].
    - apply orderly_ret.
    - destruct (failure stdin); [apply orderly_Die | apply orderly_ret]. }
  intros text. destruct (mail.ReadMessage text); [|apply orderly_Die].
  apply orderly_bind; [|intros; apply orderly_ret].
  destruct (mailgun_sendmail.tflag fl); [|apply orderly_ret].
  apply orderly_bind; [apply orderly_sendmail_harvest | intros to1].
  destruct (_ =? 0)%nat; [apply orderly_Die | apply orderly_ret].
Qed.

Lemma orderly_ttyBody (cfg : mg.Config) (failure : option string) (lines : list string) :
  forall d, orderly (mailgun_mail.ttyBody cfg failure d lines).
Proof.
  induction lines as [|line rest IH]; intros d; cbn [mailgun_mail.ttyBody].
  - destruct failure; [apply orderly_Die | apply orderly_ret].
  - destruct (_ && _); [apply orderly_ret | apply IH].
Qed.

Lemma orderly_verbose (msg : mg.Message) : orderly (mailgun_mail.verbose msg).
Proof.
  unfold mailgun_mail.verbose. repeat apply orderly_emit.
  destruct (0 <? length (mg.Attachments msg))%nat; [|apply orderly_ret].
  apply orderly_emit. exact I.
Qed.

(** X27 (main of both commands).  The run of mailgun-sendmail from the
    parsed flags on, and that of mailgun-mail without [-t], ends by
    returning or by [os.Exit] with status 2, whatever the flags, the
    arguments, the input and the answers of the surroundings: the
    dereference of the nil list pointer in mailgun-mail is met under
    [-t] only. *)
Theorem main_returns_or_exits_2 (cfg : mg.Config) (sfl : mailgun_sendmail.Flags)
    (mfl : mailgun_mail.Flags) (stdin : Input) :
  orderly (mailgun_sendmail.main cfg sfl stdin)
  /\ (mailgun_mail.tflag mfl = false -> orderly (mailgun_mail.main cfg mfl stdin)).
Proof.
  split.
  - unfold mailgun_sendmail.main. apply orderly_bind; [apply orderly_prepare|].
    intros m. unfold mg.MailMIME. apply orderly_runPost.
  - intros Ht. unfold mailgun_mail.main. rewrite Ht.
    destruct (_ && _); [apply orderly_Die|].
    apply orderly_bind; [rewrite setTo_same; apply orderly_setTo | intros to0].
    apply orderly_bind.
    { destruct (last (mailgun_mail.rflag mfl)).
      - destruct (mg.ParseAddress _); [apply orderly_ret | apply orderly_Die].
      - destruct (String.eqb _ ""); [apply orderly_Die | apply orderly_ret]. }
    intros from. apply orderly_bind.
    { destruct (last (mailgun_mail.sflag mfl)); [apply orderly_ret|].
      cbn [mg.IsTTY]. destruct (mg.IsTTY cfg); [|apply orderly_ret].
      apply orderly_emit. destruct (readLines (data stdin)); [|apply orderly_ret].
      destruct (failure stdin); [apply orderly_Die|].
      apply orderly_bind; [exact I | intros; apply orderly_ret]. }
    intros [[subject0 lines]|]; [|apply orderly_ret].
    apply orderly_bind.
    { unfold mailgun_mail.ingest. rewrite bind_ret_l.
      unfold mailgun_mail.readBody. cbn [mg.IsTTY]. destruct (mg.IsTTY cfg).
      - apply orderly_bind; [apply orderly_ttyBody|]. intros d.
        apply orderly_emit, orderly_ret.
      - destruct (failure stdin); [apply orderly_Die | apply orderly_ret]. }
    intros d. apply orderly_bind.
    { destruct (mailgun_mail.vflag mfl); [apply orderly_verbose | apply orderly_ret]. }
    intros _. apply orderly_bind; [apply orderly_Mail | intros; apply orderly_ret].
Qed.

End OutcomeFacts.

(** ** The further properties on examples *)

Section FurtherExamples.
Import GoStr bufio mg_init mg_attach sendmail_settings framing traces.

Let W0 : Sys := Example.world (Err "unreachable").
Let cfg0 : mg.Config := Example.config false false false.
Let tty0 : mg.Config := Example.config true false false.
Let keyText : string := "example.com api:key-0123" +:+ nl.
Let blankCfg : mg.Config := mg.mkConfig false "" "" "alice" false false false "mailgun" [].

Lemma parseKey_sets_wellformed_key_witness :
  @parseKey W0 blankCfg "$MAILGUNKEY" keyText = ([], Ret cfg0)
  /\ Fields keyText = ["example.com"; "api:key-0123"]
  /\ clean "example.com" /\ clean "key-0123".
Proof.
  assert (H : @parseKey W0 blankCfg "$MAILGUNKEY" keyText = ([], Ret cfg0))
    by (vm_compute; reflexivity).
  split; [exact H|].
  destruct (@parseKey_sets_wellformed_key W0 blankCfg cfg0 "$MAILGUNKEY" keyText [] H)
    as (_ & HF & _ & Hd & _ & Hk & _).
  split; [exact HF|]. split; [exact Hd | exact Hk].
Defined.

Lemma parseKey_accepts_documented_form_witness :
  @parseKey W0 blankCfg "/etc/mailgun.key" keyText = ret cfg0.
Proof.
  apply (@parseKey_accepts_documented_form W0 blankCfg "/etc/mailgun.key"
           "" "example.com" " " "0123" nl); try reflexivity.
  discriminate.
Defined.

Let homeHost : OS := host "" (Ok keyText) (Err "open /etc/mailgun.key: no such file or directory").

Lemma readConfig_key_of_first_source_witness :
  @readConfig W0 homeHost blankCfg = ([], Ret cfg0)
  /\ exists key,
       Fields key = ["example.com"; "api:key-0123"]
       /\ ((key <> "" /\ @Getenv homeHost "MAILGUNKEY" = key)
           \/ (@Getenv homeHost "MAILGUNKEY" = ""
               /\ @ReadFile homeHost (@Getenv homeHost "HOME" +:+ "/.mailgun.key") = Ok key)
           \/ (@Getenv homeHost "MAILGUNKEY" = ""
               /\ (exists e, @ReadFile homeHost (@Getenv homeHost "HOME" +:+ "/.mailgun.key")
                             = Err e)
               /\ @ReadFile homeHost "/etc/mailgun.key" = Ok key)).
Proof.
  assert (H : @readConfig W0 homeHost blankCfg = ([], Ret cfg0)) by (vm_compute; reflexivity).
  split; [exact H|].
  destruct (@readConfig_key_of_first_source W0 homeHost blankCfg cfg0 [] H)
    as (_ & Hkey & _).
  exact Hkey.
Defined.

Let badHost : OS := host "example.com" (Ok keyText) (Ok keyText).

Lemma readConfig_malformed_is_fatal_witness :
  @readConfig W0 badHost blankCfg
  = @mg.Die W0 _ blankCfg "malformed mailgun API key in $MAILGUNKEY".
Proof.
  apply (@readConfig_malformed_is_fatal W0 badHost blankCfg "$MAILGUNKEY" "example.com").
  - left. split; [discriminate|]. split; reflexivity.
  - intros tr c. vm_compute. discriminate.
Defined.



Lemma setTo_first_bad_argument_witness :
  @mailgun_sendmail.setTo Example.net_mail W0 cfg0 [] ["bob@example.org"; "a b"; "c"]
  = @mg.Die W0 _ cfg0 "cannot parse To: address: mail: missing '@' or angle-addr".
Proof.
  apply (@setTo_first_bad_argument Example.net_mail W0 cfg0 ["bob@example.org"]
           [mail.mkAddress "" "bob@example.org"] "a b" "mail: missing '@' or angle-addr"
           ["c"] []).
  - constructor; [reflexivity | constructor].
  - reflexivity.
Defined.

Let relayFlags2 : mailgun_sendmail.Flags :=
  mailgun_sendmail.mkFlags "" "m" ["nosend"] "Alice" "" false true true ["dave@example.org"].
Let piped2 : Input :=
  mkInput ("To: a@example.org" +:+ nl +:+ "Bcc: b@example.org" +:+ nl
           +:+ "Subject: x" +:+ nl +:+ "hello" +:+ nl) None.
Let relayed2 : mailgun_sendmail.Relay :=
  mailgun_sendmail.mkRelay
    (mg.mkConfig false "example.com" "key-0123" "alice" true false true "mailgun" [])
    (mail.mkAddress "Alice" "alice@example.com")
    [mail.mkAddress "" "dave@example.org"; mail.mkAddress "" "a@example.org";
     mail.mkAddress "" "b@example.org"]
    ("From: " +:+ String DQUOTE "Alice" +:+ String DQUOTE " <alice@example.com>" +:+ nl
     +:+ "Subject: x" +:+ nl
     +:+ "To: a@example.org" +:+ nl +:+ nl +:+ "hello" +:+ nl).

Lemma prepare2 :
  @mailgun_sendmail.prepare Example.net_mail W0 cfg0 relayFlags2 piped2 = ([], Ret relayed2).
Proof. vm_compute. reflexivity. Defined.

Lemma prepare_settings_and_sender_witness :
  mg.DisableMail (mailgun_sendmail.config relayed2) = true
  /\ mail.Name (mailgun_sendmail.from relayed2) = "Alice"
  /\ Contains (mail.Addr (mailgun_sendmail.from relayed2)) "@" = true.
Proof.
  destruct (@prepare_settings_and_sender Example.net_mail W0 cfg0 relayFlags2 piped2 []
              relayed2 prepare2) as (_ & _ & _ & Hc & _ & _ & Hn & Ha).
  split; [now rewrite Hc|]. split; [exact Hn | exact Ha].
Defined.

Lemma prepare_recipients_witness : mailgun_sendmail.to relayed2 <> [].
Proof.
  destruct (@prepare_recipients Example.net_mail W0 cfg0 relayFlags2 piped2 []
              relayed2 prepare2) as [Hne _].
  exact Hne.
Defined.

Let framed : Input :=
  mkInput ("Subject: x" +:+ nl +:+ nl +:+ "hello" +:+ nl +:+ "." +:+ nl +:+ "more") None.

Lemma msgCopy_copies_framed_input_witness :
  @mailgun_sendmail.msgCopy W0 cfg0 relayFlags2 framed
  = ret ("Subject: x" +:+ nl +:+ nl +:+ "hello" +:+ nl +:+ "." +:+ nl +:+ "more" +:+ nl).
Proof.
  apply (@msgCopy_copies_framed_input W0 cfg0 relayFlags2 framed); reflexivity.
Defined.

Let broken : Input :=
  mkInput ("Subject: x" +:+ nl +:+ nl +:+ "hello" +:+ nl +:+ "." +:+ nl +:+ "more")
    (Some "read error").

Lemma msgCopy_stops_at_first_dot_witness :
  @mailgun_sendmail.msgCopy W0 tty0 relayFlags2 broken
  = ret ("Subject: x" +:+ nl +:+ nl +:+ "hello" +:+ nl).
Proof.
  apply (@msgCopy_stops_at_first_dot W0 tty0 relayFlags2 broken
           ["Subject: x" +:+ nl; nl; "hello" +:+ nl] ("." +:+ nl) ["more"]).
  - reflexivity.
  - reflexivity.
  - reflexivity.
  - repeat constructor.
  - reflexivity.
Defined.

Let typed2 : mailgun_mail.Draft :=
  mailgun_mail.mkDraft [mail.mkAddress "" "bob@example.org"] [] [] "hi" ""
    ["hello" +:+ nl; ".." +:+ nl; "." +:+ nl; "more" +:+ nl].

Lemma readBody_stops_at_first_dot_witness :
  @mailgun_mail.readBody W0 tty0 (Some "read error") typed2 =
    ([Stderr ("EOT" +:+ nl)],
     Ret (mailgun_mail.mkDraft [mail.mkAddress "" "bob@example.org"] [] [] "hi"
            ("hello" +:+ nl +:+ ".." +:+ nl) ["more" +:+ nl])).
Proof.
  apply (@readBody_stops_at_first_dot W0 tty0 (Some "read error") typed2
           ["hello" +:+ nl; ".." +:+ nl] ["more" +:+ nl]).
  - reflexivity.
  - reflexivity.
  - repeat constructor; discriminate.
Defined.

Let mailFlags : mailgun_mail.Flags :=
  mailgun_mail.mkFlags true false true false false [] [] [] [] ["hi"] ["bob@example.org"].
Let emptyPipe : Input := mkInput "" None.

Lemma mail_piped_message_witness :
  @mailgun_mail.main Example.net_mail W0 cfg0 mailFlags emptyPipe =
    bind (@mg.Mail Example.net_mail W0 (Example.config false false true)
            (mg.mkMessage (mail.mkAddress "" "alice") [mail.mkAddress "" "bob@example.org"]
               [] [] "hi" "" []))
      (fun cr => ret (Some cr)).
Proof.
  rewrite (@mail_piped_message Example.net_mail W0 cfg0 mailFlags emptyPipe
             [mail.mkAddress "" "bob@example.org"] (mail.mkAddress "" "alice")).
  - reflexivity.
  - reflexivity.
  - reflexivity.
  - reflexivity.
  - discriminate.
  - constructor; [reflexivity | constructor].
  - split; [discriminate | reflexivity].
Defined.

Let draft0 : mailgun_mail.Draft :=
  mailgun_mail.mkDraft [mail.mkAddress "" "bob@example.org"] [] [] "" "" [].

Lemma harvest_reads_field_line_witness :
  @mailgun_mail.harvest Example.net_mail W0 cfg0 None draft0 ["SUBJECT:  hi " +:+ nl]
  = ret (mailgun_mail.mkDraft [mail.mkAddress "" "bob@example.org"] [] [] "hi" "" [], false).
Proof.
  destruct (@harvest_reads_field_line Example.net_mail W0 cfg0 None draft0 "SUBJECT"
              ("  hi " +:+ nl) [] eq_refl) as [Hs _].
  change ("SUBJECT:  hi " +:+ nl) with ("SUBJECT" +:+ ":" +:+ "  hi " +:+ nl).
  rewrite (Hs eq_refl). reflexivity.
Defined.

Lemma harvest_unknown_field_never_returns_witness :
  match snd (@mailgun_mail.harvest Example.net_mail W0 cfg0 None draft0
               ["Subject: hi" +:+ nl; "From: carol@example.org" +:+ nl; nl;
                "hello" +:+ nl]) with
  | Ret _ => False
  | Exit code => code = 2
  | Panic _ => True
  end.
Proof.
  apply (@harvest_unknown_field_never_returns Example.net_mail W0 cfg0 None draft0
           ["Subject: hi" +:+ nl] ("From: carol@example.org" +:+ nl) [nl; "hello" +:+ nl]).
  - repeat constructor. vm_compute. discriminate.
  - vm_compute. discriminate.
  - intros Hin.
    repeat (apply elem_of_cons in Hin as [Hin | Hin]; [vm_compute in Hin; discriminate|]).
    now apply elem_of_nil in Hin.
Defined.

Lemma mail_n_makes_no_request_witness :
  requests (fst (@mailgun_mail.main Example.net_mail W0 cfg0 mailFlags emptyPipe)) = [].
Proof. apply (@mail_n_makes_no_request Example.net_mail W0 cfg0 mailFlags emptyPipe). reflexivity. Defined.

Lemma sendmail_nosend_makes_no_request_witness :
  requests (fst (@mailgun_sendmail.main Example.net_mail W0 cfg0 relayFlags2 piped2)) = [].
Proof.
  apply (@sendmail_nosend_makes_no_request Example.net_mail W0 cfg0 relayFlags2 piped2).
  reflexivity.
Defined.

Let ttyFlags : mailgun_mail.Flags :=
  mailgun_mail.mkFlags false false false false false ["notes.txt"] [] [] [] []
    ["bob@example.org"].

Lemma mail_no_subject_no_mail_witness :
  @mailgun_mail.main Example.net_mail W0 tty0 ttyFlags emptyPipe =
    ([Stderr "Subject: ";
      LogPrintf (LogText "alice" ["mailgun"] "no subject, no text, not sending")],
     Ret None).
Proof.
  apply (@mail_no_subject_no_mail Example.net_mail W0 tty0 ttyFlags emptyPipe
           [mail.mkAddress "" "bob@example.org"] (mail.mkAddress "" "alice")).
  - reflexivity.
  - reflexivity.
  - reflexivity.
  - reflexivity.
  - left. discriminate.
  - constructor; [reflexivity | constructor].
  - split; [discriminate | reflexivity].
Defined.

Lemma main_returns_or_exits_2_witness :
  orderly (@mailgun_sendmail.main Example.net_mail W0 cfg0 relayFlags2 piped2)
  /\ orderly (@mailgun_mail.main Example.net_mail W0 cfg0 mailFlags piped2).
Proof.
  destruct (@main_returns_or_exits_2 Example.net_mail W0 cfg0 relayFlags2 mailFlags piped2)
    as [H1 H2].
  split; [exact H1 | apply H2; reflexivity].
Defined.

Lemma ParseAddress_fails_only_in_net_mail_witness :
  @mail.ParseAddress Example.net_mail "a b" = Err "mail: missing '@' or angle-addr"
  /\ ContainsAny "a b" mg.specials = true.
Proof.
  destruct (@ParseAddress_fails_only_in_net_mail Example.net_mail "a b"
              "mail: missing '@' or angle-addr" eq_refl) as (H1 & H2 & _).
  split; [exact H1 | exact H2].
Defined.

End FurtherExamples.
